(** * MeshEditor: the editor state machine of the 3D scene editor

    A shallow embedding of [src/editor.js] (class [MeshEditor]) and of the
    constants of [theme.js] it reads, followed by the properties of the
    scene registry, the selection, the undo/redo history and the keyframe
    engine.  The keyboard dispatcher with the snap settings, and
    [mergeTheme] of [theme.js], are embedded beside the editor state.

    Modelling conventions.
    - JS object identity.  [objects], [selectedObjects] and [sceneCameras]
      are arrays of references to the same mutable [objData] objects.  The
      references are addresses ([ref]) into an explicit store ([heap]);
      [includes], [indexOf] and [o !== obj] compare addresses.  A JS
      reference always points to an allocated object, so the [None] branch
      of a store lookup is never taken on a state the editor builds.
    - Numbers.  Ids, frame numbers and counters are integers held in
      doubles: they are integers ([Z]), and what the code adds to them goes
      through [double_round], which is exact up to 2^53 and rounds to the
      nearest double beyond.  Transform components are JS floats: they are
      kept abstract (class [Numeric]) so that every structural statement
      holds whatever the arithmetic is; the rationals [Q] instantiate the
      class where a numeric value has to be computed.
    - Three.js.  A mesh is reduced to its position, rotation and scale
      (each an array of three numbers).  [Object3D.lookAt] and the constant
      [-Math.PI / 2] are members of [Numeric]; materials, geometries, the
      renderer and the DOM are not part of the state.
    - JSON.  The file that [save] writes carries every transform and
      keyframe number as JSON reads it back ([through_json]: NaN and the
      infinities come back as null, -0 as 0).  The keys of
      [cameraTrackTargets] are property keys, that is strings: the map is
      keyed by the ids, and [parse_key] is the number that parseInt reads
      back from the key of an id.  An undo-stack entry is the JSON text of
      a snapshot; it is represented by the snapshot that saveState
      stringifies, which identifies a number of an entry with what its text
      is read back as.  The identification is exact for every finite number
      other than -0, and the statements about the history are statements
      up to it. *)

From Stdlib Require Import ZArith QArith Lia List Sorting.Sorted Permutation.
From stdpp Require Import gmap strings list fin_maps pretty sorting.

Local Open Scope string_scope.
Local Open Scope list_scope.
Local Open Scope Z_scope.

(** ** Numbers and vectors *)

Record Vec3 (A : Type) : Type := vec3 { vx : A; vy : A; vz : A }.
Arguments vec3 {A} _ _ _.
Arguments vx {A} _.
Arguments vy {A} _.
Arguments vz {A} _.

Definition vmap2 {A} (f : A -> A -> A) (u v : Vec3 A) : Vec3 A :=
  vec3 (f (vx u) (vx v)) (f (vy u) (vy v)) (f (vz u) (vz v)).

Class Numeric : Type := {
  num : Type;
  of_int : Z -> num;
  nadd : num -> num -> num;
  nsub : num -> num -> num;
  nmul : num -> num -> num;
  ndiv : num -> num -> num;
  (* -Math.PI / 2 *)
  neg_half_pi : num;
  (* rotation of an Object3D at the first position after lookAt(second) *)
  lookAt : Vec3 num -> Vec3 num -> Vec3 num;
  (* JSON.parse (JSON.stringify x) for the content x of a transform or
     keyframe component: x itself for a finite number other than -0, 0 for
     -0, null for NaN and the infinities *)
  through_json : num -> num;
  (* parseInt (String k) for the integer k: the number read back from the
     property key under which k is stored.  String writes an integer below
     10^21 digit by digit, and in exponent notation from there on, where
     parseInt stops at the point or at the exponent mark *)
  parse_key : Z -> Z;
  parse_key_small : forall k : Z, Z.abs k < 10 ^ 21 -> parse_key k = k
}.

(* ids, counters and frame numbers are integers held in doubles: the sum of
   two of them is the nearest double to the exact sum, ties going to the even
   significand of 53 bits.  [double_round n] is that double for an integer [n]
   in the range of a double *)
Definition double_round (n : Z) : Z :=
  let a := Z.abs n in
  if a <=? 2 ^ 53 then n
  else
    let e := Z.log2 a - 52 in
    let q := a / 2 ^ e in
    let r := a mod 2 ^ e in
    let half := 2 ^ (e - 1) in
    let q' := if (half <? r) || ((r =? half) && Z.odd q) then q + 1 else q in
    Z.sgn n * (q' * 2 ^ e).

(** ** Scene data *)

Inductive kind : Type := Quad | Cube | Camera.

Definition kind_eqb (a b : kind) : bool :=
  match a, b with
  | Quad, Quad | Cube, Cube | Camera, Camera => true
  | _, _ => false
  end.

(* the strings stored in the [type] field *)
Definition type_name (k : kind) : string :=
  match k with Quad => "quad" | Cube => "cube" | Camera => "camera" end.

(* the chain [data.type === 'quad' ... else return] of createObjectFromData *)
Definition parse_type (t : string) : option kind :=
  if String.eqb t "quad" then Some Quad
  else if String.eqb t "cube" then Some Cube
  else if String.eqb t "camera" then Some Camera
  else None.

Definition ref : Type := nat.

(* theme.js: the members of defaultTheme the editor state depends on *)
Record Theme : Type := {
  undoLimit : nat;
  defaultDuration : Z;
  defaultGridPlane : string
}.

Definition defaultTheme : Theme :=
  {| undoLimit := 50; defaultDuration := 300; defaultGridPlane := "xz" |}.

Section Editor.

Context {N : Numeric}.
Variable theme : Theme.

Record Mesh : Type := {
  position : Vec3 num;
  rotation : Vec3 num;
  scale : Vec3 num
}.

(* new THREE.Mesh / new THREE.Group: identity transform *)
Definition newMesh : Mesh :=
  {| position := vec3 (of_int 0) (of_int 0) (of_int 0);
     rotation := vec3 (of_int 0) (of_int 0) (of_int 0);
     scale := vec3 (of_int 1) (of_int 1) (of_int 1) |}.

Record ObjData : Type := {
  id : Z;
  name : string;
  type : kind;
  mesh : Mesh
}.

(* the record produced by serializeObject; [r_trackTarget = None] is null *)
Record ObjRecord : Type := {
  r_id : Z;
  r_name : string;
  r_type : string;
  r_position : Vec3 num;
  r_rotation : Vec3 num;
  r_scale : Vec3 num;
  r_trackTarget : option Z
}.

Record Keyframe : Type := { frame : Z; value : Vec3 num }.

(* clips[id]: an object whose [position] and [rotation] members may be absent *)
Record Clip : Type := {
  clip_position : option (list Keyframe);
  clip_rotation : option (list Keyframe)
}.

Record Snapshot : Type := {
  snap_objects : list ObjRecord;
  snap_clips : gmap Z Clip
}.

(* an element of the [objects] array handed to restoreState.  [Broken] is an
   element on which the loop body throws: null, or a record of one of the
   three known types without its [position], [rotation] or [scale] *)
Inductive FileRecord : Type :=
| Broken
| Rec (data : ObjRecord).

(* the argument of restoreState: a snapshot, or a parsed file in which
   [objects] or [clips] may be missing *)
Record StateData : Type := {
  sd_objects : option (list FileRecord);
  sd_clips : option (gmap Z Clip)
}.

Definition data_of_snapshot (p : Snapshot) : StateData :=
  {| sd_objects := Some (map Rec (snap_objects p)); sd_clips := Some (snap_clips p) |}.

(** ** Editor state *)

Record State : Type := mkState {
  heap : gmap ref ObjData;
  nextRef : ref;
  objects : list ref;
  selectedObjects : list ref;
  clipboard : option (list ObjRecord);
  undoStack : list Snapshot;
  redoStack : list Snapshot;
  objectIdCounter : Z;
  currentGridPlane : string;
  visibleGrids : list string;
  sceneCameras : list ref;
  activeSceneCamera : option ref;
  currentFrame : Z;
  totalFrames : Z;
  isPlaying : bool;
  clips : gmap Z Clip;
  cameraTrackTargets : gmap Z Z;
  (* transformControls.object *)
  attached : option ref
}.

Definition set_heap (v : gmap ref ObjData) (s : State) : State :=
  mkState v (nextRef s) (objects s) (selectedObjects s) (clipboard s)
    (undoStack s) (redoStack s) (objectIdCounter s) (currentGridPlane s)
    (visibleGrids s) (sceneCameras s) (activeSceneCamera s) (currentFrame s)
    (totalFrames s) (isPlaying s) (clips s) (cameraTrackTargets s) (attached s).

Definition set_nextRef (v : ref) (s : State) : State :=
  mkState (heap s) v (objects s) (selectedObjects s) (clipboard s)
    (undoStack s) (redoStack s) (objectIdCounter s) (currentGridPlane s)
    (visibleGrids s) (sceneCameras s) (activeSceneCamera s) (currentFrame s)
    (totalFrames s) (isPlaying s) (clips s) (cameraTrackTargets s) (attached s).

Definition set_objects (v : list ref) (s : State) : State :=
  mkState (heap s) (nextRef s) v (selectedObjects s) (clipboard s)
    (undoStack s) (redoStack s) (objectIdCounter s) (currentGridPlane s)
    (visibleGrids s) (sceneCameras s) (activeSceneCamera s) (currentFrame s)
    (totalFrames s) (isPlaying s) (clips s) (cameraTrackTargets s) (attached s).

Definition set_selectedObjects (v : list ref) (s : State) : State :=
  mkState (heap s) (nextRef s) (objects s) v (clipboard s)
    (undoStack s) (redoStack s) (objectIdCounter s) (currentGridPlane s)
    (visibleGrids s) (sceneCameras s) (activeSceneCamera s) (currentFrame s)
    (totalFrames s) (isPlaying s) (clips s) (cameraTrackTargets s) (attached s).

Definition set_clipboard (v : option (list ObjRecord)) (s : State) : State :=
  mkState (heap s) (nextRef s) (objects s) (selectedObjects s) v
    (undoStack s) (redoStack s) (objectIdCounter s) (currentGridPlane s)
    (visibleGrids s) (sceneCameras s) (activeSceneCamera s) (currentFrame s)
    (totalFrames s) (isPlaying s) (clips s) (cameraTrackTargets s) (attached s).

Definition set_undoStack (v : list Snapshot) (s : State) : State :=
  mkState (heap s) (nextRef s) (objects s) (selectedObjects s) (clipboard s)
    v (redoStack s) (objectIdCounter s) (currentGridPlane s)
    (visibleGrids s) (sceneCameras s) (activeSceneCamera s) (currentFrame s)
    (totalFrames s) (isPlaying s) (clips s) (cameraTrackTargets s) (attached s).

Definition set_redoStack (v : list Snapshot) (s : State) : State :=
  mkState (heap s) (nextRef s) (objects s) (selectedObjects s) (clipboard s)
    (undoStack s) v (objectIdCounter s) (currentGridPlane s)
    (visibleGrids s) (sceneCameras s) (activeSceneCamera s) (currentFrame s)
    (totalFrames s) (isPlaying s) (clips s) (cameraTrackTargets s) (attached s).

Definition set_objectIdCounter (v : Z) (s : State) : State :=
  mkState (heap s) (nextRef s) (objects s) (selectedObjects s) (clipboard s)
    (undoStack s) (redoStack s) v (currentGridPlane s)
    (visibleGrids s) (sceneCameras s) (activeSceneCamera s) (currentFrame s)
    (totalFrames s) (isPlaying s) (clips s) (cameraTrackTargets s) (attached s).

Definition set_currentGridPlane (v : string) (s : State) : State :=
  mkState (heap s) (nextRef s) (objects s) (selectedObjects s) (clipboard s)
    (undoStack s) (redoStack s) (objectIdCounter s) v
    (visibleGrids s) (sceneCameras s) (activeSceneCamera s) (currentFrame s)
    (totalFrames s) (isPlaying s) (clips s) (cameraTrackTargets s) (attached s).

Definition set_visibleGrids (v : list string) (s : State) : State :=
  mkState (heap s) (nextRef s) (objects s) (selectedObjects s) (clipboard s)
    (undoStack s) (redoStack s) (objectIdCounter s) (currentGridPlane s)
    v (sceneCameras s) (activeSceneCamera s) (currentFrame s)
    (totalFrames s) (isPlaying s) (clips s) (cameraTrackTargets s) (attached s).

Definition set_sceneCameras (v : list ref) (s : State) : State :=
  mkState (heap s) (nextRef s) (objects s) (selectedObjects s) (clipboard s)
    (undoStack s) (redoStack s) (objectIdCounter s) (currentGridPlane s)
    (visibleGrids s) v (activeSceneCamera s) (currentFrame s)
    (totalFrames s) (isPlaying s) (clips s) (cameraTrackTargets s) (attached s).

Definition set_activeSceneCamera (v : option ref) (s : State) : State :=
  mkState (heap s) (nextRef s) (objects s) (selectedObjects s) (clipboard s)
    (undoStack s) (redoStack s) (objectIdCounter s) (currentGridPlane s)
    (visibleGrids s) (sceneCameras s) v (currentFrame s)
    (totalFrames s) (isPlaying s) (clips s) (cameraTrackTargets s) (attached s).

Definition set_currentFrame (v : Z) (s : State) : State :=
  mkState (heap s) (nextRef s) (objects s) (selectedObjects s) (clipboard s)
    (undoStack s) (redoStack s) (objectIdCounter s) (currentGridPlane s)
    (visibleGrids s) (sceneCameras s) (activeSceneCamera s) v
    (totalFrames s) (isPlaying s) (clips s) (cameraTrackTargets s) (attached s).

Definition set_totalFrames (v : Z) (s : State) : State :=
  mkState (heap s) (nextRef s) (objects s) (selectedObjects s) (clipboard s)
    (undoStack s) (redoStack s) (objectIdCounter s) (currentGridPlane s)
    (visibleGrids s) (sceneCameras s) (activeSceneCamera s) (currentFrame s)
    v (isPlaying s) (clips s) (cameraTrackTargets s) (attached s).

Definition set_isPlaying (v : bool) (s : State) : State :=
  mkState (heap s) (nextRef s) (objects s) (selectedObjects s) (clipboard s)
    (undoStack s) (redoStack s) (objectIdCounter s) (currentGridPlane s)
    (visibleGrids s) (sceneCameras s) (activeSceneCamera s) (currentFrame s)
    (totalFrames s) v (clips s) (cameraTrackTargets s) (attached s).

Definition set_clips (v : gmap Z Clip) (s : State) : State :=
  mkState (heap s) (nextRef s) (objects s) (selectedObjects s) (clipboard s)
    (undoStack s) (redoStack s) (objectIdCounter s) (currentGridPlane s)
    (visibleGrids s) (sceneCameras s) (activeSceneCamera s) (currentFrame s)
    (totalFrames s) (isPlaying s) v (cameraTrackTargets s) (attached s).

Definition set_cameraTrackTargets (v : gmap Z Z) (s : State) : State :=
  mkState (heap s) (nextRef s) (objects s) (selectedObjects s) (clipboard s)
    (undoStack s) (redoStack s) (objectIdCounter s) (currentGridPlane s)
    (visibleGrids s) (sceneCameras s) (activeSceneCamera s) (currentFrame s)
    (totalFrames s) (isPlaying s) (clips s) v (attached s).

Definition set_attached (v : option ref) (s : State) : State :=
  mkState (heap s) (nextRef s) (objects s) (selectedObjects s) (clipboard s)
    (undoStack s) (redoStack s) (objectIdCounter s) (currentGridPlane s)
    (visibleGrids s) (sceneCameras s) (activeSceneCamera s) (currentFrame s)
    (totalFrames s) (isPlaying s) (clips s) (cameraTrackTargets s) v.

(* the fields as the constructor leaves them, before init() *)
Definition constructed : State :=
  {| heap := ∅; nextRef := 0%nat; objects := []; selectedObjects := [];
     clipboard := None; undoStack := []; redoStack := [];
     objectIdCounter := 0; currentGridPlane := "xz"; visibleGrids := [];
     sceneCameras := []; activeSceneCamera := None; currentFrame := 0;
     totalFrames := defaultDuration theme; isPlaying := false;
     clips := ∅; cameraTrackTargets := ∅; attached := None |}.

(* [new]: allocate an object and return its reference *)
Definition alloc (o : ObjData) (s : State) : ref * State :=
  (nextRef s, set_nextRef (S (nextRef s)) (set_heap (<[nextRef s := o]> (heap s)) s)).

(* dereference every element of an array of object references *)
Definition deref (s : State) (l : list ref) : list ObjData :=
  omap (fun r => heap s !! r) l.

(* objects.map(o => o.id) *)
Definition live_ids (s : State) : list Z := map id (deref s (objects s)).

(** ** Selection (MULTI-SELECT) *)

Definition deselectAll (s : State) : State :=
  set_attached None (set_selectedObjects [] s).

Definition includes (l : list ref) (r : ref) : bool :=
  existsb (Nat.eqb r) l.

Definition addToSelection (r : ref) (s : State) : State :=
  if includes (selectedObjects s) r then s
  else
    let s1 := set_selectedObjects (selectedObjects s ++ [r]) s in
    if (length (selectedObjects s1) =? 1)%nat then set_attached (Some r) s1 else s1.

(* splice(indexOf(r), 1) *)
Fixpoint remove_first (r : ref) (l : list ref) : list ref :=
  match l with
  | [] => []
  | x :: l' => if Nat.eqb r x then l' else x :: remove_first r l'
  end.

Definition removeFromSelection (r : ref) (s : State) : State :=
  if includes (selectedObjects s) r then
    let s1 := set_selectedObjects (remove_first r (selectedObjects s)) s in
    set_attached (last (selectedObjects s1)) s1
  else s.

Definition selectObject (r : ref) (additive : bool) (s : State) : State :=
  let s1 := if additive then s else deselectAll s in
  if includes (selectedObjects s1) r && additive then removeFromSelection r s1
  else addToSelection r s1.

Definition selectAll (s : State) : State :=
  fold_left (fun s o => addToSelection o s) (objects s) (deselectAll s).

(** ** Undo / redo *)

(* cameraTrackTargets[o.id] || null *)
Definition or_null (t : option Z) : option Z :=
  match t with
  | Some v => if v =? 0 then None else Some v
  | None => None
  end.

Definition serializeObject (s : State) (o : ObjData) : ObjRecord :=
  {| r_id := id o;
     r_name := name o;
     r_type := type_name (type o);
     r_position := position (mesh o);
     r_rotation := rotation (mesh o);
     r_scale := scale (mesh o);
     r_trackTarget := or_null (cameraTrackTargets s !! id o) |}.

(* the value saveState stringifies *)
Definition snapshot (s : State) : Snapshot :=
  {| snap_objects := map (serializeObject s) (deref s (objects s));
     snap_clips := clips s |}.

Definition saveState (s : State) : State :=
  let pushed := undoStack s ++ [snapshot s] in
  let kept := if (undoLimit theme <? length pushed)%nat then tail pushed else pushed in
  set_redoStack [] (set_undoStack kept s).

Definition createObjectFromData (data : ObjRecord) (s : State) : State :=
  match parse_type (r_type data) with
  | None => s
  | Some k =>
      let m := {| position := r_position data;
                  rotation := r_rotation data;
                  scale := r_scale data |} in
      let objData := {| id := r_id data; name := r_name data; type := k; mesh := m |} in
      let '(r, s1) := alloc objData s in
      let s2 := set_objects (objects s1 ++ [r]) s1 in
      if kind_eqb k Camera then set_sceneCameras (sceneCameras s2 ++ [r]) s2 else s2
  end.

(* how a call ends: normally, or by an exception that leaves the state as
   it was when it was thrown *)
Inductive Completion : Type :=
| Normal (s : State)
| Thrown (s : State).

Definition final (c : Completion) : State :=
  match c with Normal s => s | Thrown s => s end.

(* Math.max(0, ...ids) *)
Definition max_id (ids : list Z) : Z := fold_right Z.max 0 ids.

Definition restore_object (s : State) (data : ObjRecord) : State :=
  let s1 := createObjectFromData data s in
  match or_null (r_trackTarget data) with
  | Some t => set_cameraTrackTargets (<[r_id data := t]> (cameraTrackTargets s1)) s1
  | None => s1
  end.

(* state.objects.forEach(...): the loop stops at the first element on which
   its body throws, with the objects restored so far in place *)
Fixpoint restore_objects (recs : list FileRecord) (s : State) : Completion :=
  match recs with
  | [] => Normal s
  | Broken :: _ => Thrown s
  | Rec data :: rest => restore_objects rest (restore_object s data)
  end.

Definition restoreState (state : StateData) (s : State) : Completion :=
  let s1 := deselectAll s in
  let s2 := set_cameraTrackTargets ∅ (set_sceneCameras [] (set_objects [] s1)) in
  match sd_objects state with
  | None => Thrown s2   (* state.objects.forEach: TypeError *)
  | Some recs =>
      match restore_objects recs s2 with
      | Thrown s3 => Thrown s3   (* clips and objectIdCounter are not reached *)
      | Normal s3 =>
          let s4 := set_clips (default ∅ (sd_clips state)) s3 in
          Normal (set_objectIdCounter (max_id (live_ids s4)) s4)
      end
  end.

Definition undo (s : State) : State :=
  if (length (undoStack s) <=? 1)%nat then s
  else
    match last (undoStack s) with
    | None => s
    | Some current =>
        let s1 := set_undoStack (removelast (undoStack s)) s in
        let s2 := set_redoStack (redoStack s1 ++ [current]) s1 in
        match last (undoStack s2) with
        | None => s2
        | Some prev => final (restoreState (data_of_snapshot prev) s2)
        end
    end.

Definition redo (s : State) : State :=
  match last (redoStack s) with
  | None => s
  | Some state =>
      let s1 := set_redoStack (removelast (redoStack s)) s in
      let s2 := set_undoStack (undoStack s1 ++ [state]) s1 in
      final (restoreState (data_of_snapshot state) s2)
  end.

(** ** Objects *)

Definition set_name (v : string) (o : ObjData) : ObjData :=
  {| id := id o; name := v; type := type o; mesh := mesh o |}.

Definition set_mesh (v : Mesh) (o : ObjData) : ObjData :=
  {| id := id o; name := name o; type := type o; mesh := v |}.

Definition set_position (v : Vec3 num) (m : Mesh) : Mesh :=
  {| position := v; rotation := rotation m; scale := scale m |}.

Definition set_rotation (v : Vec3 num) (m : Mesh) : Mesh :=
  {| position := position m; rotation := v; scale := scale m |}.

Definition set_scale (v : Vec3 num) (m : Mesh) : Mesh :=
  {| position := position m; rotation := rotation m; scale := v |}.

(* a write through a reference *)
Definition update_obj (r : ref) (f : ObjData -> ObjData) (s : State) : State :=
  set_heap (alter f r (heap s)) s.

Definition has_id (s : State) (i : Z) (r : ref) : bool :=
  match heap s !! r with
  | Some o => id o =? i
  | None => false
  end.

(* l.find(o => o.id === i) *)
Definition find_by_id (s : State) (l : list ref) (i : Z) : option ref :=
  List.find (has_id s i) l.

Definition half : num := ndiv (of_int 1) (of_int 2).

(* the part shared by addQuad, addCube and addCamera: a fresh objData is
   pushed and selected, then the state is saved *)
Definition addObject (k : kind) (prefix : string) (m : Mesh) (s : State) : State :=
  let c := double_round (objectIdCounter s + 1) in   (* ++this.objectIdCounter *)
  let s1 := set_objectIdCounter c s in
  let objData := {| id := c; name := prefix +:+ pretty c; type := k; mesh := m |} in
  let '(r, s2) := alloc objData s1 in
  let s3 := set_objects (objects s2 ++ [r]) s2 in
  let s4 := if kind_eqb k Camera then set_sceneCameras (sceneCameras s3 ++ [r]) s3 else s3 in
  saveState (selectObject r false s4).

Definition addQuad (s : State) : State :=
  addObject Quad "Quad_"
    (set_rotation (vec3 neg_half_pi (of_int 0) (of_int 0)) newMesh) s.

Definition addCube (s : State) : State :=
  addObject Cube "Cube_"
    (set_position (vec3 (of_int 0) half (of_int 0)) newMesh) s.

Definition addCamera (s : State) : State :=
  let p := vec3 (of_int 2) (of_int 2) (of_int 2) in
  addObject Camera "Camera_"
    (set_rotation (lookAt p (vec3 (of_int 0) (of_int 0) (of_int 0)))
       (set_position p newMesh)) s.

(** ** Copy / paste *)

Definition copy (s : State) : State :=
  match selectedObjects s with
  | [] => s
  | _ => set_clipboard (Some (map (serializeObject s) (deref s (selectedObjects s)))) s
  end.

(* the tail of the loop bodies of paste and duplicateSelected *)
Definition create_and_select (newData : ObjRecord) (s : State) : State :=
  let s1 := createObjectFromData newData s in
  match find_by_id s1 (objects s1) (r_id newData) with
  | Some newObj => addToSelection newObj s1
  | None => s1
  end.

Definition paste_one (s : State) (data : ObjRecord) : State :=
  let c := double_round (objectIdCounter s + 1) in
  let s1 := set_objectIdCounter c s in
  let p := r_position data in
  let newData :=
    {| r_id := c;
       r_name := r_name data +:+ "_paste";
       r_type := r_type data;
       r_position := vec3 (nadd (vx p) half) (vy p) (nadd (vz p) half);
       r_rotation := r_rotation data;
       r_scale := r_scale data;
       r_trackTarget := r_trackTarget data |} in
  create_and_select newData s1.

Definition paste (s : State) : State :=
  match clipboard s with
  | None => s
  | Some cb => saveState (fold_left paste_one cb (deselectAll s))
  end.

Definition duplicate_one (s : State) (orig : ObjData) : State :=
  let data := serializeObject s orig in
  let c := double_round (objectIdCounter s + 1) in
  let s1 := set_objectIdCounter c s in
  let p := r_position data in
  let newData :=
    {| r_id := c;
       r_name := name orig +:+ "_copy";
       r_type := r_type data;
       r_position := vec3 (nadd (vx p) (of_int 1)) (vy p) (vz p);
       r_rotation := r_rotation data;
       r_scale := r_scale data;
       r_trackTarget := r_trackTarget data |} in
  create_and_select newData s1.

(* the loop reads each original through its reference when its turn comes *)
Definition duplicate_ref (s : State) (r : ref) : State :=
  match heap s !! r with
  | Some orig => duplicate_one s orig
  | None => s
  end.

Definition duplicateSelected (s : State) : State :=
  match selectedObjects s with
  | [] => s
  | toDuplicate => saveState (fold_left duplicate_ref toDuplicate (deselectAll s))
  end.

Definition delete_one (s : State) (obj : ref) : State :=
  let keep := fun o : ref => negb (Nat.eqb o obj) in
  let s1 := set_objects (List.filter keep (objects s)) s in
  let s2 := set_sceneCameras (List.filter keep (sceneCameras s1)) s1 in
  match heap s2 !! obj with
  | Some o => set_clips (delete (id o) (clips s2)) s2
  | None => s2
  end.

Definition deleteSelected (s : State) : State :=
  match selectedObjects s with
  | [] => s
  | sel => saveState (deselectAll (fold_left delete_one sel s))
  end.

Definition renameObject (r : ref) (newName : string) (s : State) : State :=
  saveState (update_obj r (set_name newName) s).

(** ** Grid *)

(* [grids] is a plain object with the members xz, xy and yz: under these
   names [this.grids[plane]] also finds what every object inherits from
   Object.prototype *)
Definition object_prototype_names : list string :=
  ["constructor"; "hasOwnProperty"; "isPrototypeOf"; "propertyIsEnumerable";
   "toLocaleString"; "toString"; "valueOf"; "__proto__";
   "__defineGetter__"; "__defineSetter__"; "__lookupGetter__"; "__lookupSetter__"].

Definition inherited_name (plane : string) : bool :=
  existsb (String.eqb plane) object_prototype_names.

(* [visibleGrids]: the grids whose [visible] flag is set.  An inherited
   member passes the test and gets the flag, which shows no grid *)
Definition setGridPlane (plane : string) (s : State) : State :=
  let s1 := set_visibleGrids [] s in
  if String.eqb plane "xz" || String.eqb plane "xy" || String.eqb plane "yz"
  then set_currentGridPlane plane (set_visibleGrids [plane] s1)
  else if inherited_name plane then set_currentGridPlane plane s1
  else s1.

(** ** Timeline / animation *)

(* Array.prototype.sort((a, b) => a.frame - b.frame): a stable sort *)
Fixpoint insert_kf (k : Keyframe) (l : list Keyframe) : list Keyframe :=
  match l with
  | [] => [k]
  | x :: l' => if frame k <=? frame x then k :: l else x :: insert_kf k l'
  end.

Definition sort_by_frame (l : list Keyframe) : list Keyframe :=
  fold_right insert_kf [] l.

(* filter(k => k.frame !== f), push, sort *)
Definition put_keyframe (f : Z) (v : Vec3 num) (track : list Keyframe) : list Keyframe :=
  sort_by_frame (List.filter (fun k => negb (frame k =? f)) track ++ [{| frame := f; value := v |}]).

Definition keyframe_one (s : State) (obj : ref) : State :=
  match heap s !! obj with
  | None => s
  | Some o =>
      if kind_eqb (type o) Camera then
        let clip := default {| clip_position := None; clip_rotation := None |} (clips s !! id o) in
        let pos := default [] (clip_position clip) in
        let rot := default [] (clip_rotation clip) in
        let clip' :=
          {| clip_position := Some (put_keyframe (currentFrame s) (position (mesh o)) pos);
             clip_rotation := Some (put_keyframe (currentFrame s) (rotation (mesh o)) rot) |} in
        set_clips (<[id o := clip']> (clips s)) s
      else s
  end.

Definition addKeyframe (s : State) : State :=
  saveState (fold_left keyframe_one (selectedObjects s) s).

Definition togglePlay (s : State) : State :=
  set_isPlaying (negb (isPlaying s)) s.

(* the for loop of interpolateKeyframes: the first adjacent pair around
   [f], or the initial choice when the loop ends without a break *)
Fixpoint bracket (l : list Keyframe) (f : Z) (initial : Keyframe * Keyframe)
  : Keyframe * Keyframe :=
  match l with
  | a :: (b :: _) as l' =>
      if (frame a <=? f) && (f <=? frame b) then (a, b) else bracket l' f initial
  | _ => initial
  end.

Definition interpolateKeyframes (keyframes : list Keyframe) (f : Z) : Vec3 num :=
  match keyframes with
  | [] => vec3 (of_int 0) (of_int 0) (of_int 0)
  | [k] => value k
  | k0 :: _ =>
      let '(before, after) := bracket keyframes f (k0, List.last keyframes k0) in
      if f <=? frame before then value before
      else if frame after <=? f then value after
      else
        let t := ndiv (of_int (f - frame before)) (of_int (frame after - frame before)) in
        vmap2 (fun v a => nadd v (nmul (nsub a v) t)) (value before) (value after)
  end.

(* camClips.track?.length > 0 *)
Definition nonempty_track (t : option (list Keyframe)) : option (list Keyframe) :=
  match t with
  | Some (k :: l) => Some (k :: l)
  | _ => None
  end.

Definition apply_camera (s : State) (cam : ref) : State :=
  match heap s !! cam with
  | None => s
  | Some o =>
      match clips s !! id o with
      | None => s
      | Some camClips =>
          let s1 :=
            match nonempty_track (clip_position camClips) with
            | Some track =>
                update_obj cam (fun o => set_mesh (set_position
                  (interpolateKeyframes track (currentFrame s)) (mesh o)) o) s
            | None => s
            end in
          match nonempty_track (clip_rotation camClips) with
          | Some track =>
              update_obj cam (fun o => set_mesh (set_rotation
                (interpolateKeyframes track (currentFrame s)) (mesh o)) o) s1
          | None => s1
          end
      end
  end.

Definition applyFrame (s : State) : State :=
  fold_left apply_camera (sceneCameras s) s.

Definition stopPlayback (s : State) : State :=
  applyFrame (set_currentFrame 0 (set_isPlaying false s)).

(* timeline click, arrow keys, Home and End all end in this *)
Definition seek (f : Z) (s : State) : State :=
  applyFrame (set_currentFrame f s).

Definition stepFrame (delta : Z) (s : State) : State :=
  if delta <? 0 then seek (Z.max 0 (double_round (currentFrame s + delta))) s
  else seek (Z.min (totalFrames s) (double_round (currentFrame s + delta))) s.

(* the position keyframes of every scene camera, in visiting order *)
Definition camera_position_keys (s : State) : list Keyframe :=
  flat_map (fun o => match clips s !! id o with
                     | Some c => default [] (clip_position c)
                     | None => []
                     end) (deref s (sceneCameras s)).

Definition prevKeyframe (s : State) : State :=
  let prevFrame :=
    fold_left (fun p kf => if (frame kf <? currentFrame s) && (p <? frame kf)
                           then frame kf else p) (camera_position_keys s) 0 in
  seek prevFrame s.

Definition nextKeyframe (s : State) : State :=
  let nextFrame :=
    fold_left (fun n kf => if (currentFrame s <? frame kf) && (frame kf <? n)
                           then frame kf else n) (camera_position_keys s) (totalFrames s) in
  seek nextFrame s.

(** ** Camera tracking *)

Definition setCameraTrackTarget (cameraId : Z) (targetId : option Z) (s : State) : State :=
  match or_null targetId with
  | Some t => saveState (set_cameraTrackTargets (<[cameraId := t]> (cameraTrackTargets s)) s)
  | None => saveState (set_cameraTrackTargets (delete cameraId (cameraTrackTargets s)) s)
  end.

(* one entry [camId, targetId] as the loop body reads it, [camId] being the
   number parsed from the property key: the pair of live objects the entry
   designates, when both exist *)
Definition tracked_pair (s : State) (entry : Z * Z) : option (ref * ObjData) :=
  match find_by_id s (objects s) entry.1, find_by_id s (objects s) entry.2 with
  | Some cam, Some target =>
      match heap s !! target with
      | Some t => Some (cam, t)
      | None => None
      end
  | _, _ => None
  end.

Definition track_one (s : State) (entry : Z * Z) : State :=
  match tracked_pair s entry with
  | Some (cam, t) =>
      update_obj cam (fun o => set_mesh (set_rotation
        (lookAt (position (mesh o)) (position (mesh t))) (mesh o)) o) s
  | None => s
  end.

(* Object.entries gives the key of a binding as a string:
   [parseInt(camId)] reads the camera id back from it *)
Definition read_entry (kv : Z * Z) : Z * Z := (parse_key kv.1, kv.2).

Definition updateCameraTracking (s : State) : State :=
  fold_left track_one (map read_entry (map_to_list (cameraTrackTargets s))) s.

(* one scheduling tick of animate(), rendering left out *)
Definition animate (s : State) : State :=
  let s1 :=
    if isPlaying s then
      let f := double_round (currentFrame s + 1) in   (* this.currentFrame++ *)
      applyFrame (set_currentFrame (if totalFrames s <=? f then 0 else f) s)
    else s in
  updateCameraTracking s1.

(** ** Transform editing *)

Inductive prop : Type := Position | Rotation | Scale.
Inductive axis : Type := X | Y | Z_.

Definition set_axis (a : axis) (val : num) (v : Vec3 num) : Vec3 num :=
  match a with
  | X => vec3 val (vy v) (vz v)
  | Y => vec3 (vx v) val (vz v)
  | Z_ => vec3 (vx v) (vy v) val
  end.

(* o.mesh[prop][axis] = val *)
Definition set_field (p : prop) (a : axis) (val : num) (o : ObjData) : ObjData :=
  match p with
  | Position => set_mesh (set_position (set_axis a val (position (mesh o))) (mesh o)) o
  | Rotation => set_mesh (set_rotation (set_axis a val (rotation (mesh o))) (mesh o)) o
  | Scale => set_mesh (set_scale (set_axis a val (scale (mesh o))) (mesh o)) o
  end.

(* a change event of the transform panel; [val] is the parsed (and, for a
   rotation, converted) number *)
Definition editTransform (p : prop) (a : axis) (val : num) (s : State) : State :=
  saveState (fold_left (fun s o => update_obj o (set_field p a val) s) (selectedObjects s) s).

(* the gizmo moves the attached mesh while dragging; releasing it saves *)
Definition dragGizmo (m : Mesh) (s : State) : State :=
  match attached s with
  | Some r => update_obj r (set_mesh m) s
  | None => s
  end.

Definition releaseGizmo (s : State) : State := saveState s.

(** ** Save / load *)

(* the value a file parses to, when it is not null: any member may be
   missing (all are, when the value is no object); [f_objects] is the array
   under [objects], missing when there is none *)
Record SceneFile : Type := {
  f_gridPlane : option string;
  f_totalFrames : option Z;
  f_objects : option (list FileRecord);
  f_clips : option (gmap Z Clip)
}.

Definition data_of_file (d : SceneFile) : StateData :=
  {| sd_objects := f_objects d; sd_clips := f_clips d |}.

(* the numbers of a file are those its text is read back as *)
Definition json_vec (v : Vec3 num) : Vec3 num :=
  vec3 (through_json (vx v)) (through_json (vy v)) (through_json (vz v)).

Definition json_record (d : ObjRecord) : ObjRecord :=
  {| r_id := r_id d;
     r_name := r_name d;
     r_type := r_type d;
     r_position := json_vec (r_position d);
     r_rotation := json_vec (r_rotation d);
     r_scale := json_vec (r_scale d);
     r_trackTarget := r_trackTarget d |}.

Definition json_keyframe (k : Keyframe) : Keyframe :=
  {| frame := frame k; value := json_vec (value k) |}.

Definition json_clip (c : Clip) : Clip :=
  {| clip_position := map json_keyframe <$> clip_position c;
     clip_rotation := map json_keyframe <$> clip_rotation c |}.

(* the file save() writes, as JSON.parse reads it back *)
Definition save (s : State) : SceneFile :=
  {| f_gridPlane := Some (currentGridPlane s);
     f_totalFrames := Some (totalFrames s);
     f_objects := Some (map Rec (map json_record (snap_objects (snapshot s))));
     f_clips := Some (json_clip <$> clips s) |}.

(* the body of reader.onload; [None] is a text that gives no value to read
   members from: JSON.parse throws on it, or returns null and
   [data.gridPlane] throws.  The catch clause only logs, so the state is the
   one reached when the exception was thrown. *)
Definition load (parsed : option SceneFile) (s : State) : State :=
  match parsed with
  | None => s
  | Some data =>
      let s1 :=
        match f_gridPlane data with
        | Some g => if String.eqb g "" then s else setGridPlane g s
        | None => s
        end in
      let s2 :=
        match f_totalFrames data with
        | Some t => if t =? 0 then s1 else set_totalFrames t s1
        | None => s1
        end in
      final (restoreState (data_of_file data) s2)
  end.

(* init(): the grid plane of the theme, the initial quad, one more save *)
Definition init : State :=
  saveState (addQuad (setGridPlane (defaultGridPlane theme) constructed)).

(** ** The input surface *)

Inductive command : Type :=
| AddQuad | AddCube | AddCamera
| Copy | Paste | Duplicate | Delete
| Undo | Redo
| Select (r : ref) (additive : bool) | SelectAll | DeselectAll
| Rename (r : ref) (newName : string)
| EditTransform (p : prop) (a : axis) (val : num)
| DragGizmo (m : Mesh) | ReleaseGizmo
| SetGridPlane (plane : string)
| AddKeyframe | TogglePlay | StopPlayback
| Seek (f : Z) | StepFrame (delta : Z) | PrevKeyframe | NextKeyframe
| SetTrackTarget (cameraId : Z) (targetId : option Z)
| Tick
| Load (parsed : option SceneFile).

Definition step (s : State) (c : command) : State :=
  match c with
  | AddQuad => addQuad s
  | AddCube => addCube s
  | AddCamera => addCamera s
  | Copy => copy s
  | Paste => paste s
  | Duplicate => duplicateSelected s
  | Delete => deleteSelected s
  | Undo => undo s
  | Redo => redo s
  | Select r additive => selectObject r additive s
  | SelectAll => selectAll s
  | DeselectAll => deselectAll s
  | Rename r newName => renameObject r newName s
  | EditTransform p a val => editTransform p a val s
  | DragGizmo m => dragGizmo m s
  | ReleaseGizmo => releaseGizmo s
  | SetGridPlane plane => setGridPlane plane s
  | AddKeyframe => addKeyframe s
  | TogglePlay => togglePlay s
  | StopPlayback => stopPlayback s
  | Seek f => seek f s
  | StepFrame delta => stepFrame delta s
  | PrevKeyframe => prevKeyframe s
  | NextKeyframe => nextKeyframe s
  | SetTrackTarget cameraId targetId => setCameraTrackTarget cameraId targetId s
  | Tick => animate s
  | Load parsed => load parsed s
  end.

Definition run (cs : list command) (s : State) : State := fold_left step cs s.

End Editor.

Arguments Mesh {N}.
Arguments ObjData {N}.
Arguments ObjRecord {N}.
Arguments Keyframe {N}.
Arguments Clip {N}.
Arguments Snapshot {N}.
Arguments FileRecord {N}.
Arguments StateData {N}.
Arguments State {N}.
Arguments SceneFile {N}.
Arguments Completion {N}.
Arguments command {N}.

Arguments restoreState : simpl never.
Arguments saveState : simpl never.
Arguments createObjectFromData : simpl never.
Arguments restore_object : simpl never.
Arguments deselectAll : simpl never.
Arguments addToSelection : simpl never.
Arguments removeFromSelection : simpl never.
Arguments selectObject : simpl never.
Arguments interpolateKeyframes : simpl never.
Arguments applyFrame : simpl never.
Arguments updateCameraTracking : simpl never.
Arguments undo : simpl never.
Arguments redo : simpl never.

(** ** Rational numbers as an instance

    Exact arithmetic on [Q] stands for the float arithmetic wherever a
    value is computed.  [-Math.PI / 2] and [lookAt] have no rational
    counterpart: the instance gives them placeholder values, which only
    fill the rotation of the objects of the example sessions.  A rational
    is neither NaN nor infinite nor -0, so JSON reads it back as it is; the
    ids of the example sessions are far below 10^21, where [parse_key] is
    the identity, and the instance extends it by the identity beyond that
    bound, as a placeholder. *)

Definition QNumeric : Numeric :=
  {| num := Q;
     of_int := inject_Z;
     nadd := Qplus;
     nsub := Qminus;
     nmul := Qmult;
     ndiv := Qdiv;
     neg_half_pi := (-(11 # 7))%Q;
     lookAt := fun _ target => target;
     through_json := fun x => x;
     parse_key := fun k => k;
     parse_key_small := fun k _ => eq_refl |}.

(* equality of rational vectors, component by component *)
Definition veq (u v : Vec3 Q) : Prop :=
  (vx u == vx v)%Q /\ (vy u == vy v)%Q /\ (vz u == vz v)%Q.

Definition kf (f : Z) (x y z : Q) : Keyframe (N := QNumeric) :=
  @Build_Keyframe QNumeric f (vec3 x y z).

(* keyframes at frames 0 and 10 *)
Definition track_0_10 : list (Keyframe (N := QNumeric)) :=
  [kf 0 0 0 0; kf 10 10 0 0].

(* a sorted track with two keyframes at its last frame *)
Definition track_dup : list (Keyframe (N := QNumeric)) :=
  [kf 0 0 0 0; kf 10 10 0 0; kf 10 20 0 0].

(** ** Example sessions *)

Definition s_init : State (N := QNumeric) := init defaultTheme.

(* a quad is selected, nothing else lives, one entry waits on the redo stack *)
Definition s_quad_selected : State (N := QNumeric) :=
  run defaultTheme [AddCube; Undo; Select 2%nat false] s_init.

(* a file whose text parses but has no member [objects] *)
Definition file_without_objects : SceneFile (N := QNumeric) :=
  @Build_SceneFile QNumeric (Some "xy") (Some 120) None None.

(* camera 2 tracks quad 1, and the quad is selected *)
Definition s_tracking : State (N := QNumeric) :=
  run defaultTheme [AddCamera; SetTrackTarget 2 (Some 1); Select 0%nat false] s_init.

(* the initial quad dragged to a new place, not yet committed *)
Definition s_moved : State (N := QNumeric) :=
  run defaultTheme
    [DragGizmo (@Build_Mesh QNumeric (vec3 3 0 4) (vec3 0 0 0) (vec3 1 1 1))%Q] s_init.

(* a selected camera, the playhead at frame 5 *)
Definition s_cam : State (N := QNumeric) :=
  run defaultTheme [AddCamera; Seek 5] s_init.

Definition camera_2 : ObjData (N := QNumeric) :=
  @Build_ObjData QNumeric 2 "Camera_2" Camera
    (@Build_Mesh QNumeric (vec3 2 2 2) (vec3 0 0 0) (vec3 1 1 1))%Q.

Definition quad_1 : ObjData (N := QNumeric) :=
  @Build_ObjData QNumeric 1 "Quad_1" Quad
    (@Build_Mesh QNumeric (vec3 0 0 0) (vec3 (-(11 # 7)) 0 0) (vec3 1 1 1))%Q.

(** * Vocabulary of the statements *)

Section Vocabulary.

Context {N : Numeric}.
Variable theme : Theme.

(* what createObjectFromData builds from a record of kind [k] *)
Definition object_of_record (k : kind) (data : ObjRecord) : ObjData :=
  {| id := r_id data; name := r_name data; type := k;
     mesh := {| position := r_position data; rotation := r_rotation data;
                scale := r_scale data |} |}.

(* the stack saveState leaves: push, then drop the oldest when over the cap *)
Definition push_capped (limit : nat) (stack : list Snapshot) (p : Snapshot) : list Snapshot :=
  if (limit <? length (stack ++ [p]))%nat then tail (stack ++ [p]) else stack ++ [p].

(* [edits] are performed in turn, each followed by a commit *)
Definition commit_each (edits : list (State -> State)) (s : State) : State :=
  fold_left (fun s e => saveState theme (e s)) edits s.

(* the snapshots those commits take *)
Fixpoint committed (edits : list (State -> State)) (s : State) : list Snapshot :=
  match edits with
  | [] => []
  | e :: edits' => snapshot (e s) :: committed edits' (saveState theme (e s))
  end.

Definition keeps_history (e : State -> State) : Prop :=
  forall s, undoStack (e s) = undoStack s.

(* the two history stacks *)
Definition hist (s : State) : list Snapshot * list Snapshot :=
  (undoStack s, redoStack s).

Definition history_bounded (s : State) : Prop :=
  (length (undoStack s) + length (redoStack s) <= undoLimit theme)%nat.

(* what the id discipline rests on: the registry array, the allocation
   pointer, the id counter and the id of every stored object *)
Definition registry (s : State) : list ref * ref * Z * gmap ref Z :=
  (objects s, nextRef s, objectIdCounter s, id <$> heap s).

(* [s'] differs from [s] neither in the registry nor in the history *)
Definition quiet (s s' : State) : Prop :=
  registry s' = registry s /\ hist s' = hist s.

(* tracks: sorted by frame, and sorted with one keyframe per frame *)
Definition ascending (l : list Keyframe) : Prop :=
  StronglySorted (fun a b => frame a <= frame b) l.

Definition strictly_ascending (l : list Keyframe) : Prop :=
  StronglySorted (fun a b => frame a < frame b) l.

(* before + (after - before) * (f - before.frame) / (after.frame - before.frame),
   component by component *)
Definition lerp (before after : Keyframe) (f : Z) : Vec3 num :=
  let t := ndiv (of_int (f - frame before)) (of_int (frame after - frame before)) in
  vec3 (nadd (vx (value before)) (nmul (nsub (vx (value after)) (vx (value before))) t))
       (nadd (vy (value before)) (nmul (nsub (vy (value after)) (vy (value before))) t))
       (nadd (vz (value before)) (nmul (nsub (vz (value after)) (vz (value before))) t)).

Definition is_camera (o : ObjData) : bool := kind_eqb (type o) Camera.

(* the selected objects of kind camera, in selection order *)
Definition selected_cameras (s : State) : list ObjData :=
  List.filter is_camera (deref s (selectedObjects s)).

(* a track of a clip that may be missing, as an array *)
Definition position_track (c : option Clip) : list Keyframe :=
  match c with Some c => default [] (clip_position c) | None => [] end.

Definition rotation_track (c : option Clip) : list Keyframe :=
  match c with Some c => default [] (clip_rotation c) | None => [] end.

(* the keyframes of a track at frame [f] *)
Definition at_frame (f : Z) (track : list Keyframe) : list Keyframe :=
  List.filter (fun k => frame k =? f) track.

(* the clip of camera [o] once its keyframes at frame [f] are recorded *)
Definition keyed_clip (f : Z) (o : ObjData) (old : option Clip) : Clip :=
  {| clip_position := Some (put_keyframe f (position (mesh o)) (position_track old));
     clip_rotation := Some (put_keyframe f (rotation (mesh o)) (rotation_track old)) |}.

(* the loop body of addKeyframe on the clips alone *)
Definition key_clips (f : Z) (obj : option ObjData) (c : gmap Z Clip) : gmap Z Clip :=
  match obj with
  | Some o => if is_camera o then <[id o := keyed_clip f o (c !! id o)]> c else c
  | None => c
  end.

(* a snapshot that saveState took of some state *)
Definition taken (p : Snapshot) : Prop := exists s0 : State, p = snapshot s0.

(* the objects createObjectFromData builds from the records it accepts *)
Definition known_objects (recs : list ObjRecord) : list ObjData :=
  omap (fun data => (fun k => object_of_record k data) <$> parse_type (r_type data)) recs.

(* the track-target map the loop of restoreState builds *)
Definition restore_targets (recs : list ObjRecord) (m : gmap Z Z) : gmap Z Z :=
  fold_left (fun m data =>
               match or_null (r_trackTarget data) with
               | Some t => <[r_id data := t]> m
               | None => m
               end) recs m.

(* every reference of the live array was handed out by [alloc] *)
Definition allocated (s : State) : Prop :=
  Forall (fun r => (r < nextRef s)%nat) (objects s).

(* every entry of the two history stacks has property [P] *)
Definition entries (P : Snapshot -> Prop) (s : State) : Prop :=
  Forall P (undoStack s ++ redoStack s).

(* every entry of the two history stacks was pushed by saveState *)
Definition stacks_taken (s : State) : Prop := entries taken s.

(* the ids of the objects behind an array of references *)
Definition ids_of (s : State) (l : list ref) : list Z := map id (deref s l).

(* no live id exceeds the counter *)
Definition ids_bounded (s : State) : Prop :=
  Forall (fun i => i <= objectIdCounter s) (live_ids s).

(* the ids of the objects that [s'] has pushed onto the live array of [s] *)
Definition created (s s' : State) : list Z :=
  ids_of s' (drop (length (objects s)) (objects s')).

(* [e] comes from [s] by pushing objects with increasing ids above the
   counter of [s]; nothing that [s] had allocated changes its id *)
Definition appends (s e : State) : Prop :=
  hist e = hist s /\
  allocated e /\
  (nextRef s <= nextRef e)%nat /\
  objectIdCounter s <= objectIdCounter e /\
  (forall r, (r < nextRef s)%nat -> id <$> (heap e !! r) = id <$> (heap s !! r)) /\
  exists newrefs,
    objects e = objects s ++ newrefs /\
    StronglySorted Z.lt (ids_of e newrefs) /\
    Forall (fun i => objectIdCounter s < i <= objectIdCounter e) (ids_of e newrefs).

(* [e] comes from [s] by filtering the live array *)
Definition shrinks (s e : State) : Prop :=
  hist e = hist s /\
  nextRef e = nextRef s /\
  objectIdCounter e = objectIdCounter s /\
  heap e = heap s /\
  exists keep : ref -> bool, objects e = List.filter keep (objects s).

Definition registry_ok (s : State) : Prop :=
  allocated s /\ ids_bounded s.

Definition distinct_ids (p : Snapshot) : Prop :=
  NoDup (map id (known_objects (snap_objects p))).

(* live ids are pairwise distinct, now and in every state of the history *)
Definition ids_distinct (s : State) : Prop :=
  NoDup (live_ids s) /\ entries distinct_ids s.

(* the operations that create objects *)
Definition creates (c : command) : bool :=
  match c with
  | AddQuad | AddCube | AddCamera | Paste | Duplicate => true
  | _ => false
  end.

(* the ids assigned along a session, in the order of assignment *)
Fixpoint assigned_ids (cs : list command) (s : State) : list Z :=
  match cs with
  | [] => []
  | c :: cs' =>
      (if creates c then created s (step theme s c) else [])
        ++ assigned_ids cs' (step theme s c)
  end.

(* the records the loop of restoreState reaches: those before the first
   element on which it throws *)
Fixpoint readable (recs : list FileRecord) : list ObjRecord :=
  match recs with
  | Rec data :: rest => data :: readable rest
  | _ => []
  end.

(* the loop throws on no element of the array *)
Definition intact (recs : list FileRecord) : Prop := recs = map Rec (readable recs).

(* a load that does not stop in the middle of the [objects] array *)
Definition sound_load (c : command) : Prop :=
  match c with
  | Load (Some data) =>
      match f_objects data with
      | Some recs => intact recs
      | None => True
      end
  | _ => True
  end.

(* a load that reads its whole [objects] array and whose file gives
   distinct ids to the objects it describes *)
Definition clean_load (c : command) : Prop :=
  match c with
  | Load (Some data) =>
      match f_objects data with
      | Some recs => intact recs /\ NoDup (map id (known_objects (readable recs)))
      | None => True
      end
  | _ => True
  end.

(* the number of ids a command asks of the counter *)
Definition room (s : State) (c : command) : Z :=
  match c with
  | AddQuad | AddCube | AddCamera => 1
  | Paste => match clipboard s with Some cb => Z.of_nat (length cb) | None => 0 end
  | Duplicate => Z.of_nat (length (selectedObjects s))
  | _ => 0
  end.

(* the ids a command assigns are integers that a double holds exactly: up
   to 2^53 every increment of the counter is exact *)
Definition has_room (s : State) (c : command) : Prop :=
  0 < room s c -> Z.abs (objectIdCounter s) + room s c <= 2 ^ 53.

(* every command of a session finds the ids it asks for *)
Fixpoint roomy (cs : list command) (s : State) : Prop :=
  match cs with
  | [] => True
  | c :: cs' => has_room s c /\ roomy cs' (step theme s c)
  end.

End Vocabulary.


(** ** More vocabulary: what a write through a reference may change *)

Section WriteVocabulary.

Context {N : Numeric}.
Variable theme : Theme.

(* [o'] is [o] up to its position and rotation *)
Definition same_but_pose (o o' : ObjData) : Prop :=
  id o' = id o /\ name o' = name o /\ type o' = type o /\
  scale (mesh o') = scale (mesh o).

(* [o'] is [o] up to its rotation *)
Definition same_but_rotation (o o' : ObjData) : Prop :=
  same_but_pose o o' /\ position (mesh o') = position (mesh o).

(* [o'] is [o] up to its name and its mesh *)
Definition same_identity (o o' : ObjData) : Prop :=
  id o' = id o /\ type o' = type o.

(* [e] is [s] with some stored objects rewritten, each within [R]; no
   object appears or disappears and no other field changes *)
Definition writes (R : ObjData -> ObjData -> Prop) (s e : State) : Prop :=
  e = set_heap (heap e) s /\
  forall r, option_Forall2 R (heap s !! r) (heap e !! r).

(* the playhead is on the timeline *)
Definition in_range (s : State) : Prop := 0 <= currentFrame s <= totalFrames s.

(* the position and the rotation applyFrame gives an object, read off its clip *)
Definition framed_position (s : State) (o : ObjData) : Vec3 num :=
  match clips s !! id o with
  | Some c =>
      match nonempty_track (clip_position c) with
      | Some track => interpolateKeyframes track (currentFrame s)
      | None => position (mesh o)
      end
  | None => position (mesh o)
  end.

Definition framed_rotation (s : State) (o : ObjData) : Vec3 num :=
  match clips s !! id o with
  | Some c =>
      match nonempty_track (clip_rotation c) with
      | Some track => interpolateKeyframes track (currentFrame s)
      | None => rotation (mesh o)
      end
  | None => rotation (mesh o)
  end.

Definition framed (s : State) (o : ObjData) : ObjData :=
  set_mesh (set_rotation (framed_rotation s o)
              (set_position (framed_position s o) (mesh o))) o.

End WriteVocabulary.

Section ClipboardVocabulary.

Context {N : Numeric}.

(* the object paste builds from a copied object, under id [c] *)
Definition pasted (c : Z) (o : ObjData) : ObjData :=
  let p := position (mesh o) in
  {| id := c; name := name o +:+ "_paste"; type := type o;
     mesh := set_position (vec3 (nadd (vx p) half) (vy p) (nadd (vz p) half)) (mesh o) |}.

(* the object duplicateSelected builds from an original, under id [c] *)
Definition duplicated (c : Z) (o : ObjData) : ObjData :=
  let p := position (mesh o) in
  {| id := c; name := name o +:+ "_copy"; type := type o;
     mesh := set_position (vec3 (nadd (vx p) (of_int 1)) (vy p) (vz p)) (mesh o) |}.

(* [objs] rebuilt by [f] under the ids that follow [c] *)
Fixpoint number_from (c : Z) (f : Z -> ObjData -> ObjData) (objs : list ObjData)
  : list ObjData :=
  match objs with
  | [] => []
  | o :: objs' => f (c + 1) o :: number_from (c + 1) f objs'
  end.

(* every selected reference was handed out by [alloc] *)
Definition selection_allocated (s : State) : Prop :=
  Forall (fun r => (r < nextRef s)%nat) (selectedObjects s).

End ClipboardVocabulary.

Section SceneVocabulary.

Context {N : Numeric}.
Variable theme : Theme.

(* the object behind [r] is a camera *)
Definition camera_at (s : State) (r : ref) : bool :=
  match heap s !! r with Some o => is_camera o | None => false end.

(* the scene arrays agree with the store: no object is listed twice, every
   listed reference was allocated, the allocated references are the stored
   ones, and sceneCameras lists the cameras of objects in the same order *)
Definition scene_ok (s : State) : Prop :=
  NoDup (objects s) /\
  allocated s /\
  (forall r, (r < nextRef s)%nat <-> is_Some (heap s !! r)) /\
  sceneCameras s = List.filter (camera_at s) (objects s).

(* the selection lists no object twice, and the gizmo is attached to a
   selected object, or detached when nothing is selected *)
Definition selection_ok (s : State) : Prop :=
  NoDup (selectedObjects s) /\
  match attached s with
  | Some r => In r (selectedObjects s)
  | None => selectedObjects s = []
  end.

(* only live objects are selected *)
Definition selection_live (s : State) : Prop :=
  forall r, In r (selectedObjects s) -> In r (objects s).

(* a click selects an object of the scene *)
Definition hits_live (s : State) (c : command) : Prop :=
  match c with
  | Select r _ => In r (objects s)
  | _ => True
  end.

Fixpoint clicks_live (cs : list command) (s : State) : Prop :=
  match cs with
  | [] => True
  | c :: cs' => hits_live s c /\ clicks_live cs' (step theme s c)
  end.

(* what [scene_ok] and [selection_ok] read *)
Definition scene_shape (s : State) : list ref * list ref * ref * gmap ref kind :=
  (objects s, sceneCameras s, nextRef s, type <$> heap s).

Definition selection_shape (s : State) : list ref * option ref :=
  (selectedObjects s, attached s).

Definition still (s e : State) : Prop :=
  scene_shape e = scene_shape s /\ selection_shape e = selection_shape s.

(* [e] is [s] up to the selection and the gizmo *)
Definition selects (s e : State) : Prop :=
  e = set_attached (attached e) (set_selectedObjects (selectedObjects e) s).

End SceneVocabulary.

Section HistoryVocabulary.

Context {N : Numeric}.

(* the operations that end in saveState, given the state they start from *)
Definition commits (s : State) (c : command) : bool :=
  match c with
  | AddQuad | AddCube | AddCamera
  | Rename _ _ | EditTransform _ _ _ | ReleaseGizmo
  | AddKeyframe | SetTrackTarget _ _ => true
  | Paste => match clipboard s with Some _ => true | None => false end
  | Duplicate | Delete => match selectedObjects s with [] => false | _ => true end
  | _ => false
  end.

(* the settings that live beside the scene *)
Definition ambient (s : State) : option (list ObjRecord) * string * list string * Z * bool * Z :=
  (clipboard s, currentGridPlane s, visibleGrids s, totalFrames s, isPlaying s,
   currentFrame s).

(* the animation clips and the tracking bindings *)
Definition bindings (s : State) : gmap Z Clip * gmap Z Z :=
  (clips s, cameraTrackTargets s).

Definition known_plane (plane : string) : Prop :=
  plane = "xz" \/ plane = "xy" \/ plane = "yz".

(* the current plane names a grid, and then that grid alone is shown, or
   none is; or it is a name that [grids] inherits, and no grid is shown *)
Definition grid_ok (s : State) : Prop :=
  (known_plane (currentGridPlane s) /\
   (visibleGrids s = [currentGridPlane s] \/ visibleGrids s = [])) \/
  (inherited_name (currentGridPlane s) = true /\ visibleGrids s = []).

(* the quad that init adds *)
Definition first_quad : ObjData :=
  {| id := 1; name := "Quad_1"; type := Quad;
     mesh := set_rotation (vec3 neg_half_pi (of_int 0) (of_int 0)) newMesh |}.

End HistoryVocabulary.

Section FileVocabulary.

Context {N : Numeric}.

(* an object, a scene and a snapshot with every transform and keyframe
   number replaced by what JSON reads it back as *)
Definition json_mesh (m : Mesh) : Mesh :=
  {| position := json_vec (position m);
     rotation := json_vec (rotation m);
     scale := json_vec (scale m) |}.

Definition json_object (o : ObjData) : ObjData := set_mesh (json_mesh (mesh o)) o.

Definition json_state (s : State) : State :=
  set_clips (json_clip <$> clips s) (set_heap (json_object <$> heap s) s).

Definition json_snapshot (p : Snapshot) : Snapshot :=
  {| snap_objects := map json_record (snap_objects p);
     snap_clips := json_clip <$> snap_clips p |}.

(* every number of the live objects and of the clips is read back as it
   is: none is NaN, infinite or -0 *)
Definition json_stable (s : State) : Prop :=
  map json_object (deref s (objects s)) = deref s (objects s) /\
  json_clip <$> clips s = clips s.

End FileVocabulary.

Section TrackingVocabulary.

Context {N : Numeric}.

(* [o] turned towards the target [tid] when the binding of its id resolves
   to the object behind [r] and to a live target *)
Definition aimed (s : State) (r : ref) (o : ObjData) (tid : Z) : ObjData :=
  match tracked_pair s (id o, tid) with
  | Some (cam, t) =>
      if Nat.eqb cam r
      then set_mesh (set_rotation (lookAt (position (mesh o)) (position (mesh t)))
                       (mesh o)) o
      else o
  | None => o
  end.

Definition turned_by (m : gmap Z Z) (s : State) (r : ref) (o : ObjData) : ObjData :=
  match m !! id o with
  | Some tid => aimed s r o tid
  | None => o
  end.

End TrackingVocabulary.

Section TransformVocabulary.

Context {N : Numeric}.

Definition get_axis (a : axis) (v : Vec3 num) : num :=
  match a with X => vx v | Y => vy v | Z_ => vz v end.

(* o.mesh[prop][axis] *)
Definition get_field (p : prop) (a : axis) (o : ObjData) : num :=
  match p with
  | Position => get_axis a (position (mesh o))
  | Rotation => get_axis a (rotation (mesh o))
  | Scale => get_axis a (scale (mesh o))
  end.

End TransformVocabulary.

(** * Keyboard and snapping

    The modifier flags, the snap settings and the transform mode live
    beside the editor state; [onKeyDown] dispatches a key to them and to
    the operations of the editor.  save() and export() only read the
    state, so they leave it as it is. *)

Section Keyboard.

Context {N : Numeric}.
Variable theme : Theme.
(* THREE.MathUtils.degToRad *)
Variable degToRad : num -> num.

Inductive Mode : Type := Translate | Rotate | ScaleMode.

Record Ui : Type := mkUi {
  editor : State;
  isShiftHeld : bool;
  isAltHeld : bool;
  isCtrlHeld : bool;
  gridSnapEnabled : bool;
  (* theme.controls.snapPosition and theme.controls.snapAngle *)
  snapPosition : num;
  snapAngle : num;
  (* transformControls.mode, .translationSnap, .rotationSnap *)
  mode : Mode;
  translationSnap : option num;
  rotationSnap : option num
}.

Definition with_editor (f : State -> State) (u : Ui) : Ui :=
  mkUi (f (editor u)) (isShiftHeld u) (isAltHeld u) (isCtrlHeld u) (gridSnapEnabled u)
    (snapPosition u) (snapAngle u) (mode u) (translationSnap u) (rotationSnap u).

Definition set_shift (v : bool) (u : Ui) : Ui :=
  mkUi (editor u) v (isAltHeld u) (isCtrlHeld u) (gridSnapEnabled u)
    (snapPosition u) (snapAngle u) (mode u) (translationSnap u) (rotationSnap u).

Definition set_alt (v : bool) (u : Ui) : Ui :=
  mkUi (editor u) (isShiftHeld u) v (isCtrlHeld u) (gridSnapEnabled u)
    (snapPosition u) (snapAngle u) (mode u) (translationSnap u) (rotationSnap u).

Definition set_ctrl (v : bool) (u : Ui) : Ui :=
  mkUi (editor u) (isShiftHeld u) (isAltHeld u) v (gridSnapEnabled u)
    (snapPosition u) (snapAngle u) (mode u) (translationSnap u) (rotationSnap u).

Definition set_gridSnap (v : bool) (u : Ui) : Ui :=
  mkUi (editor u) (isShiftHeld u) (isAltHeld u) (isCtrlHeld u) v
    (snapPosition u) (snapAngle u) (mode u) (translationSnap u) (rotationSnap u).

Definition set_snapPosition (v : num) (u : Ui) : Ui :=
  mkUi (editor u) (isShiftHeld u) (isAltHeld u) (isCtrlHeld u) (gridSnapEnabled u)
    v (snapAngle u) (mode u) (translationSnap u) (rotationSnap u).

Definition setMode (v : Mode) (u : Ui) : Ui :=
  mkUi (editor u) (isShiftHeld u) (isAltHeld u) (isCtrlHeld u) (gridSnapEnabled u)
    (snapPosition u) (snapAngle u) v (translationSnap u) (rotationSnap u).

Definition set_snaps (t r : option num) (u : Ui) : Ui :=
  mkUi (editor u) (isShiftHeld u) (isAltHeld u) (isCtrlHeld u) (gridSnapEnabled u)
    (snapPosition u) (snapAngle u) (mode u) t r.

Definition updateSnapping (u : Ui) : Ui :=
  let shouldSnap := gridSnapEnabled u || isAltHeld u in
  let fineSnap := isShiftHeld u && isAltHeld u in
  if shouldSnap then
    let snapVal := if fineSnap then ndiv (snapPosition u) (of_int 4) else snapPosition u in
    set_snaps (Some snapVal) (Some (degToRad (snapAngle u))) u
  else if isShiftHeld u then
    set_snaps (Some (snapPosition u)) (Some (degToRad (snapAngle u))) u
  else set_snaps None None u.

(* the text updateStatus writes to the snap item of the status bar *)
Definition snapText (u : Ui) : string :=
  if gridSnapEnabled u then "🔒 Grid"
  else if isAltHeld u && isShiftHeld u then "🔒 Fine"
  else if isAltHeld u then "🔒 Alt"
  else if isShiftHeld u then "🔒 Axis"
  else "".

(* one [if] statement of a handler *)
Definition when (b : bool) (f : Ui -> Ui) (u : Ui) : Ui := if b then f u else u.

Definition onKeyDown (key : string) (ctrlKey : bool) (u : Ui) : Ui :=
  let k := String.eqb key in
  let u := when (k "Shift") (fun u => updateSnapping (set_shift true u)) u in
  let u := when (k "Alt") (fun u => updateSnapping (set_alt true u)) u in
  let u := when (k "Control") (set_ctrl true) u in
  let u := when (k "g" && negb ctrlKey)
             (fun u => updateSnapping (set_gridSnap (negb (gridSnapEnabled u)) u)) u in
  let u := when (k "1") (with_editor (setGridPlane "xz")) u in
  let u := when (k "2") (with_editor (setGridPlane "xy")) u in
  let u := when (k "3") (with_editor (setGridPlane "yz")) u in
  let u := when (k "Delete" || k "Backspace") (with_editor (deleteSelected theme)) u in
  let u :=
    when ctrlKey (fun u =>
      let u := when (k "z") (with_editor undo) u in
      let u := when (k "y") (with_editor redo) u in
      let u := when (k "c") (with_editor copy) u in
      let u := when (k "v") (with_editor (paste theme)) u in
      let u := when (k "d") (with_editor (duplicateSelected theme)) u in
      let u := when (k "s") (fun u => u) u in
      let u := when (k "e") (fun u => u) u in
      when (k "a") (with_editor selectAll) u) u in
  let u := when (k "t") (setMode Translate) u in
  let u := when (k "r" && negb ctrlKey) (setMode Rotate) u in
  let u := when (k "s" && negb ctrlKey) (setMode ScaleMode) u in
  let u := when (k " ") (with_editor togglePlay) u in
  let u := when (k "ArrowLeft")
             (fun u => with_editor (stepFrame (- (if isShiftHeld u then 10 else 1))) u) u in
  let u := when (k "ArrowRight")
             (fun u => with_editor (stepFrame (if isShiftHeld u then 10 else 1)) u) u in
  let u := when (k "Home") (with_editor (seek 0)) u in
  let u := when (k "End") (fun u => with_editor (seek (totalFrames (editor u))) u) u in
  let u := when (k "k" || k "K") (with_editor (addKeyframe theme)) u in
  let u := when (k "[") (with_editor prevKeyframe) u in
  when (k "]") (with_editor nextKeyframe) u.

Definition onKeyUp (key : string) (u : Ui) : Ui :=
  let k := String.eqb key in
  let u := when (k "Shift") (fun u => updateSnapping (set_shift false u)) u in
  let u := when (k "Alt") (fun u => updateSnapping (set_alt false u)) u in
  when (k "Control") (set_ctrl false) u.

(* the change handlers of the grid panel *)
Definition onGridSnapToggle (checked : bool) (u : Ui) : Ui :=
  updateSnapping (set_gridSnap checked u).

Definition onSnapSizeInput (v : num) (u : Ui) : Ui :=
  updateSnapping (set_snapPosition v u).

Inductive ui_event : Type :=
| KeyDown (key : string) (ctrlKey : bool)
| KeyUp (key : string)
| GridSnapToggle (checked : bool)
| SnapSizeInput (v : num).

Definition handle (u : Ui) (ev : ui_event) : Ui :=
  match ev with
  | KeyDown key ctrlKey => onKeyDown key ctrlKey u
  | KeyUp key => onKeyUp key u
  | GridSnapToggle checked => onGridSnapToggle checked u
  | SnapSizeInput v => onSnapSizeInput v u
  end.

(* the editor command a key stands for *)
Definition key_command (key : string) (ctrlKey shift : bool) (totalFrames : Z)
  : option command :=
  let k := String.eqb key in
  if k "1" then Some (SetGridPlane "xz")
  else if k "2" then Some (SetGridPlane "xy")
  else if k "3" then Some (SetGridPlane "yz")
  else if k "Delete" || k "Backspace" then Some Delete
  else if k " " then Some TogglePlay
  else if k "ArrowLeft" then Some (StepFrame (- (if shift then 10 else 1)))
  else if k "ArrowRight" then Some (StepFrame (if shift then 10 else 1))
  else if k "Home" then Some (Seek 0)
  else if k "End" then Some (Seek totalFrames)
  else if k "k" || k "K" then Some AddKeyframe
  else if k "[" then Some PrevKeyframe
  else if k "]" then Some NextKeyframe
  else if ctrlKey then
    if k "z" then Some Undo
    else if k "y" then Some Redo
    else if k "c" then Some Copy
    else if k "v" then Some Paste
    else if k "d" then Some Duplicate
    else if k "a" then Some SelectAll
    else None
  else None.

(* the snap settings agree with the modifier flags *)
Definition snaps_synced (u : Ui) : Prop :=
  translationSnap u =
    (if gridSnapEnabled u || isAltHeld u || isShiftHeld u
     then Some (if isShiftHeld u && isAltHeld u
                then ndiv (snapPosition u) (of_int 4) else snapPosition u)
     else None) /\
  rotationSnap u =
    (if gridSnapEnabled u || isAltHeld u || isShiftHeld u
     then Some (degToRad (snapAngle u)) else None).

End Keyboard.

Arguments Ui {N}.
Arguments ui_event {N}.

(** * Themes (theme.js)

    A theme is a JSON document.  Objects are finite maps, so the order of
    their members is left out; on such values JSON.parse after
    JSON.stringify gives the value back.  A string value is the sequence of
    its UTF-16 code units, which is what indexing and spreading a string
    go by. *)

Definition code_unit : Type := BinNums.N.

(* the code units of a literal of ASCII characters *)
Definition units_of (s : string) : list code_unit :=
  map Ascii.N_of_ascii (String.list_ascii_of_string s).

Section Themes.

Context {N : Numeric}.

#[warnings="-register-all"]
Inductive json : Type :=
| JNull
| JBool (b : bool)
| JNum (x : num)
| JStr (s : list code_unit)
| JArr (l : list json)
| JObj (m : gmap string json).

(* { ...v }: the own enumerable properties of a value that may be
   undefined; an array spreads its elements and a string its code units,
   each a string of length one, under their indices *)
Definition spread (v : option json) : gmap string json :=
  match v with
  | Some (JObj m) => m
  | Some (JArr l) => list_to_map (imap (fun (i : nat) x => (pretty i, x)) l)
  | Some (JStr s) => list_to_map (imap (fun (i : nat) c => (pretty i, JStr [c])) s)
  | _ => ∅
  end.

(* overrides?.k *)
Definition member (o : option (gmap string json)) (k : string) : option json :=
  match o with
  | Some m => m !! k
  | None => None
  end.

Definition theme_sections : list string :=
  ["colors"; "layout"; "toolbar"; "sidebar"; "viewport"; "controls"; "timeline";
   "statusBar"].

(* { ...base[k], ...overrides?.[k] }: later members win *)
Definition merged_section (base : gmap string json) (overrides : option (gmap string json))
    (k : string) : json :=
  JObj (spread (member overrides k) ∪ spread (base !! k)).

Definition mergeTheme (base : gmap string json) (overrides : option (gmap string json))
  : gmap string json :=
  foldr (fun k m => <[k := merged_section base overrides k]> m)
    (default ∅ overrides ∪ base) theme_sections.

End Themes.

Arguments json {N}.

(** ** More example states *)

(* camera 2 keyed at frames 5 and 20, the playhead back at frame 5 *)
Definition s_keyed : State (N := QNumeric) :=
  run defaultTheme [AddCamera; Seek 5; AddKeyframe; Seek 20; AddKeyframe; Seek 5] s_init.

(* the selected camera of [s_cam] copied to the clipboard *)
Definition s_copied : State (N := QNumeric) := run defaultTheme [Copy] s_cam.

(* a stand-in for degToRad on rationals, only to run the examples *)
Definition deg_to_rad : @num QNumeric -> @num QNumeric :=
  fun d => (d * (355 # 20340))%Q.

(* the editor with no modifier held, snap size 0.5 and snap angle 15 *)
Definition u_init : Ui (N := QNumeric) :=
  @mkUi QNumeric s_init false false false false (1 # 2)%Q 15%Q Translate None None.

Definition theme_base : gmap string (json (N := QNumeric)) :=
  {[ "name" := @JStr QNumeric (units_of "dark");
     "colors" := @JObj QNumeric {[ "accent" := @JStr QNumeric (units_of "#e94560");
                                    "text" := @JStr QNumeric (units_of "#eaeaea") ]} ]}.

Definition theme_over : gmap string (json (N := QNumeric)) :=
  {[ "colors" := @JObj QNumeric {[ "accent" := @JStr QNumeric (units_of "#ffffff") ]} ]}.

(* an override whose [layout] is a string of two characters, the second one
   outside the basic plane: three code units *)
Definition theme_text : gmap string (json (N := QNumeric)) :=
  {[ "layout" := @JStr QNumeric [233%N; 55357%N; 56832%N] ]}.

(* the record of a unit cube at the origin under id [i] *)
Definition cube_record (i : Z) : ObjRecord (N := QNumeric) :=
  @Build_ObjRecord QNumeric i "Cube" "cube" (vec3 0 0 0)%Q (vec3 0 0 0)%Q (vec3 1 1 1)%Q None.

(* a file whose [objects] array holds a cube with id 2, then null *)
Definition file_broken : SceneFile (N := QNumeric) :=
  @Build_SceneFile QNumeric None None (Some [Rec (cube_record 2); Broken]) None.

(* a file with one cube whose id is 2^53 *)
Definition file_big : SceneFile (N := QNumeric) :=
  @Build_SceneFile QNumeric None None (Some [Rec (cube_record (2 ^ 53))]) None.


(** * Properties *)

Section Properties.

Context {N : Numeric}.
Variable theme : Theme.

Implicit Types (s : State) (r A : ref) (o : ObjData).

(** ** Selection *)

Lemma includes_In (l : list ref) r : includes l r = true <-> In r l.
Proof.
  unfold includes. rewrite existsb_exists. split.
  - intros (x & Hx & He). apply Nat.eqb_eq in He. now subst.
  - intros H. exists r. split; [exact H | apply Nat.eqb_refl].
Qed.

Lemma includes_false (l : list ref) r : includes l r = false <-> ~ In r l.
Proof.
  rewrite <- includes_In. destruct (includes l r); split; congruence.
Qed.

Lemma remove_first_snoc (l : list ref) r :
  ~ In r l -> remove_first r (l ++ [r]) = l.
Proof.
  induction l as [|x l IH]; simpl; intros Hn.
  - now rewrite Nat.eqb_refl.
  - destruct (Nat.eqb r x) eqn:E.
    + apply Nat.eqb_eq in E. subst. tauto.
    + f_equal. apply IH. tauto.
Qed.

Lemma select_plain s A :
  selectedObjects (selectObject A false s) = [A] /\
  attached (selectObject A false s) = Some A.
Proof. now unfold selectObject, addToSelection. Qed.

Lemma select_additive_absent s A :
  ~ In A (selectedObjects s) ->
  selectedObjects (selectObject A true s) = selectedObjects s ++ [A].
Proof.
  intros Hn. apply includes_false in Hn.
  unfold selectObject, addToSelection. rewrite Hn. simpl.
  now destruct (_ =? _)%nat.
Qed.

Lemma select_additive_present s A :
  In A (selectedObjects s) ->
  selectedObjects (selectObject A true s) = remove_first A (selectedObjects s).
Proof.
  intros Hi. apply includes_In in Hi.
  unfold selectObject, removeFromSelection. now rewrite Hi.
Qed.

(** C8.  Selection toggle asymmetry: a plain (non-additive) select of [A]
    leaves exactly [A] selected, also when repeated; an additive select of
    an unselected [A] appends it and a second additive select removes it
    again, so two additive selects give back the starting selection, the
    empty one in particular. *)
Theorem select_toggle_asymmetry s A :
  selectedObjects (selectObject A false s) = [A] /\
  selectedObjects (selectObject A false (selectObject A false s)) = [A] /\
  (~ In A (selectedObjects s) ->
   selectedObjects (selectObject A true s) = selectedObjects s ++ [A] /\
   selectedObjects (selectObject A true (selectObject A true s)) = selectedObjects s) /\
  (selectedObjects s = [] ->
   selectedObjects (selectObject A true (selectObject A true s)) = []).
Proof.
  assert (Htwice : ~ In A (selectedObjects s) ->
    selectedObjects (selectObject A true (selectObject A true s)) = selectedObjects s).
  { intros Hn. rewrite select_additive_present.
    - rewrite (select_additive_absent _ _ Hn). now apply remove_first_snoc.
    - rewrite (select_additive_absent _ _ Hn). apply in_or_app. right. now left. }
  split; [apply select_plain |].
  split; [apply select_plain |].
  split.
  - intros Hn. split; [now apply select_additive_absent | now apply Htwice].
  - intros He. rewrite Htwice; [exact He | rewrite He; simpl; tauto].
Qed.

(** ** Serialisation round trip *)

Lemma parse_type_name (k : kind) : parse_type (type_name k) = Some k.
Proof. now destruct k. Qed.

Lemma parse_type_known (t : string) (k : kind) :
  parse_type t = Some k -> t = type_name k.
Proof.
  unfold parse_type.
  destruct (String.eqb t "quad") eqn:E1; [apply String.eqb_eq in E1; intros [= <-]; exact E1 |].
  destruct (String.eqb t "cube") eqn:E2; [apply String.eqb_eq in E2; intros [= <-]; exact E2 |].
  destruct (String.eqb t "camera") eqn:E3; [apply String.eqb_eq in E3; intros [= <-]; exact E3 |].
  discriminate.
Qed.

Lemma object_of_serialized s o :
  object_of_record (type o) (serializeObject s o) = o.
Proof. destruct o as [i n k [p r sc]]. reflexivity. Qed.

Lemma create_known (data : ObjRecord) (k : kind) s :
  parse_type (r_type data) = Some k ->
  let s' := createObjectFromData data s in
  objects s' = objects s ++ [nextRef s] /\
  heap s' = <[nextRef s := object_of_record k data]> (heap s) /\
  nextRef s' = S (nextRef s) /\
  sceneCameras s' = (if kind_eqb k Camera then sceneCameras s ++ [nextRef s] else sceneCameras s).
Proof.
  intros Hk. unfold createObjectFromData. rewrite Hk. simpl.
  destruct (kind_eqb k Camera); simpl; repeat split; reflexivity.
Qed.

Lemma create_unknown (data : ObjRecord) s :
  parse_type (r_type data) = None -> createObjectFromData data s = s.
Proof. intros Hk. unfold createObjectFromData. now rewrite Hk. Qed.

(* reconstructing from a record just serialised *)
Lemma reconstruct_serialized s o :
  let data := serializeObject s o in
  let s' := createObjectFromData data s in
  r_id data = id o /\
  exists r o',
    objects s' = objects s ++ [r] /\
    heap s' !! r = Some o' /\
    id o' = id o /\
    type o' = type o /\
    position (mesh o') = position (mesh o) /\
    rotation (mesh o') = rotation (mesh o) /\
    scale (mesh o') = scale (mesh o) /\
    o' = o.
Proof.
  intros data s'. split; [reflexivity |].
  destruct (create_known data (type o) s) as (Ho & Hh & _).
  { apply parse_type_name. }
  exists (nextRef s), o. fold s' in Ho, Hh.
  split; [exact Ho |]. split.
  - rewrite Hh. unfold data. rewrite object_of_serialized. apply lookup_insert_eq.
  - repeat split; reflexivity.
Qed.

(** ** History cap *)

Lemma saveState_undoStack s :
  undoStack (saveState theme s) = push_capped (undoLimit theme) (undoStack s) (snapshot s).
Proof. reflexivity. Qed.

Lemma saveState_redoStack s : redoStack (saveState theme s) = [].
Proof. reflexivity. Qed.

Lemma push_capped_drop (limit : nat) (stack : list Snapshot) (p : Snapshot) :
  (length stack <= limit)%nat ->
  push_capped limit stack p = drop (length (stack ++ [p]) - limit) (stack ++ [p]).
Proof.
  intros Hl. unfold push_capped. rewrite length_app. simpl.
  destruct (Nat.ltb_spec limit (length stack + 1)).
  - replace (length stack + 1 - limit)%nat with 1%nat by lia.
    now destruct (stack ++ [p]).
  - replace (length stack + 1 - limit)%nat with 0%nat by lia. reflexivity.
Qed.

Lemma push_capped_length (limit : nat) (stack : list Snapshot) (p : Snapshot) :
  (length stack <= limit)%nat ->
  length (push_capped limit stack p) = Nat.min (length stack + 1) limit.
Proof.
  intros Hl. rewrite push_capped_drop by exact Hl.
  rewrite length_drop, length_app. simpl. lia.
Qed.

Lemma commit_each_stack (edits : list (State -> State)) s :
  Forall keeps_history edits ->
  (length (undoStack s) <= undoLimit theme)%nat ->
  let all := undoStack s ++ committed theme edits s in
  undoStack (commit_each theme edits s) = drop (length all - undoLimit theme) all.
Proof.
  revert s. induction edits as [|e edits IH]; intros s Hk Hl; simpl.
  - rewrite app_nil_r. replace (_ - _)%nat with 0%nat by lia. reflexivity.
  - inversion Hk as [|? ? He Hk']; subst.
    assert (Hl' : (length (undoStack (e s)) <= undoLimit theme)%nat) by now rewrite He.
    unfold commit_each in *. simpl. rewrite IH; [| exact Hk' |].
    + rewrite saveState_undoStack, push_capped_drop by exact Hl'.
      rewrite He. set (p := snapshot (e s)). set (rest := committed _ _).
      rewrite !length_app, length_drop, !length_app. simpl.
      rewrite <- drop_app_le by (rewrite length_app; simpl; lia).
      rewrite drop_drop. rewrite <- app_assoc. simpl. f_equal. lia.
    + rewrite saveState_undoStack, push_capped_length by exact Hl'. lia.
Qed.

Lemma committed_length (edits : list (State -> State)) s :
  length (committed theme edits s) = length edits.
Proof. revert s. induction edits; intros; simpl; [reflexivity | now rewrite IHedits]. Qed.

(** ** Operations that touch neither the registry nor the history *)

Lemma quiet_refl s : quiet s s.
Proof. now split. Qed.

Lemma quiet_trans s1 s2 s3 : quiet s1 s2 -> quiet s2 s3 -> quiet s1 s3.
Proof. intros [H1 H2] [H3 H4]. split; congruence. Qed.

Lemma quiet_fold {T} (f : State -> T -> State) (l : list T) :
  (forall s x, quiet s (f s x)) -> forall s, quiet s (fold_left f l s).
Proof.
  intros Hf. induction l as [|x l IH]; intros s; simpl.
  - apply quiet_refl.
  - eapply quiet_trans; [apply Hf | apply IH].
Qed.

Lemma fmap_id_alter (f : ObjData -> ObjData) r (h : gmap ref ObjData) :
  (forall o, id (f o) = id o) -> id <$> alter f r h = id <$> h.
Proof.
  intros Hf. apply map_eq. intros i. rewrite !lookup_fmap, lookup_alter.
  destruct (decide (r = i)) as [->|]; [| reflexivity].
  destruct (h !! i) as [o|]; simpl; [now rewrite Hf | reflexivity].
Qed.

Lemma quiet_update_obj r (f : ObjData -> ObjData) s :
  (forall o, id (f o) = id o) -> quiet s (update_obj r f s).
Proof.
  intros Hf. split; [| reflexivity].
  unfold registry, update_obj. simpl. now rewrite fmap_id_alter.
Qed.

Lemma quiet_deselectAll s : quiet s (deselectAll s).
Proof. now split. Qed.

Lemma quiet_addToSelection r s : quiet s (addToSelection r s).
Proof.
  unfold addToSelection. destruct (includes _ _); [apply quiet_refl |].
  destruct (_ =? _)%nat; now split.
Qed.

Lemma quiet_removeFromSelection r s : quiet s (removeFromSelection r s).
Proof. unfold removeFromSelection. destruct (includes _ _); now split. Qed.

Lemma quiet_selectObject r additive s : quiet s (selectObject r additive s).
Proof.
  unfold selectObject.
  destruct additive; simpl.
  - destruct (includes _ _); simpl;
      [apply quiet_removeFromSelection | apply quiet_addToSelection].
  - eapply quiet_trans; [apply quiet_deselectAll | apply quiet_addToSelection].
Qed.

Lemma quiet_selectAll s : quiet s (selectAll s).
Proof.
  unfold selectAll. eapply quiet_trans; [apply quiet_deselectAll |].
  generalize (objects s). intros l. apply quiet_fold. intros. apply quiet_addToSelection.
Qed.

Lemma quiet_copy s : quiet s (copy s).
Proof. unfold copy. destruct (selectedObjects s); now split. Qed.

Lemma quiet_setGridPlane plane s : quiet s (setGridPlane plane s).
Proof.
  unfold setGridPlane. destruct (_ || _); [now split |].
  destruct (inherited_name plane); now split.
Qed.

Lemma quiet_apply_camera s cam : quiet s (apply_camera s cam).
Proof.
  unfold apply_camera.
  destruct (heap s !! cam) as [o|]; [| apply quiet_refl].
  destruct (clips s !! id o) as [c|]; [| apply quiet_refl].
  destruct (nonempty_track (clip_position c)), (nonempty_track (clip_rotation c));
    repeat first [apply quiet_refl
                 | eapply quiet_trans; [| apply quiet_update_obj; reflexivity]].
Qed.

Lemma quiet_applyFrame s : quiet s (applyFrame s).
Proof. unfold applyFrame. apply quiet_fold. apply quiet_apply_camera. Qed.

Lemma quiet_seek f s : quiet s (seek f s).
Proof.
  unfold seek. eapply quiet_trans; [| apply quiet_applyFrame]. now split.
Qed.

Lemma quiet_stopPlayback s : quiet s (stopPlayback s).
Proof.
  unfold stopPlayback. eapply quiet_trans; [| apply quiet_applyFrame]. now split.
Qed.

Lemma quiet_stepFrame delta s : quiet s (stepFrame delta s).
Proof. unfold stepFrame. destruct (delta <? 0); apply quiet_seek. Qed.

Lemma quiet_track_one s entry : quiet s (track_one s entry).
Proof.
  unfold track_one. destruct (tracked_pair s entry) as [[cam t]|];
    [apply quiet_update_obj; reflexivity | apply quiet_refl].
Qed.

Lemma quiet_updateCameraTracking s : quiet s (updateCameraTracking s).
Proof. unfold updateCameraTracking. apply quiet_fold. apply quiet_track_one. Qed.

(** ** The loop of restoreState *)

Lemma readable_Rec (rs : list ObjRecord) : readable (map Rec rs) = rs.
Proof. induction rs as [|x rs IH]; simpl; [reflexivity | now rewrite IH]. Qed.

Lemma intact_Rec (rs : list ObjRecord) : intact (map Rec rs).
Proof. unfold intact. now rewrite readable_Rec. Qed.

(* however the loop ends, it has restored the records it reached *)
Lemma restore_objects_final (recs : list FileRecord) s :
  final (restore_objects recs s) = fold_left restore_object (readable recs) s.
Proof.
  revert s. induction recs as [|[|data] recs IH]; intros s; simpl; try reflexivity.
  apply IH.
Qed.

Lemma restore_objects_Rec (rs : list ObjRecord) s :
  restore_objects (map Rec rs) s = Normal (fold_left restore_object rs s).
Proof. revert s. induction rs as [|x rs IH]; intros s; simpl; [reflexivity | apply IH]. Qed.

Lemma restore_objects_intact (recs : list FileRecord) s :
  intact recs ->
  restore_objects recs s = Normal (fold_left restore_object (readable recs) s).
Proof. intros H. rewrite H at 1. apply restore_objects_Rec. Qed.

(* where a restore ends: on the cleared registry when [objects] is
   missing; otherwise with the records the loop reached restored, and with
   the clips and the counter set if the loop was not left by a throw *)
Lemma restoreState_final (d : StateData) s :
  let s2 := set_cameraTrackTargets ∅ (set_sceneCameras [] (set_objects [] (deselectAll s))) in
  match sd_objects d with
  | None => final (restoreState d s) = s2
  | Some recs =>
      let s3 := fold_left restore_object (readable recs) s2 in
      let s4 := set_clips (default ∅ (sd_clips d)) s3 in
      final (restoreState d s) = s3 \/
      final (restoreState d s) = set_objectIdCounter (max_id (live_ids s4)) s4
  end.
Proof.
  cbv zeta. unfold restoreState. destruct (sd_objects d) as [recs|]; [| reflexivity].
  set (s2 := set_cameraTrackTargets ∅ (set_sceneCameras [] (set_objects [] (deselectAll s)))).
  pose proof (restore_objects_final recs s2) as Hf.
  destruct (restore_objects recs s2) as [s3 | s3]; cbn [final] in Hf |- *; rewrite Hf.
  - now right.
  - now left.
Qed.

(* the loop ends normally on an intact array only *)
Lemma restore_objects_Normal (recs : list FileRecord) s s' :
  restore_objects recs s = Normal s' -> intact recs.
Proof.
  revert s. induction recs as [|[|data] recs IH]; intros s H; simpl in H.
  - reflexivity.
  - discriminate.
  - unfold intact. simpl. f_equal. exact (IH _ H).
Qed.

Lemma quiet_animate s : quiet s (animate s).
Proof.
  unfold animate. eapply quiet_trans; [| apply quiet_updateCameraTracking].
  destruct (isPlaying s); [| apply quiet_refl].
  eapply quiet_trans; [| apply quiet_applyFrame]. now split.
Qed.

Lemma quiet_dragGizmo m s : quiet s (dragGizmo m s).
Proof.
  unfold dragGizmo. destruct (attached s);
    [apply quiet_update_obj; reflexivity | apply quiet_refl].
Qed.

Lemma quiet_edit_fields (p : prop) (a : axis) (val : num) (l : list ref) s :
  quiet s (fold_left (fun s0 x => update_obj x (set_field p a val) s0) l s).
Proof.
  apply quiet_fold. intros s' x. apply quiet_update_obj. intros o. now destruct p.
Qed.

Lemma quiet_keyframe_one s obj : quiet s (keyframe_one s obj).
Proof.
  unfold keyframe_one. destruct (heap s !! obj) as [o|]; [| now split].
  destruct (kind_eqb _ _); now split.
Qed.

Lemma quiet_prevKeyframe s : quiet s (prevKeyframe s).
Proof. unfold prevKeyframe. apply quiet_seek. Qed.

Lemma quiet_nextKeyframe s : quiet s (nextKeyframe s).
Proof. unfold nextKeyframe. apply quiet_seek. Qed.

(** ** Operations that leave the history alone *)

Lemma hist_fold {T} (f : State -> T -> State) (l : list T) :
  (forall s x, hist (f s x) = hist s) -> forall s, hist (fold_left f l s) = hist s.
Proof.
  intros Hf. induction l as [|x l IH]; intros s; simpl; [reflexivity |].
  now rewrite IH, Hf.
Qed.

Lemma hist_createObjectFromData (data : ObjRecord) s :
  hist (createObjectFromData data s) = hist s.
Proof.
  unfold createObjectFromData. destruct (parse_type _) as [k|]; [| reflexivity].
  simpl. now destruct (kind_eqb k Camera).
Qed.

Lemma hist_restore_object s (data : ObjRecord) :
  hist (restore_object s data) = hist s.
Proof.
  unfold restore_object.
  destruct (or_null _); [| apply hist_createObjectFromData].
  rewrite <- (hist_createObjectFromData data s). reflexivity.
Qed.

Lemma hist_restoreState (d : StateData) s :
  hist (final (restoreState d s)) = hist s.
Proof.
  unfold restoreState. destruct (sd_objects d) as [recs|]; simpl; [| reflexivity].
  set (s2 := set_cameraTrackTargets ∅ (set_sceneCameras [] (set_objects [] (deselectAll s)))).
  pose proof (restore_objects_final recs s2) as Hf.
  assert (Hh : hist (final (restore_objects recs s2)) = hist s).
  { rewrite Hf. now rewrite hist_fold by apply hist_restore_object. }
  destruct (restore_objects recs s2); exact Hh.
Qed.

Lemma hist_create_and_select (data : ObjRecord) s :
  hist (create_and_select data s) = hist s.
Proof.
  unfold create_and_select. destruct (find_by_id _ _ _).
  - destruct (quiet_addToSelection r (createObjectFromData data s)) as [_ ->].
    apply hist_createObjectFromData.
  - apply hist_createObjectFromData.
Qed.

Lemma hist_paste_one s (data : ObjRecord) : hist (paste_one s data) = hist s.
Proof. unfold paste_one. now rewrite hist_create_and_select. Qed.

Lemma hist_duplicate_ref s r : hist (duplicate_ref s r) = hist s.
Proof.
  unfold duplicate_ref. destruct (heap s !! r); [| reflexivity].
  unfold duplicate_one. now rewrite hist_create_and_select.
Qed.

Lemma hist_delete_one s r : hist (delete_one s r) = hist s.
Proof. unfold delete_one. simpl. now destruct (heap s !! r). Qed.

Lemma hist_load (parsed : option SceneFile) s : hist (load parsed s) = hist s.
Proof.
  unfold load. destruct parsed as [d|]; [| reflexivity].
  rewrite hist_restoreState.
  assert (Hg : forall g, hist (setGridPlane g s) = hist s)
    by (intros g; apply (quiet_setGridPlane g s)).
  destruct (f_totalFrames d) as [t|]; [destruct (t =? 0) |];
    (destruct (f_gridPlane d) as [g|]; [destruct (String.eqb g "") |]);
    try reflexivity; apply Hg.
Qed.

(** ** The history stays within the cap *)

Lemma bounded_same s s' :
  hist s' = hist s -> history_bounded theme s -> history_bounded theme s'.
Proof. unfold history_bounded, hist. intros [= -> ->]. auto. Qed.

Lemma bounded_saveState s s' :
  hist s' = hist s -> history_bounded theme s -> history_bounded theme (saveState theme s').
Proof.
  unfold history_bounded, hist. intros [= Hu Hr] Hb.
  rewrite saveState_redoStack, saveState_undoStack, push_capped_length;
    rewrite Hu; simpl; lia.
Qed.

Lemma bounded_undo s : history_bounded theme s -> history_bounded theme (undo s).
Proof.
  unfold undo. intros Hb.
  destruct (length (undoStack s) <=? 1)%nat; [exact Hb |].
  destruct (undoStack s) as [|x l] eqn:Hs using rev_ind; [exact Hb |]. clear IHl.
  rewrite last_snoc. cbn. rewrite removelast_last.
  assert (Hb' : history_bounded theme
    (set_redoStack (redoStack s ++ [x]) (set_undoStack l s))).
  { unfold history_bounded in *. simpl. rewrite Hs in Hb.
    rewrite !length_app in *. simpl in *. lia. }
  destruct (last l) as [prev|]; [| exact Hb'].
  eapply bounded_same; [apply hist_restoreState | exact Hb'].
Qed.

Lemma bounded_redo s : history_bounded theme s -> history_bounded theme (redo s).
Proof.
  unfold redo. intros Hb.
  destruct (redoStack s) as [|x l] eqn:Hs using rev_ind; [exact Hb |]. clear IHl.
  rewrite last_snoc. cbn. rewrite removelast_last.
  eapply bounded_same; [apply hist_restoreState |].
  unfold history_bounded in *. simpl. rewrite Hs in Hb.
  rewrite !length_app in *. simpl in *. lia.
Qed.

Lemma hist_addObject_body (k : kind) (o : ObjData) s :
  let '(r, s2) := alloc o s in
  let s3 := set_objects (objects s2 ++ [r]) s2 in
  let s4 := if kind_eqb k Camera then set_sceneCameras (sceneCameras s3 ++ [r]) s3 else s3 in
  hist (selectObject r false s4) = hist s.
Proof.
  cbn. match goal with |- hist (selectObject ?r _ ?s4) = _ =>
    destruct (quiet_selectObject r false s4) as [_ ->] end.
  now destruct (kind_eqb k Camera).
Qed.

(* what a command does to the history: nothing, one commit of a state
   with the same history, an undo, or a redo *)
Lemma step_history s (c : command) :
  hist (step theme s c) = hist s \/
  (exists e, hist e = hist s /\ step theme s c = saveState theme e) \/
  step theme s c = undo s \/
  step theme s c = redo s.
Proof.
  assert (Hadd : forall k prefix (m : Mesh),
    exists e, hist e = hist s /\ addObject theme k prefix m s = saveState theme e).
  { intros k prefix m. unfold addObject.
    pose proof (hist_addObject_body k
      {| id := double_round (objectIdCounter s + 1);
         name := prefix +:+ pretty (double_round (objectIdCounter s + 1));
         type := k; mesh := m |}
      (set_objectIdCounter (double_round (objectIdCounter s + 1)) s)) as Hh.
    cbn in Hh |- *. eexists. split; [exact Hh | reflexivity]. }
  destruct c; cbn [step].
  - right. left. apply Hadd.
  - right. left. apply Hadd.
  - right. left. apply Hadd.
  - left. apply quiet_copy.
  - unfold paste. destruct (clipboard s); [| now left].
    right. left. eexists. split; [| reflexivity].
    rewrite hist_fold by apply hist_paste_one. reflexivity.
  - unfold duplicateSelected. destruct (selectedObjects s) eqn:E; [now left |].
    right. left. eexists. split; [| reflexivity].
    rewrite hist_fold by apply hist_duplicate_ref. reflexivity.
  - unfold deleteSelected. destruct (selectedObjects s) eqn:E; [now left |].
    right. left. eexists. split; [| reflexivity].
    destruct (quiet_deselectAll (fold_left delete_one (r :: l) s)) as [_ ->].
    now rewrite hist_fold by apply hist_delete_one.
  - right. right. now left.
  - right. right. now right.
  - left. apply quiet_selectObject.
  - left. apply quiet_selectAll.
  - left. apply quiet_deselectAll.
  - right. left. unfold renameObject. eexists. split; [| reflexivity].
    apply quiet_update_obj. reflexivity.
  - right. left. unfold editTransform. eexists. split; [| reflexivity].
    apply quiet_edit_fields.
  - left. apply quiet_dragGizmo.
  - right. left. exists s. now split.
  - left. apply quiet_setGridPlane.
  - right. left. unfold addKeyframe. eexists. split; [| reflexivity].
    apply quiet_fold. apply quiet_keyframe_one.
  - now left.
  - left. apply quiet_stopPlayback.
  - left. apply quiet_seek.
  - left. apply quiet_stepFrame.
  - left. apply quiet_prevKeyframe.
  - left. apply quiet_nextKeyframe.
  - right. left. unfold setCameraTrackTarget.
    destruct (or_null targetId); (eexists; split; [| reflexivity]); reflexivity.
  - left. apply quiet_animate.
  - left. apply hist_load.
Qed.

Lemma bounded_step s (c : command) :
  history_bounded theme s -> history_bounded theme (step theme s c).
Proof.
  intros Hb. destruct (step_history s c) as [H | [(e & He & ->) | [-> | ->]]].
  - eapply bounded_same; [exact H | exact Hb].
  - eapply bounded_saveState; [exact He | exact Hb].
  - now apply bounded_undo.
  - now apply bounded_redo.
Qed.

Lemma bounded_run (cs : list command) s :
  history_bounded theme s -> history_bounded theme (run theme cs s).
Proof.
  revert s. induction cs as [|c cs IH]; intros s Hb; [exact Hb |].
  apply IH. now apply bounded_step.
Qed.

Lemma bounded_init : history_bounded theme (init theme).
Proof.
  unfold init. eapply bounded_saveState; [reflexivity |].
  apply (bounded_step _ AddQuad).
  eapply bounded_same; [apply quiet_setGridPlane |].
  unfold history_bounded. simpl. lia.
Qed.

(** C9.  History cap: a commit clears the redo stack and leaves on the undo
    stack the pushed snapshot on top of the previous entries, the oldest
    one dropped when the cap is exceeded; whatever the commands of a
    session, the undo stack never holds more than [undoLimit] entries; and
    after a series of commits the stack holds the most recent snapshots,
    exactly [undoLimit] of them once more than [undoLimit] commits were
    made. *)
Theorem history_cap :
  (forall s, redoStack (saveState theme s) = []) /\
  (forall s, (length (undoStack s) <= undoLimit theme)%nat ->
     undoStack (saveState theme s) =
       drop (length (undoStack s ++ [snapshot s]) - undoLimit theme)
            (undoStack s ++ [snapshot s]) /\
     (length (undoStack (saveState theme s)) <= undoLimit theme)%nat) /\
  (forall cs : list command,
     (length (undoStack (run theme cs (init theme))) <= undoLimit theme)%nat) /\
  (forall (edits : list (State -> State)) s,
     Forall keeps_history edits ->
     (length (undoStack s) <= undoLimit theme)%nat ->
     let all := undoStack s ++ committed theme edits s in
     undoStack (commit_each theme edits s) = drop (length all - undoLimit theme) all /\
     ((undoLimit theme < length edits)%nat ->
      length (undoStack (commit_each theme edits s)) = undoLimit theme)).
Proof.
  split; [apply saveState_redoStack |].
  split.
  { intros s Hl. rewrite saveState_undoStack. split.
    - now apply push_capped_drop.
    - rewrite push_capped_length by exact Hl. lia. }
  split.
  { intros cs. pose proof (bounded_run cs _ bounded_init) as Hb.
    unfold history_bounded in Hb. lia. }
  intros edits s Hk Hl all.
  pose proof (commit_each_stack edits s Hk Hl) as He. fold all in He.
  split; [exact He |].
  intros Hn. rewrite He, length_drop. unfold all.
  rewrite length_app, committed_length. lia.
Qed.

(** ** Keyframe interpolation *)

Lemma bracket_skip (f : Z) (initial : Keyframe * Keyframe) (pre : list Keyframe) :
  forall (a : Keyframe) (rest : list Keyframe),
  Forall (fun y => frame y < f) (tail (pre ++ [a])) ->
  bracket (pre ++ a :: rest) f initial = bracket (a :: rest) f initial.
Proof.
  induction pre as [|x pre IH]; intros a rest Hlt; [reflexivity |].
  simpl in Hlt. cbn [app bracket].
  destruct pre as [|y pre'].
  - simpl in *. inversion Hlt as [|? ? Hy _]; subst.
    replace (f <=? frame a) with false by (symmetry; apply Z.leb_gt; exact Hy).
    rewrite andb_false_r. now destruct rest.
  - simpl in Hlt |- *. inversion Hlt as [|? ? Hy Hrest]; subst.
    replace (f <=? frame y) with false by (symmetry; apply Z.leb_gt; exact Hy).
    rewrite andb_false_r. apply (IH a rest). simpl.
    destruct pre'; simpl in *; exact Hrest.
Qed.

Lemma bracket_none_above (f : Z) (initial : Keyframe * Keyframe) (l : list Keyframe) :
  Forall (fun y => f < frame y) l -> bracket l f initial = initial.
Proof.
  induction l as [|a l IH]; intros Hl; [reflexivity |].
  inversion Hl as [|? ? Ha Hl']; subst. destruct l as [|b l']; [reflexivity |].
  cbn [bracket].
  replace (frame a <=? f) with false by (symmetry; apply Z.leb_gt; exact Ha).
  simpl. apply IH, Hl'.
Qed.

Lemma bracket_none_below (f : Z) (initial : Keyframe * Keyframe) (l : list Keyframe) :
  Forall (fun y => frame y < f) l -> bracket l f initial = initial.
Proof.
  induction l as [|a l IH]; intros Hl; [reflexivity |].
  inversion Hl as [|? ? Ha Hl']; subst. destruct l as [|b l']; [reflexivity |].
  cbn [bracket]. inversion Hl' as [|? ? Hb _]; subst.
  replace (f <=? frame b) with false by (symmetry; apply Z.leb_gt; exact Hb).
  rewrite andb_false_r. apply IH, Hl'.
Qed.

Lemma interpolate_empty (f : Z) :
  interpolateKeyframes [] f = vec3 (of_int 0) (of_int 0) (of_int 0).
Proof. reflexivity. Qed.

Lemma interpolate_single (k : Keyframe) (f : Z) : interpolateKeyframes [k] f = value k.
Proof. reflexivity. Qed.

(* the body of interpolateKeyframes once the track has two keyframes *)
Lemma interpolate_multi (k0 k1 : Keyframe) (l : list Keyframe) (f : Z) :
  interpolateKeyframes (k0 :: k1 :: l) f =
  let '(before, after) :=
    bracket (k0 :: k1 :: l) f (k0, List.last (k0 :: k1 :: l) k0) in
  if f <=? frame before then value before
  else if frame after <=? f then value after
  else lerp before after f.
Proof. reflexivity. Qed.

Lemma ascending_app_le (pre post : list Keyframe) (a b : Keyframe) :
  ascending (pre ++ post) -> In a pre -> In b post -> frame a <= frame b.
Proof.
  unfold ascending. induction pre as [|x pre IH]; intros Hs Ha Hb; [destruct Ha |].
  simpl in Hs. inversion Hs as [|? ? Hs' Hx]; subst.
  destruct Ha as [<- | Ha].
  - rewrite Forall_forall in Hx. apply Hx.
    apply list_elem_of_In, in_or_app. now right.
  - now apply IH.
Qed.

Lemma ascending_tail (a : Keyframe) (l : list Keyframe) :
  ascending (a :: l) -> ascending l.
Proof. intros H. now inversion H. Qed.

Lemma ascending_head (a : Keyframe) (l : list Keyframe) (b : Keyframe) :
  ascending (a :: l) -> In b l -> frame a <= frame b.
Proof. intros H Hb. apply (ascending_app_le [a] l a b); simpl; auto. Qed.

(* at or before the first keyframe *)
Lemma interpolate_before_first (k0 k1 : Keyframe) (l : list Keyframe) (f : Z) :
  ascending (k0 :: k1 :: l) -> f <= frame k0 ->
  interpolateKeyframes (k0 :: k1 :: l) f = value k0.
Proof.
  intros Hs Hf. rewrite interpolate_multi.
  destruct (Z.eq_dec f (frame k0)) as [He|Hne].
  - cbn [bracket]. subst f. rewrite Z.leb_refl.
    replace (frame k0 <=? frame k1) with true
      by (symmetry; apply Z.leb_le; apply (ascending_head k0 (k1 :: l)); simpl; auto).
    simpl. now rewrite Z.leb_refl.
  - rewrite bracket_none_above.
    + replace (f <=? frame k0) with true by (symmetry; apply Z.leb_le; lia). reflexivity.
    + apply Forall_forall. intros y Hy. apply list_elem_of_In in Hy.
      destruct Hy as [<- | Hy]; [lia |].
      pose proof (ascending_head k0 (k1 :: l) y Hs Hy). lia.
Qed.

(* strictly after the last keyframe *)
Lemma interpolate_after_last (pre : list Keyframe) (kp kn : Keyframe) (f : Z) :
  ascending (pre ++ [kp; kn]) -> frame kn < f ->
  interpolateKeyframes (pre ++ [kp; kn]) f = value kn.
Proof.
  intros Hs Hf.
  assert (Hall : Forall (fun y => frame y < f) (pre ++ [kp; kn])).
  { apply Forall_forall. intros y Hy. apply list_elem_of_In in Hy.
    apply in_app_or in Hy. destruct Hy as [Hy | [<- | [<- | []]]].
    - assert (frame y <= frame kn); [| lia].
      apply (ascending_app_le pre [kp; kn] y kn Hs Hy). simpl. auto.
    - assert (frame kp <= frame kn); [| lia].
      apply (ascending_app_le (pre ++ [kp]) [kn] kp kn).
      + now rewrite <- app_assoc.
      + apply in_or_app. right. now left.
      + now left.
    - exact Hf. }
  assert (Hlast : forall d, List.last (pre ++ [kp; kn]) d = kn).
  { intros d. change [kp; kn] with ([kp] ++ [kn]). rewrite app_assoc. apply last_last. }
  destruct (pre ++ [kp; kn]) as [|k0 [|k1 l]] eqn:E.
  - now destruct pre.
  - destruct pre as [|? [|? ?]]; discriminate.
  - rewrite interpolate_multi, bracket_none_below by exact Hall.
    rewrite Hlast. inversion Hall as [|? ? H0 _]; subst.
    replace (f <=? frame k0) with false by (symmetry; apply Z.leb_gt; exact H0).
    replace (frame kn <=? f) with true by (symmetry; apply Z.leb_le; lia).
    reflexivity.
Qed.

(* inside a pair of neighbours *)
Lemma interpolate_inside (pre post : list Keyframe) (a b : Keyframe) (f : Z) :
  ascending (pre ++ a :: b :: post) -> frame a < f < frame b ->
  interpolateKeyframes (pre ++ a :: b :: post) f = lerp a b f.
Proof.
  intros Hs [Ha Hb].
  assert (Hbr : forall initial, bracket (pre ++ a :: b :: post) f initial = (a, b)).
  { intros initial. rewrite bracket_skip.
    - cbn [bracket].
      replace (frame a <=? f) with true by (symmetry; apply Z.leb_le; lia).
      replace (f <=? frame b) with true by (symmetry; apply Z.leb_le; lia).
      reflexivity.
    - apply Forall_forall. intros y Hy. apply list_elem_of_In in Hy.
      assert (Hy' : In y (pre ++ [a])) by (destruct (pre ++ [a]); [destruct Hy | now right]).
      apply in_app_or in Hy'. destruct Hy' as [Hy' | [<- | []]]; [| exact Ha].
      assert (frame y <= frame a); [| lia].
      apply (ascending_app_le pre (a :: b :: post) y a Hs Hy'). now left. }
  destruct (pre ++ a :: b :: post) as [|k0 [|k1 l]] eqn:E.
  - now destruct pre.
  - destruct pre as [|? [|? ?]]; discriminate.
  - rewrite interpolate_multi, Hbr.
    replace (f <=? frame a) with false by (symmetry; apply Z.leb_gt; lia).
    replace (frame b <=? f) with false by (symmetry; apply Z.leb_gt; lia).
    reflexivity.
Qed.

(* exactly on a keyframe: the first keyframe of that frame decides *)
Lemma interpolate_at_keyframe (pre post : list Keyframe) (k : Keyframe) :
  ascending (pre ++ k :: post) ->
  Forall (fun y => frame y < frame k) pre ->
  interpolateKeyframes (pre ++ k :: post) (frame k) = value k.
Proof.
  intros Hs Hpre. destruct pre as [|a pre _] using rev_ind.
  - simpl in *. destruct post as [|b post]; [reflexivity |].
    rewrite interpolate_multi. cbn [bracket]. rewrite Z.leb_refl.
    replace (frame k <=? frame b) with true
      by (symmetry; apply Z.leb_le; apply (ascending_head k (b :: post)); simpl; auto).
    simpl. now rewrite Z.leb_refl.
  - rewrite <- app_assoc in Hs |- *. simpl in Hs |- *.
    apply Forall_app in Hpre. destruct Hpre as [Hpre Ha].
    inversion Ha as [|? ? Ha' _]; subst.
    assert (Hbr : forall initial, bracket (pre ++ a :: k :: post) (frame k) initial = (a, k)).
    { intros initial. rewrite bracket_skip.
      - cbn [bracket].
        replace (frame a <=? frame k) with true by (symmetry; apply Z.leb_le; lia).
        now rewrite Z.leb_refl.
      - apply Forall_forall. intros y Hy. apply list_elem_of_In in Hy.
        assert (Hy' : In y (pre ++ [a])) by (destruct (pre ++ [a]); [destruct Hy | now right]).
        apply in_app_or in Hy'. destruct Hy' as [Hy' | [<- | []]]; [| exact Ha'].
        rewrite Forall_forall in Hpre. apply Hpre. now apply list_elem_of_In. }
    destruct (pre ++ a :: k :: post) as [|k0 [|k1 l]] eqn:E.
    + now destruct pre.
    + destruct pre as [|? [|? ?]]; discriminate.
    + rewrite interpolate_multi, Hbr.
      replace (frame k <=? frame a) with false by (symmetry; apply Z.leb_gt; lia).
      now rewrite Z.leb_refl.
Qed.

Lemma strictly_ascending_ascending (l : list Keyframe) :
  strictly_ascending l -> ascending l.
Proof.
  unfold strictly_ascending, ascending. induction 1 as [|a l Hs IH Ha]; constructor.
  - exact IH.
  - eapply Forall_impl; [exact Ha |]. simpl. intros. lia.
Qed.

Lemma strictly_ascending_last (pre : list Keyframe) (kn : Keyframe) :
  strictly_ascending (pre ++ [kn]) -> Forall (fun y => frame y < frame kn) pre.
Proof.
  unfold strictly_ascending. induction pre as [|x pre IH]; intros Hs; [constructor |].
  simpl in Hs. inversion Hs as [|? ? Hs' Hx]; subst. constructor.
  - rewrite Forall_forall in Hx. apply Hx. apply list_elem_of_In, in_or_app. right. now left.
  - now apply IH.
Qed.

(* at or after the last keyframe of a track with one keyframe per frame *)
Lemma interpolate_from_last (pre : list Keyframe) (kn : Keyframe) (f : Z) :
  strictly_ascending (pre ++ [kn]) -> frame kn <= f ->
  interpolateKeyframes (pre ++ [kn]) f = value kn.
Proof.
  intros Hs Hf. pose proof (strictly_ascending_ascending _ Hs) as Ha.
  destruct (Z.eq_dec f (frame kn)) as [-> | Hne].
  - apply interpolate_at_keyframe; [exact Ha | now apply strictly_ascending_last].
  - destruct pre as [|kp pre _] using rev_ind; [reflexivity |].
    rewrite <- app_assoc in Ha |- *. simpl in Ha |- *.
    apply interpolate_after_last; [exact Ha | lia].
Qed.

(** ** Keyframe insertion *)

Lemma insert_kf_perm (k : Keyframe) (l : list Keyframe) :
  Permutation (insert_kf k l) (k :: l).
Proof.
  induction l as [|x l IH]; simpl; [reflexivity |].
  destruct (frame k <=? frame x); [reflexivity |].
  rewrite IH. apply perm_swap.
Qed.

Lemma sort_by_frame_perm (l : list Keyframe) : Permutation (sort_by_frame l) l.
Proof.
  induction l as [|x l IH]; simpl; [reflexivity |].
  rewrite insert_kf_perm. now constructor.
Qed.

Lemma insert_kf_ascending (k : Keyframe) (l : list Keyframe) :
  ascending l -> ascending (insert_kf k l).
Proof.
  unfold ascending. induction 1 as [|x l Hs IH Hx]; simpl.
  - repeat constructor.
  - destruct (Z.leb_spec (frame k) (frame x)).
    + constructor; [now constructor |]. constructor; [exact H |].
      eapply Forall_impl; [exact Hx |]. simpl. intros. lia.
    + constructor; [exact IH |].
      eapply Permutation_Forall; [symmetry; apply insert_kf_perm |].
      constructor; [lia | exact Hx].
Qed.

Lemma sort_by_frame_ascending (l : list Keyframe) : ascending (sort_by_frame l).
Proof.
  induction l as [|x l IH]; simpl; [constructor |]. now apply insert_kf_ascending.
Qed.

Lemma filter_perm (p : Keyframe -> bool) (l l' : list Keyframe) :
  Permutation l l' -> Permutation (List.filter p l) (List.filter p l').
Proof.
  induction 1 as [| x l l' _ IH | x y l | l1 l2 l3 _ IH1 _ IH2]; simpl.
  - reflexivity.
  - destruct (p x); [now constructor | exact IH].
  - destruct (p x), (p y); try reflexivity. apply perm_swap.
  - now rewrite IH1.
Qed.

Lemma put_keyframe_perm (f : Z) (v : Vec3 num) (track : list Keyframe) :
  Permutation (put_keyframe f v track)
    (List.filter (fun k => negb (frame k =? f)) track ++ [{| frame := f; value := v |}]).
Proof. apply sort_by_frame_perm. Qed.

Lemma put_keyframe_ascending (f : Z) (v : Vec3 num) (track : list Keyframe) :
  ascending (put_keyframe f v track).
Proof. apply sort_by_frame_ascending. Qed.

(* exactly one keyframe at the frame, holding the value just recorded *)
Lemma put_keyframe_at_frame (f : Z) (v : Vec3 num) (track : list Keyframe) :
  at_frame f (put_keyframe f v track) = [{| frame := f; value := v |}].
Proof.
  apply Permutation_length_1_inv. symmetry. unfold at_frame.
  rewrite (filter_perm _ _ _ (put_keyframe_perm f v track)).
  rewrite List.filter_app. simpl. rewrite Z.eqb_refl.
  replace (List.filter _ (List.filter _ track)) with (@nil Keyframe); [reflexivity |].
  symmetry. induction track as [|x l IH]; simpl; [reflexivity |].
  destruct (frame x =? f) eqn:E; simpl; [exact IH | now rewrite E].
Qed.

(* the keyframes of the other frames are kept, and none is added *)
Lemma put_keyframe_others (f : Z) (v : Vec3 num) (track : list Keyframe) (k : Keyframe) :
  frame k <> f -> (In k (put_keyframe f v track) <-> In k track).
Proof.
  intros Hne. split; intros Hin.
  - apply (Permutation_in _ (put_keyframe_perm f v track)) in Hin.
    apply in_app_or in Hin. destruct Hin as [Hin | [<- | []]].
    + apply List.filter_In in Hin. tauto.
    + now simpl in Hne.
  - apply (Permutation_in _ (Permutation_sym (put_keyframe_perm f v track))).
    apply in_or_app. left. apply List.filter_In. split; [exact Hin |].
    apply negb_true_iff, Z.eqb_neq, Hne.
Qed.

Lemma strictly_ascending_frames (l : list Keyframe) :
  strictly_ascending l <-> ascending l /\ NoDup (map frame l).
Proof.
  unfold strictly_ascending, ascending. split.
  - induction 1 as [|a l Hs [IH1 IH2] Ha]; [split; constructor |]. split.
    + constructor; [exact IH1 |]. eapply Forall_impl; [exact Ha |]. simpl. intros. lia.
    + simpl. constructor; [| exact IH2].
      intros Hin. apply list_elem_of_In, in_map_iff in Hin.
      destruct Hin as (y & Hy & Hin). rewrite Forall_forall in Ha.
      apply list_elem_of_In, Ha in Hin. lia.
  - intros [Hs Hn]. induction Hs as [|a l Hs IH Ha]; [constructor |].
    simpl in Hn. apply NoDup_cons in Hn. destruct Hn as [Hna Hn].
    constructor; [now apply IH |].
    rewrite Forall_forall in Ha |- *. intros y Hy. specialize (Ha y Hy).
    assert (frame a <> frame y); [| lia].
    intros He. apply Hna. rewrite He. apply list_elem_of_In, in_map, list_elem_of_In, Hy.
Qed.

(* a track with one keyframe per frame stays so *)
Lemma put_keyframe_strict (f : Z) (v : Vec3 num) (track : list Keyframe) :
  strictly_ascending track -> strictly_ascending (put_keyframe f v track).
Proof.
  intros Hs. apply strictly_ascending_frames in Hs. destruct Hs as [_ Hn].
  apply strictly_ascending_frames. split; [apply put_keyframe_ascending |].
  rewrite (Permutation_map frame (put_keyframe_perm f v track)).
  rewrite map_app. simpl. apply NoDup_app. split; [| split].
  - induction track as [|x l IH]; simpl; [constructor |].
    simpl in Hn. apply NoDup_cons in Hn. destruct Hn as [Hx Hn].
    destruct (frame x =? f); simpl; [now apply IH |].
    apply NoDup_cons. split; [| now apply IH].
    intros Hin. apply Hx. apply list_elem_of_In, in_map_iff in Hin.
    destruct Hin as (y & Hy & Hin). apply List.filter_In in Hin.
    rewrite <- Hy. apply list_elem_of_In, in_map. tauto.
  - intros x Hx Hf. apply list_elem_of_In in Hf. destruct Hf as [<- | []].
    apply list_elem_of_In, in_map_iff in Hx. destruct Hx as (y & Hy & Hin).
    apply List.filter_In in Hin. destruct Hin as [_ Hin].
    apply negb_true_iff, Z.eqb_neq in Hin. congruence.
  - apply NoDup_singleton.
Qed.

(** ** addKeyframe *)

Lemma set_clips_same s : set_clips (clips s) s = s.
Proof. now destruct s. Qed.

Lemma keyframe_one_clips s obj :
  keyframe_one s obj = set_clips (key_clips (currentFrame s) (heap s !! obj) (clips s)) s.
Proof.
  unfold keyframe_one, key_clips. destruct (heap s !! obj) as [o|];
    [| now rewrite set_clips_same].
  unfold is_camera. destruct (kind_eqb (type o) Camera); [| now rewrite set_clips_same].
  unfold keyed_clip, position_track, rotation_track.
  now destruct (clips s !! id o).
Qed.

Lemma keyframe_fold_clips (l : list ref) s :
  fold_left keyframe_one l s =
  set_clips (fold_left (fun c r => key_clips (currentFrame s) (heap s !! r) c) l (clips s)) s.
Proof.
  revert s. induction l as [|x l IH]; intros s; simpl.
  - now rewrite set_clips_same.
  - rewrite IH, keyframe_one_clips. reflexivity.
Qed.

Lemma key_clips_cameras (f : Z) s (l : list ref) (c : gmap Z Clip) :
  fold_left (fun c r => key_clips f (heap s !! r) c) l c =
  fold_left (fun c o => <[id o := keyed_clip f o (c !! id o)]> c)
    (List.filter is_camera (deref s l)) c.
Proof.
  revert c. unfold deref. induction l as [|x l IH]; intros c; simpl; [reflexivity |].
  rewrite IH. unfold key_clips. destruct (heap s !! x) as [o|]; simpl; [| reflexivity].
  now destruct (is_camera o).
Qed.

Lemma keyed_fold_other (f : Z) (cams : list ObjData) (c : gmap Z Clip) (i : Z) :
  ~ In i (map id cams) ->
  fold_left (fun c o => <[id o := keyed_clip f o (c !! id o)]> c) cams c !! i = c !! i.
Proof.
  revert c. induction cams as [|o cams IH]; intros c Hn; simpl; [reflexivity |].
  simpl in Hn. rewrite IH by tauto. apply lookup_insert_ne. tauto.
Qed.

Lemma keyed_fold_in (f : Z) (cams : list ObjData) (c : gmap Z Clip) o :
  NoDup (map id cams) -> In o cams ->
  fold_left (fun c o => <[id o := keyed_clip f o (c !! id o)]> c) cams c !! id o =
  Some (keyed_clip f o (c !! id o)).
Proof.
  revert c. induction cams as [|o1 cams IH]; intros c Hn Hin; [destruct Hin |].
  simpl in Hn |- *. apply NoDup_cons in Hn. destruct Hn as [Hn1 Hn].
  rewrite list_elem_of_In in Hn1. destruct Hin as [-> | Hin].
  - rewrite keyed_fold_other by exact Hn1. apply lookup_insert_eq.
  - rewrite IH by assumption.
    assert (id o1 <> id o) by (intros He; apply Hn1; rewrite He; now apply in_map).
    now rewrite lookup_insert_ne.
Qed.

(* whatever the ids, the clip of a selected camera's id is the keyed clip
   of a selected camera with that id *)
Lemma keyed_fold_some (f : Z) (cams : list ObjData) (c : gmap Z Clip) o :
  In o cams ->
  exists o' old, In o' cams /\ id o' = id o /\
    fold_left (fun c o => <[id o := keyed_clip f o (c !! id o)]> c) cams c !! id o =
    Some (keyed_clip f o' old).
Proof.
  induction cams as [|x cams IH] using rev_ind; intros Hin; [destruct Hin |].
  rewrite fold_left_app. simpl.
  destruct (Z.eq_dec (id x) (id o)) as [He | Hne].
  - exists x. eexists. split; [apply in_or_app; right; now left |].
    split; [exact He |]. rewrite <- He. apply lookup_insert_eq.
  - apply in_app_or in Hin. destruct Hin as [Hin | [-> | []]]; [| congruence].
    destruct (IH Hin) as (o' & old & Ho' & Hid & Hl).
    exists o', old. split; [apply in_or_app; now left |]. split; [exact Hid |].
    now rewrite lookup_insert_ne.
Qed.

Lemma clips_saveState s : clips (saveState theme s) = clips s.
Proof. reflexivity. Qed.

Lemma clips_addKeyframe s :
  clips (addKeyframe theme s) =
  fold_left (fun c o => <[id o := keyed_clip (currentFrame s) o (c !! id o)]> c)
    (selected_cameras s) (clips s).
Proof.
  unfold addKeyframe. rewrite clips_saveState, keyframe_fold_clips. cbn [clips set_clips].
  apply key_clips_cameras.
Qed.

Lemma selected_camera_In s r o :
  In r (selectedObjects s) -> heap s !! r = Some o -> type o = Camera ->
  In o (selected_cameras s).
Proof.
  intros Hr Ho Ht. unfold selected_cameras. apply List.filter_In. split.
  - apply list_elem_of_In. unfold deref. apply list_elem_of_omap.
    exists r. split; [now apply list_elem_of_In | exact Ho].
  - unfold is_camera. now rewrite Ht.
Qed.

(** C5.  addKeyframe records, for every selected camera, position and
    rotation keyframes at the current frame: the clip stored under the
    camera's id holds for each property the former track without its
    keyframes at that frame, plus the new keyframe, sorted; so each track
    has exactly one keyframe at the current frame, also when a keyframe was
    already there.  The values are the camera's own current position and
    rotation when the selected cameras have distinct ids (in general those
    of a selected camera with that id).  The tracks are sorted ascending,
    keep their keyframes of other frames, and stay with one keyframe per
    frame when they were so.  Clips of ids that belong to no selected
    camera are not touched: no keyframe is created for an object that is
    not a camera. *)
Theorem addKeyframe_records s :
  let f := currentFrame s in
  let s' := addKeyframe theme s in
  (forall r o, In r (selectedObjects s) -> heap s !! r = Some o -> type o = Camera ->
     exists o' old, In o' (selected_cameras s) /\ id o' = id o /\
       clips s' !! id o = Some (keyed_clip f o' old) /\
       at_frame f (position_track (clips s' !! id o)) =
         [{| frame := f; value := position (mesh o') |}] /\
       at_frame f (rotation_track (clips s' !! id o)) =
         [{| frame := f; value := rotation (mesh o') |}]) /\
  (NoDup (map id (selected_cameras s)) ->
   forall r o, In r (selectedObjects s) -> heap s !! r = Some o -> type o = Camera ->
     clips s' !! id o = Some (keyed_clip f o (clips s !! id o)) /\
     at_frame f (position_track (clips s' !! id o)) =
       [{| frame := f; value := position (mesh o) |}] /\
     at_frame f (rotation_track (clips s' !! id o)) =
       [{| frame := f; value := rotation (mesh o) |}]) /\
  (forall i, ~ In i (map id (selected_cameras s)) -> clips s' !! i = clips s !! i) /\
  (forall (v : Vec3 num) (track : list Keyframe),
     at_frame f (put_keyframe f v track) = [{| frame := f; value := v |}] /\
     ascending (put_keyframe f v track) /\
     (forall k, frame k <> f -> (In k (put_keyframe f v track) <-> In k track)) /\
     (strictly_ascending track -> strictly_ascending (put_keyframe f v track)) /\
     (forall v' : Vec3 num,
        at_frame f (put_keyframe f v' (put_keyframe f v track)) =
          [{| frame := f; value := v' |}])).
Proof.
  intros f s'. split; [| split; [| split]].
  - intros r o Hr Ho Ht.
    destruct (keyed_fold_some f (selected_cameras s) (clips s) o
                (selected_camera_In s r o Hr Ho Ht)) as (o' & old & Hin & Hid & Hl).
    exists o', old. split; [exact Hin |]. split; [exact Hid |].
    assert (Hc : clips s' !! id o = Some (keyed_clip f o' old))
      by (unfold s'; now rewrite clips_addKeyframe).
    split; [exact Hc |]. rewrite Hc. simpl. split; apply put_keyframe_at_frame.
  - intros Hn r o Hr Ho Ht.
    assert (Hc : clips s' !! id o = Some (keyed_clip f o (clips s !! id o))).
    { unfold s'. rewrite clips_addKeyframe. apply keyed_fold_in; [exact Hn |].
      now apply (selected_camera_In s r). }
    split; [exact Hc |]. rewrite Hc. simpl. split; apply put_keyframe_at_frame.
  - intros i Hi. unfold s'. rewrite clips_addKeyframe. now apply keyed_fold_other.
  - intros v track. split; [apply put_keyframe_at_frame |].
    split; [apply put_keyframe_ascending |].
    split; [intros k Hk; now apply put_keyframe_others |].
    split; [apply put_keyframe_strict |].
    intros v'. apply put_keyframe_at_frame.
Qed.

(** ** Guarded operations *)

Lemma undo_noop s : (length (undoStack s) <= 1)%nat -> undo s = s.
Proof.
  intros Hl. unfold undo.
  now replace (length (undoStack s) <=? 1)%nat with true by (symmetry; now apply Nat.leb_le).
Qed.

Lemma redo_noop s : redoStack s = [] -> redo s = s.
Proof. intros Hr. unfold redo. now rewrite Hr. Qed.

Lemma paste_noop s : clipboard s = None -> paste theme s = s.
Proof. intros Hc. unfold paste. now rewrite Hc. Qed.

(* without a selected camera the loop of addKeyframe changes nothing, and
   the state is saved all the same *)
Lemma addKeyframe_no_camera s :
  selected_cameras s = [] -> addKeyframe theme s = saveState theme s.
Proof.
  intros Hc. unfold addKeyframe. f_equal.
  rewrite keyframe_fold_clips, key_clips_cameras.
  fold (selected_cameras s). rewrite Hc. simpl. apply set_clips_same.
Qed.

(** ** Deleting the selection *)

Lemma delete_one_frame s x :
  heap (delete_one s x) = heap s /\
  cameraTrackTargets (delete_one s x) = cameraTrackTargets s /\
  selectedObjects (delete_one s x) = selectedObjects s /\
  objects (delete_one s x) = List.filter (fun y => negb (Nat.eqb y x)) (objects s) /\
  sceneCameras (delete_one s x) = List.filter (fun y => negb (Nat.eqb y x)) (sceneCameras s).
Proof. unfold delete_one. cbn. destruct (heap s !! x); repeat split; reflexivity. Qed.

Lemma delete_one_clips s x :
  clips (delete_one s x) =
  match heap s !! x with Some o => delete (id o) (clips s) | None => clips s end.
Proof. unfold delete_one. cbn. now destruct (heap s !! x). Qed.

Lemma delete_fold_frame (sel : list ref) s :
  heap (fold_left delete_one sel s) = heap s /\
  cameraTrackTargets (fold_left delete_one sel s) = cameraTrackTargets s.
Proof.
  revert s. induction sel as [|x sel IH]; intros s; simpl; [now split |].
  destruct (IH (delete_one s x)) as [-> ->].
  destruct (delete_one_frame s x) as (-> & -> & _). now split.
Qed.

Lemma delete_fold_objects (sel : list ref) s (x : ref) :
  (In x (objects (fold_left delete_one sel s)) -> In x (objects s) /\ ~ In x sel) /\
  (In x (sceneCameras (fold_left delete_one sel s)) -> In x (sceneCameras s) /\ ~ In x sel).
Proof.
  revert s. induction sel as [|y sel IH]; intros s; simpl; [tauto |].
  destruct (IH (delete_one s y)) as [IH1 IH2].
  destruct (delete_one_frame s y) as (_ & _ & _ & Ho & Hc).
  rewrite Ho in IH1. rewrite Hc in IH2.
  split; intros Hin.
  - apply IH1 in Hin. destruct Hin as [Hin Hn]. apply List.filter_In in Hin.
    destruct Hin as [Hin Hne]. apply negb_true_iff, Nat.eqb_neq in Hne.
    split; [exact Hin |]. intros [He | Hs]; [congruence | tauto].
  - apply IH2 in Hin. destruct Hin as [Hin Hn]. apply List.filter_In in Hin.
    destruct Hin as [Hin Hne]. apply negb_true_iff, Nat.eqb_neq in Hne.
    split; [exact Hin |]. intros [He | Hs]; [congruence | tauto].
Qed.

Lemma delete_fold_clips_none (sel : list ref) s (i : Z) :
  clips s !! i = None -> clips (fold_left delete_one sel s) !! i = None.
Proof.
  revert s. induction sel as [|y sel IH]; intros s Hn; simpl; [exact Hn |].
  apply IH. rewrite delete_one_clips. destruct (heap s !! y); [| exact Hn].
  apply lookup_delete_None. now right.
Qed.

Lemma delete_fold_clips (sel : list ref) s r o :
  In r sel -> heap s !! r = Some o ->
  clips (fold_left delete_one sel s) !! id o = None.
Proof.
  revert s. induction sel as [|y sel IH]; intros s Hin Ho; [destruct Hin |].
  simpl. destruct Hin as [-> | Hin].
  - apply delete_fold_clips_none. rewrite delete_one_clips, Ho. apply lookup_delete_eq.
  - apply IH; [exact Hin |]. destruct (delete_one_frame s y) as (-> & _). exact Ho.
Qed.

(** ** The per-tick look-at *)

Lemma find_by_id_live s (l : list ref) (i : Z) r :
  find_by_id s l i = Some r -> In r l /\ exists o, heap s !! r = Some o /\ id o = i.
Proof.
  unfold find_by_id. intros Hf. apply List.find_some in Hf. destruct Hf as [Hin Hid].
  split; [exact Hin |]. unfold has_id in Hid. destruct (heap s !! r) as [o|]; [| discriminate].
  exists o. split; [reflexivity |]. now apply Z.eqb_eq.
Qed.

(* a binding is applied to live objects only *)
Lemma tracked_pair_live s (entry : Z * Z) (cam : ref) (t : ObjData) :
  tracked_pair s entry = Some (cam, t) ->
  In cam (objects s) /\
  exists target, In target (objects s) /\ heap s !! target = Some t /\ id t = entry.2.
Proof.
  unfold tracked_pair.
  destruct (find_by_id s (objects s) entry.1) as [c|] eqn:Hc; [| discriminate].
  destruct (find_by_id s (objects s) entry.2) as [g|] eqn:Hg; [| discriminate].
  destruct (heap s !! g) as [t'|] eqn:Ht; [| discriminate].
  intros [= <- <-]. apply find_by_id_live in Hc, Hg.
  split; [tauto |]. exists g. destruct Hg as (Hin & o & Ho & Hi).
  rewrite Ht in Ho. injection Ho as <-. tauto.
Qed.

(* a binding with a missing endpoint is skipped *)
Lemma track_one_skip s (entry : Z * Z) :
  find_by_id s (objects s) entry.1 = None \/ find_by_id s (objects s) entry.2 = None ->
  track_one s entry = s.
Proof.
  intros H. unfold track_one, tracked_pair.
  destruct H as [-> | H]; [reflexivity |].
  destruct (find_by_id s (objects s) entry.1); [| reflexivity]. now rewrite H.
Qed.

Lemma track_one_writes_live s (entry : Z * Z) r :
  ~ In r (objects s) -> heap (track_one s entry) !! r = heap s !! r.
Proof.
  intros Hn. unfold track_one.
  destruct (tracked_pair s entry) as [[cam t]|] eqn:Hp; [| reflexivity].
  apply tracked_pair_live in Hp. destruct Hp as [Hc _].
  unfold update_obj. cbn. apply lookup_alter_ne. congruence.
Qed.

(* what is not in the live array is not written by the look-at *)
Lemma updateCameraTracking_writes_live s r :
  ~ In r (objects s) -> heap (updateCameraTracking s) !! r = heap s !! r.
Proof.
  unfold updateCameraTracking.
  generalize (map read_entry (map_to_list (cameraTrackTargets s))).
  intros l. revert s. induction l as [|e l IH]; intros s Hn; simpl; [reflexivity |].
  rewrite IH.
  - now apply track_one_writes_live.
  - destruct (quiet_track_one s e) as [Hr _]. unfold registry in Hr.
    injection Hr as Ho _ _ _. now rewrite Ho.
Qed.

(** C2 (as the code has it).  Deleting the selection removes every selected
    object from the live array and from the scene cameras, empties the
    selection and deletes the object's clip entry.  The track-target map is
    left as it was: bindings that mention the object stay.  The per-tick
    look-at resolves both ends of a binding among the live objects and
    skips the binding when one is missing; it reads and writes live objects
    only, hence not the deleted one. *)
Theorem delete_cascade s r o :
  In r (selectedObjects s) -> heap s !! r = Some o ->
  let s' := deleteSelected theme s in
  ~ In r (objects s') /\
  ~ In r (sceneCameras s') /\
  selectedObjects s' = [] /\
  clips s' !! id o = None /\
  cameraTrackTargets s' = cameraTrackTargets s /\
  (forall t : State, ~ In r (objects t) ->
     (forall entry cam g, tracked_pair t entry = Some (cam, g) ->
        In cam (objects t) /\ cam <> r /\
        exists target, In target (objects t) /\ target <> r /\ heap t !! target = Some g) /\
     (forall entry,
        find_by_id t (objects t) entry.1 = None \/ find_by_id t (objects t) entry.2 = None ->
        track_one t entry = t) /\
     heap (updateCameraTracking t) !! r = heap t !! r).
Proof.
  intros Hr Ho s'.
  assert (Hs' : s' = saveState theme (deselectAll (fold_left delete_one (selectedObjects s) s))).
  { unfold s', deleteSelected. destruct (selectedObjects s); [destruct Hr | reflexivity]. }
  destruct (delete_fold_objects (selectedObjects s) s r) as [Hobj Hcam].
  destruct (delete_fold_frame (selectedObjects s) s) as [_ Htt].
  pose proof (delete_fold_clips (selectedObjects s) s r o Hr Ho) as Hcl.
  rewrite Hs'. cbn.
  split; [intros Hin; apply Hobj in Hin; tauto |].
  split; [intros Hin; apply Hcam in Hin; tauto |].
  split; [reflexivity |].
  split; [exact Hcl |].
  split; [exact Htt |].
  intros t Hn. split; [| split].
  - intros entry cam g Hp. apply tracked_pair_live in Hp.
    destruct Hp as (Hc & target & Ht & Hh & _).
    split; [exact Hc |]. split; [congruence |].
    exists target. split; [exact Ht |]. split; [congruence | exact Hh].
  - apply track_one_skip.
  - now apply updateCameraTracking_writes_live.
Qed.

(** ** restoreState *)

Lemma restore_object_targets s (data : ObjRecord) :
  cameraTrackTargets (restore_object s data) =
  match or_null (r_trackTarget data) with
  | Some t => <[r_id data := t]> (cameraTrackTargets s)
  | None => cameraTrackTargets s
  end.
Proof.
  assert (Hc : cameraTrackTargets (createObjectFromData data s) = cameraTrackTargets s).
  { unfold createObjectFromData. destruct (parse_type _) as [k|]; [| reflexivity].
    cbn. now destruct (kind_eqb k Camera). }
  unfold restore_object. destruct (or_null _); cbn; now rewrite Hc.
Qed.

Lemma restore_object_registry s (data : ObjRecord) :
  match parse_type (r_type data) with
  | Some k =>
      objects (restore_object s data) = objects s ++ [nextRef s] /\
      heap (restore_object s data) = <[nextRef s := object_of_record k data]> (heap s) /\
      nextRef (restore_object s data) = S (nextRef s)
  | None =>
      objects (restore_object s data) = objects s /\
      heap (restore_object s data) = heap s /\
      nextRef (restore_object s data) = nextRef s
  end.
Proof.
  unfold restore_object.
  destruct (parse_type (r_type data)) as [k|] eqn:Hk.
  - destruct (create_known data k s Hk) as (Ho & Hh & Hn & _).
    destruct (or_null _); cbn; auto.
  - rewrite (create_unknown data s Hk). destruct (or_null _); cbn; auto.
Qed.

Lemma deref_insert_fresh (h : gmap ref ObjData) (l : list ref) (n : ref) o :
  Forall (fun r => (r < n)%nat) l ->
  omap (fun r => <[n := o]> h !! r) l = omap (fun r => h !! r) l.
Proof.
  induction 1 as [|r l Hr _ IH]; simpl; [reflexivity |].
  rewrite lookup_insert_ne by lia. destruct (h !! r); [f_equal |]; exact IH.
Qed.

Lemma restore_fold (recs : list ObjRecord) s :
  allocated s ->
  let s' := fold_left restore_object recs s in
  allocated s' /\
  deref s' (objects s') = deref s (objects s) ++ known_objects recs /\
  cameraTrackTargets s' = restore_targets recs (cameraTrackTargets s).
Proof.
  revert s. induction recs as [|data recs IH]; intros s Ha; simpl.
  - unfold known_objects. simpl. now rewrite app_nil_r.
  - pose proof (restore_object_registry s data) as Hr.
    pose proof (restore_object_targets s data) as Ht.
    set (s1 := restore_object s data) in *.
    assert (H1 : allocated s1 /\
      deref s1 (objects s1) =
      deref s (objects s) ++ known_objects [data]).
    { unfold known_objects, allocated, deref in *. simpl.
      destruct (parse_type (r_type data)) as [k|]; simpl;
        destruct Hr as (Ho & Hh & Hn); rewrite Ho, Hh, Hn.
      - split.
        + apply Forall_app. split; [| repeat constructor].
          eapply Forall_impl; [exact Ha |]. simpl. intros. lia.
        + rewrite omap_app. simpl. rewrite lookup_insert_eq.
          now rewrite deref_insert_fresh by exact Ha.
      - split; [exact Ha | now rewrite app_nil_r]. }
    destruct H1 as [Ha1 Hd1]. destruct (IH s1 Ha1) as (Ha' & Hd' & Ht').
    split; [exact Ha' |]. split.
    + rewrite Hd', Hd1, <- app_assoc. f_equal.
      unfold known_objects. simpl. now destruct (parse_type (r_type data)).
    + rewrite Ht', Ht. unfold restore_targets. simpl. reflexivity.
Qed.

(* the state a restore ends in when the data has its [objects] *)
Lemma restoreState_objects (d : StateData) (recs : list ObjRecord) s :
  sd_objects d = Some (map Rec recs) ->
  exists s', restoreState d s = Normal s' /\
    allocated s' /\
    deref s' (objects s') = known_objects recs /\
    cameraTrackTargets s' = restore_targets recs ∅ /\
    clips s' = default ∅ (sd_clips d) /\
    objectIdCounter s' = max_id (live_ids s') /\
    selectedObjects s' = [] /\
    hist s' = hist s.
Proof.
  intros Hd. unfold restoreState. rewrite Hd, restore_objects_Rec.
  set (s2 := set_cameraTrackTargets ∅ (set_sceneCameras [] (set_objects [] (deselectAll s)))).
  assert (Ha : allocated s2) by constructor.
  destruct (restore_fold recs s2 Ha) as (Ha' & Hf & Ht).
  set (s3 := fold_left restore_object recs s2) in *.
  assert (Hh : hist s3 = hist s).
  { unfold s3. rewrite hist_fold by apply hist_restore_object. reflexivity. }
  assert (Hsel : selectedObjects s3 = []).
  { unfold s3. generalize recs. intros l.
    assert (H : selectedObjects s2 = []) by reflexivity. revert H. generalize s2.
    induction l as [|x l IH]; intros t H; simpl; [exact H |]. apply IH.
    unfold restore_object, createObjectFromData.
    destruct (parse_type _) as [k|]; destruct (or_null _); cbn;
      try destruct (kind_eqb k Camera); exact H. }
  eexists. split; [reflexivity |].
  split; [exact Ha' |].
  split; [exact Hf |].
  split; [exact Ht |].
  split; [reflexivity |].
  split; [reflexivity |].
  split; [exact Hsel | exact Hh].
Qed.

(* without [objects] the loop throws on a cleared registry *)
Lemma restoreState_thrown (d : StateData) s :
  sd_objects d = None ->
  restoreState d s =
  Thrown (set_cameraTrackTargets ∅ (set_sceneCameras [] (set_objects [] (deselectAll s)))).
Proof. intros Hd. unfold restoreState. now rewrite Hd. Qed.

Lemma restoreState_snapshot (p : Snapshot) s :
  exists s', restoreState (data_of_snapshot p) s = Normal s' /\
    allocated s' /\
    deref s' (objects s') = known_objects (snap_objects p) /\
    cameraTrackTargets s' = restore_targets (snap_objects p) ∅ /\
    clips s' = snap_clips p /\
    objectIdCounter s' = max_id (live_ids s') /\
    selectedObjects s' = [] /\
    hist s' = hist s.
Proof. now apply (restoreState_objects (data_of_snapshot p) (snap_objects p) s). Qed.

Lemma max_id_ge (l : list Z) : Forall (fun i => i <= max_id l) l /\ 0 <= max_id l.
Proof.
  induction l as [|x l [IH1 IH2]]; simpl; [split; [constructor | lia] |].
  split; [| lia]. constructor; [lia |].
  eapply Forall_impl; [exact IH1 |]. simpl. intros. lia.
Qed.

(* a restore that reads its whole array leaves no id above the counter *)
Lemma restoreState_registry_ok (d : StateData) s :
  (forall recs, sd_objects d = Some recs -> intact recs) ->
  registry_ok (final (restoreState d s)).
Proof.
  intros Hi. destruct (sd_objects d) as [recs|] eqn:Hd.
  - specialize (Hi recs eq_refl). rewrite Hi in Hd.
    destruct (restoreState_objects d _ s Hd) as (s' & -> & Ha & _ & _ & _ & Hc & _).
    split; [exact Ha |]. unfold ids_bounded. cbn [final]. rewrite Hc. apply max_id_ge.
  - rewrite (restoreState_thrown d s Hd). split; constructor.
Qed.

Lemma restoreState_snapshot_ok (p : Snapshot) s :
  registry_ok (final (restoreState (data_of_snapshot p) s)).
Proof.
  apply restoreState_registry_ok. intros recs [= <-]. apply intact_Rec.
Qed.

Lemma or_null_idem (t : option Z) : or_null (or_null t) = or_null t.
Proof. destruct t as [v|]; simpl; [| reflexivity]. destruct (v =? 0) eqn:E; simpl; now rewrite ?E. Qed.

Lemma known_objects_serialized s0 (objs : list ObjData) :
  known_objects (map (serializeObject s0) objs) = objs.
Proof.
  unfold known_objects. induction objs as [|o objs IH]; simpl; [reflexivity |].
  rewrite parse_type_name. simpl. rewrite object_of_serialized. f_equal. exact IH.
Qed.

Lemma restore_targets_keep s0 (objs : list ObjData) (m : gmap Z Z) (i : Z) :
  or_null (cameraTrackTargets s0 !! i) = None \/ ~ In i (map id objs) ->
  restore_targets (map (serializeObject s0) objs) m !! i = m !! i.
Proof.
  revert m. unfold restore_targets.
  induction objs as [|o objs IH]; intros m H; simpl; [reflexivity |].
  rewrite IH by (simpl in H; tauto).
  rewrite or_null_idem. destruct (or_null (cameraTrackTargets s0 !! id o)) eqn:E; [| reflexivity].
  apply lookup_insert_ne. intros He. subst i. simpl in H. destruct H as [H | H]; [congruence | tauto].
Qed.

Lemma restore_targets_set s0 (objs : list ObjData) (m : gmap Z Z) (i t : Z) :
  or_null (cameraTrackTargets s0 !! i) = Some t ->
  In i (map id objs) \/ m !! i = Some t ->
  restore_targets (map (serializeObject s0) objs) m !! i = Some t.
Proof.
  intros Ht. revert m. unfold restore_targets.
  induction objs as [|o objs IH]; intros m H; simpl.
  - destruct H as [[] | H]. exact H.
  - apply IH. rewrite or_null_idem.
    destruct (Z.eq_dec (id o) i) as [He | Hne].
    + right. rewrite He, Ht. apply lookup_insert_eq.
    + simpl in H. destruct H as [[H | H] | H]; [congruence | now left | right].
      destruct (or_null (cameraTrackTargets s0 !! id o));
        [now rewrite lookup_insert_ne | exact H].
Qed.

Lemma or_null_some (t : option Z) (v : Z) : or_null t = Some v -> or_null (Some v) = Some v.
Proof.
  destruct t as [w|]; simpl; [| discriminate].
  destruct (w =? 0) eqn:E; [discriminate |]. intros [= <-]. now rewrite E.
Qed.

(* restoring a snapshot that was taken and serialising again gives it back *)
Lemma restore_taken (p : Snapshot) s :
  taken p -> snapshot (final (restoreState (data_of_snapshot p) s)) = p.
Proof.
  intros [s0 ->].
  destruct (restoreState_snapshot (snapshot s0) s) as (s' & -> & _ & Hd & Ht & Hc & _).
  cbn [final]. unfold snapshot at 1. rewrite Hd, Hc. cbn [snapshot snap_objects snap_clips].
  rewrite known_objects_serialized. unfold snapshot. f_equal.
  apply map_ext_in. intros o Ho. unfold serializeObject. f_equal.
  rewrite Ht. cbn [snapshot snap_objects].
  destruct (or_null (cameraTrackTargets s0 !! id o)) as [t|] eqn:E.
  - rewrite (restore_targets_set s0 _ ∅ (id o) t E) by (left; now apply in_map).
    now apply or_null_some in E.
  - rewrite restore_targets_keep by now left. reflexivity.
Qed.

(** C10.  Round trip: reconstructing from [serializeObject o] appends one
    new object to the registry whose id, kind and transform (position,
    rotation, scale) are those of [o]; the id is the one of the record.
    Hence a restore from the snapshot of a state brings back the same ids
    in the same order, and the whole snapshot, clips and track targets
    included, when serialised again. *)
Theorem serialize_reconstruct_roundtrip :
  (forall s o,
     let data := serializeObject s o in
     let s' := createObjectFromData data s in
     r_id data = id o /\
     exists r o',
       objects s' = objects s ++ [r] /\
       heap s' !! r = Some o' /\
       id o' = id o /\
       type o' = type o /\
       position (mesh o') = position (mesh o) /\
       rotation (mesh o') = rotation (mesh o) /\
       scale (mesh o') = scale (mesh o) /\
       o' = o) /\
  (forall s0 s,
     let s' := final (restoreState (data_of_snapshot (snapshot s0)) s) in
     deref s' (objects s') = deref s0 (objects s0) /\
     live_ids s' = live_ids s0 /\
     snapshot s' = snapshot s0).
Proof.
  split; [apply reconstruct_serialized |].
  intros s0 s s'.
  assert (Hd : deref s' (objects s') = deref s0 (objects s0)).
  { unfold s'. destruct (restoreState_snapshot (snapshot s0) s) as (t & -> & _ & Hd & _).
    cbn [final]. rewrite Hd. cbn [snapshot snap_objects]. apply known_objects_serialized. }
  split; [exact Hd |]. split; [unfold live_ids; now rewrite Hd |].
  apply restore_taken. now exists s0.
Qed.

(** ** Undo and redo *)

Lemma undo_pops s (st : list Snapshot) (p c : Snapshot) :
  undoStack s = st ++ [p; c] ->
  undo s = final (restoreState (data_of_snapshot p)
             (set_redoStack (redoStack s ++ [c]) (set_undoStack (st ++ [p]) s))).
Proof.
  intros Hs. unfold undo. rewrite Hs.
  replace (length (st ++ [p; c]) <=? 1)%nat with false
    by (symmetry; apply Nat.leb_gt; rewrite length_app; simpl; lia).
  change [p; c] with ([p] ++ [c]). rewrite app_assoc, last_snoc. cbn.
  rewrite removelast_last, last_snoc. reflexivity.
Qed.

Lemma redo_pops s (rs : list Snapshot) (c : Snapshot) :
  redoStack s = rs ++ [c] ->
  redo s = final (restoreState (data_of_snapshot c)
             (set_undoStack (undoStack s ++ [c]) (set_redoStack rs s))).
Proof.
  intros Hs. unfold redo. rewrite Hs, last_snoc. cbn. now rewrite removelast_last.
Qed.

Lemma saveState_top s (st : list Snapshot) (p : Snapshot) :
  (2 <= undoLimit theme)%nat -> undoStack s = st ++ [p] ->
  exists st', undoStack (saveState theme s) = st' ++ [p; snapshot s].
Proof.
  intros Hl Hs. rewrite saveState_undoStack, Hs. unfold push_capped.
  rewrite <- app_assoc. simpl.
  destruct (undoLimit theme <? length (st ++ [p; snapshot s]))%nat eqn:E.
  - destruct st as [|x st]; [| now exists st].
    apply Nat.ltb_lt in E. simpl in E. lia.
  - now exists st.
Qed.

Lemma undo_restores s (st : list Snapshot) (p c : Snapshot) :
  undoStack s = st ++ [p; c] -> taken p ->
  snapshot (undo s) = p /\ hist (undo s) = (st ++ [p], redoStack s ++ [c]).
Proof.
  intros Hs Hp. rewrite (undo_pops s st p c Hs). split.
  - now apply restore_taken.
  - now rewrite hist_restoreState.
Qed.

Lemma redo_restores s (rs : list Snapshot) (c : Snapshot) :
  redoStack s = rs ++ [c] -> taken c ->
  snapshot (redo s) = c /\ hist (redo s) = (undoStack s ++ [c], rs).
Proof.
  intros Hs Hc. rewrite (redo_pops s rs c Hs). split.
  - now apply restore_taken.
  - now rewrite hist_restoreState.
Qed.

(* a property of every entry of the history survives all that is done to
   the stacks, provided the pushed snapshots have it *)
Section StackEntries.

Variable P : Snapshot -> Prop.

Lemma entries_same s s' : hist s' = hist s -> entries P s -> entries P s'.
Proof. unfold entries, hist. intros [= -> ->]. auto. Qed.

Lemma entries_saveState s e :
  hist e = hist s -> P (snapshot e) -> entries P s -> entries P (saveState theme e).
Proof.
  unfold entries, hist. intros [= Hu Hr] Hp Ht.
  rewrite saveState_redoStack, app_nil_r, saveState_undoStack, Hu.
  apply Forall_app in Ht. destruct Ht as [Ht _].
  assert (Hall : Forall P (undoStack s ++ [snapshot e])).
  { apply Forall_app. split; [exact Ht |]. constructor; [exact Hp | constructor]. }
  unfold push_capped. destruct (_ <? _)%nat; [| exact Hall].
  destruct (undoStack s ++ [snapshot e]); [constructor | now inversion Hall].
Qed.

(* undo either does nothing or restores an entry of the undo stack *)
Lemma undo_cases s :
  undo s = s \/
  exists st p c,
    undoStack s = st ++ [p; c] /\
    undo s = final (restoreState (data_of_snapshot p)
               (set_redoStack (redoStack s ++ [c]) (set_undoStack (st ++ [p]) s))).
Proof.
  destruct (Nat.leb_spec (length (undoStack s)) 1) as [Hl | Hl].
  - left. now apply undo_noop.
  - right. destruct (undoStack s) as [|c l _] eqn:Hs using rev_ind; [simpl in Hl; lia |].
    destruct l as [|p st _] using rev_ind; [simpl in Hl; lia |].
    rewrite <- app_assoc in Hs. simpl in Hs. exists st, p, c.
    split; [now rewrite <- app_assoc | now apply undo_pops].
Qed.

Lemma redo_cases s :
  redo s = s \/
  exists rs c,
    redoStack s = rs ++ [c] /\
    redo s = final (restoreState (data_of_snapshot c)
               (set_undoStack (undoStack s ++ [c]) (set_redoStack rs s))).
Proof.
  destruct (redoStack s) as [|c rs _] eqn:Hs using rev_ind.
  - left. now apply redo_noop.
  - right. exists rs, c. split; [reflexivity | now apply redo_pops].
Qed.

Lemma entries_undo s : entries P s -> entries P (undo s) /\
  (undo s = s \/ exists p d, P p /\ undo s = final (restoreState (data_of_snapshot p) d)).
Proof.
  intros Ht. destruct (undo_cases s) as [-> | (st & p & c & Hs & Hu)];
    [split; [exact Ht | now left] |].
  assert (Hp : P p).
  { unfold entries in Ht. rewrite Hs in Ht.
    rewrite !Forall_app, !Forall_cons in Ht. tauto. }
  split; [| right; eauto].
  rewrite Hu. eapply entries_same; [apply hist_restoreState |].
  unfold entries in *. cbn. rewrite Hs in Ht.
  rewrite !Forall_app in *. rewrite !Forall_cons in *. tauto.
Qed.

Lemma entries_redo s : entries P s -> entries P (redo s) /\
  (redo s = s \/ exists p d, P p /\ redo s = final (restoreState (data_of_snapshot p) d)).
Proof.
  intros Ht. destruct (redo_cases s) as [-> | (rs & c & Hs & Hu)];
    [split; [exact Ht | now left] |].
  assert (Hp : P c).
  { unfold entries in Ht. rewrite Hs in Ht.
    rewrite !Forall_app, !Forall_cons in Ht. tauto. }
  split; [| right; eauto].
  rewrite Hu. eapply entries_same; [apply hist_restoreState |].
  unfold entries in *. cbn. rewrite Hs in Ht.
  rewrite !Forall_app in *. rewrite !Forall_cons in *. tauto.
Qed.

End StackEntries.

Lemma taken_saveState s e :
  hist e = hist s -> stacks_taken s -> stacks_taken (saveState theme e).
Proof. intros He. apply (entries_saveState taken); [exact He | now exists e]. Qed.

Lemma taken_step s (c : command) : stacks_taken s -> stacks_taken (step theme s c).
Proof.
  intros Hb. destruct (step_history s c) as [H | [(e & He & ->) | [-> | ->]]].
  - eapply (entries_same taken); [exact H | exact Hb].
  - eapply taken_saveState; [exact He | exact Hb].
  - now apply (entries_undo taken).
  - now apply (entries_redo taken).
Qed.

Lemma taken_run (cs : list command) s :
  stacks_taken s -> stacks_taken (run theme cs s).
Proof.
  revert s. induction cs as [|c cs IH]; intros s Hb; [exact Hb |].
  apply IH. now apply taken_step.
Qed.

Lemma taken_init : stacks_taken (init theme).
Proof.
  unfold init. eapply taken_saveState; [reflexivity |].
  apply (taken_step _ AddQuad).
  eapply (entries_same taken); [apply quiet_setGridPlane |]. constructor.
Qed.

(** C1.  Undo/redo inverse law.  In every state of a session the history
    stacks hold snapshots that saveState took.  On such a state, with a cap
    of at least two entries: undo right after a commit restores the
    registry and the clips to the snapshot that was on top of the undo
    stack before the commit, and a redo then restores the committed state;
    more generally undo restores the entry below the top and moves the top
    to the redo stack, and redo after undo restores the entry that undo
    removed and puts both stacks back.  Undo with at most one entry and
    redo with an empty redo stack change nothing. *)
Theorem undo_redo_inverse :
  (2 <= undoLimit theme)%nat ->
  (forall cs : list command, stacks_taken (run theme cs (init theme))) /\
  (forall s, stacks_taken s ->
     (forall st p, undoStack s = st ++ [p] ->
        snapshot (undo (saveState theme s)) = p /\
        snapshot (redo (undo (saveState theme s))) = snapshot s) /\
     (forall st p c, undoStack s = st ++ [p; c] ->
        snapshot (undo s) = p /\
        undoStack (undo s) = st ++ [p] /\
        redoStack (undo s) = redoStack s ++ [c] /\
        snapshot (redo (undo s)) = c /\
        hist (redo (undo s)) = hist s) /\
     ((length (undoStack s) <= 1)%nat -> undo s = s) /\
     (redoStack s = [] -> redo s = s)).
Proof.
  intros Hl. split; [intros cs; apply taken_run, taken_init |].
  intros s Ht.
  assert (Hgen : forall s, stacks_taken s -> forall st p c, undoStack s = st ++ [p; c] ->
    snapshot (undo s) = p /\
    undoStack (undo s) = st ++ [p] /\
    redoStack (undo s) = redoStack s ++ [c] /\
    snapshot (redo (undo s)) = c /\
    hist (redo (undo s)) = hist s).
  { clear s Ht. intros s Ht st p c Hs.
    assert (Hp : taken p /\ taken c).
    { unfold stacks_taken, entries in Ht. rewrite Hs in Ht.
      rewrite !Forall_app, !Forall_cons in Ht. tauto. }
    destruct (undo_restores s st p c Hs) as [Hu Hh]; [tauto |].
    injection Hh as Hh1 Hh2.
    destruct (redo_restores (undo s) (redoStack s) c Hh2) as [Hr Hh']; [tauto |].
    repeat (split; [assumption |]).
    rewrite Hh', Hh1, <- app_assoc. unfold hist. now rewrite Hs. }
  split; [| split; [now apply Hgen | split; [apply undo_noop | apply redo_noop]]].
  intros st p Hs.
  destruct (saveState_top s st p Hl Hs) as [st' Hs'].
  assert (Ht' : stacks_taken (saveState theme s))
    by (eapply taken_saveState; [reflexivity | exact Ht]).
  destruct (Hgen _ Ht' st' p (snapshot s) Hs') as (H1 & _ & _ & H2 & _).
  now split.
Qed.

(** ** Ids *)

Lemma ids_of_app s (l1 l2 : list ref) : ids_of s (l1 ++ l2) = ids_of s l1 ++ ids_of s l2.
Proof. unfold ids_of, deref. now rewrite omap_app, map_app. Qed.

Lemma ids_of_cons s r (l : list ref) :
  ids_of s (r :: l) = match heap s !! r with Some o => id o :: ids_of s l | None => ids_of s l end.
Proof. unfold ids_of, deref. simpl. now destruct (heap s !! r). Qed.

Lemma ids_of_stable s e (l : list ref) :
  (forall r, In r l -> id <$> (heap e !! r) = id <$> (heap s !! r)) ->
  ids_of e l = ids_of s l.
Proof.
  induction l as [|r l IH]; intros H; [reflexivity |].
  rewrite !ids_of_cons. rewrite IH by (intros; apply H; now right).
  specialize (H r (or_introl eq_refl)).
  destruct (heap e !! r), (heap s !! r); simpl in H; congruence.
Qed.

Lemma registry_ids s e r :
  registry e = registry s -> id <$> (heap e !! r) = id <$> (heap s !! r).
Proof. unfold registry. intros [= _ _ _ H]. now rewrite <- !lookup_fmap, H. Qed.

Lemma registry_ids_of s e (l : list ref) :
  registry e = registry s -> ids_of e l = ids_of s l.
Proof. intros H. apply ids_of_stable. intros r _. now apply registry_ids. Qed.

Lemma registry_live_ids s e : registry e = registry s -> live_ids e = live_ids s.
Proof.
  intros H. change (ids_of e (objects e) = ids_of s (objects s)).
  rewrite (registry_ids_of s e _ H). unfold registry in H. now injection H as -> _ _ _.
Qed.

Lemma registry_saveState s : registry (saveState theme s) = registry s.
Proof. reflexivity. Qed.

Lemma allocated_stable s e (l : list ref) :
  (forall r, (r < nextRef s)%nat -> id <$> (heap e !! r) = id <$> (heap s !! r)) ->
  Forall (fun r => (r < nextRef s)%nat) l -> ids_of e l = ids_of s l.
Proof.
  intros H Hl. apply ids_of_stable. intros r Hr. apply H.
  rewrite Forall_forall in Hl. now apply Hl, list_elem_of_In.
Qed.

Lemma appends_refl s : allocated s -> appends s s.
Proof.
  intros Ha. split; [reflexivity |]. split; [exact Ha |].
  split; [lia |]. split; [lia |]. split; [reflexivity |].
  exists []. rewrite app_nil_r. split; [reflexivity |]. split; constructor.
Qed.

Lemma appends_trans s1 s2 s3 : appends s1 s2 -> appends s2 s3 -> appends s1 s3.
Proof.
  intros (Hh1 & Ha1 & Hn1 & Hc1 & Hs1 & n1 & Ho1 & Hsort1 & Hb1)
         (Hh2 & Ha2 & Hn2 & Hc2 & Hs2 & n2 & Ho2 & Hsort2 & Hb2).
  split; [congruence |]. split; [exact Ha2 |]. split; [lia |]. split; [lia |].
  split; [intros r Hr; rewrite Hs2 by lia; now apply Hs1 |].
  exists (n1 ++ n2). split; [now rewrite Ho2, Ho1, app_assoc |].
  assert (Hn1' : ids_of s3 n1 = ids_of s2 n1).
  { apply (allocated_stable s2 s3); [exact Hs2 |].
    unfold allocated in Ha1. rewrite Ho1 in Ha1. now apply Forall_app in Ha1. }
  rewrite ids_of_app, Hn1'. split.
  - apply StronglySorted_app. split; [| split; assumption].
    intros x y Hx Hy. rewrite Forall_forall in Hb1, Hb2.
    specialize (Hb1 x Hx). specialize (Hb2 y Hy). lia.
  - apply Forall_app. split.
    + eapply Forall_impl; [exact Hb1 |]. simpl. intros. lia.
    + eapply Forall_impl; [exact Hb2 |]. simpl. intros. lia.
Qed.

Lemma appends_quiet s e : allocated s -> quiet s e -> appends s e.
Proof.
  intros Ha [Hr Hh]. pose proof Hr as Hr'. unfold registry in Hr'.
  injection Hr' as Ho Hn Hc Hi.
  split; [exact Hh |]. split; [unfold allocated; now rewrite Ho, Hn |].
  split; [lia |]. split; [lia |].
  split; [intros r _; now apply registry_ids |].
  exists []. rewrite app_nil_r. repeat split; [exact Ho | constructor | constructor].
Qed.

Lemma appends_fold {T} (f : State -> T -> State) (l : list T) :
  (forall s x, allocated s -> appends s (f s x)) ->
  forall s, allocated s -> appends s (fold_left f l s).
Proof.
  intros Hf. induction l as [|x l IH]; intros s Ha; simpl; [now apply appends_refl |].
  eapply appends_trans; [now apply Hf |]. apply IH. now apply (Hf s x Ha).
Qed.

(* an appended state keeps the old ids in front and adds the created ones *)
Lemma appends_live_ids s e :
  allocated s -> appends s e ->
  live_ids e = live_ids s ++ created s e /\
  StronglySorted Z.lt (created s e) /\
  Forall (fun i => objectIdCounter s < i <= objectIdCounter e) (created s e).
Proof.
  intros Ha (_ & _ & _ & _ & Hs & n & Ho & Hsort & Hb).
  assert (Hc : created s e = ids_of e n).
  { unfold created. now rewrite Ho, drop_app_length. }
  rewrite Hc. split; [| now split].
  change (ids_of e (objects e) = ids_of s (objects s) ++ ids_of e n).
  rewrite Ho, ids_of_app. f_equal. now apply (allocated_stable s e).
Qed.

Lemma appends_registry_ok s e : registry_ok s -> appends s e -> registry_ok e.
Proof.
  intros [Ha Hb] Hap. destruct (appends_live_ids s e Ha Hap) as (Hl & _ & Hn).
  destruct Hap as (_ & Ha' & _ & Hc & _). split; [exact Ha' |].
  unfold ids_bounded in *. rewrite Hl. apply Forall_app. split.
  - eapply Forall_impl; [exact Hb |]. simpl. intros. lia.
  - eapply Forall_impl; [exact Hn |]. simpl. intros. lia.
Qed.

Lemma create_counter (data : ObjRecord) s :
  objectIdCounter (createObjectFromData data s) = objectIdCounter s.
Proof.
  unfold createObjectFromData. destruct (parse_type _) as [k|]; [| reflexivity].
  cbn. now destruct (kind_eqb k Camera).
Qed.

(* one object pushed at the next free address *)
Lemma appends_pushed s e o :
  allocated s -> hist e = hist s ->
  objects e = objects s ++ [nextRef s] ->
  heap e = <[nextRef s := o]> (heap s) ->
  nextRef e = S (nextRef s) ->
  objectIdCounter s < id o <= objectIdCounter e ->
  appends s e.
Proof.
  intros Ha Hh Ho Hp Hn Hi.
  split; [exact Hh |]. split.
  { unfold allocated in *. rewrite Ho, Hn. apply Forall_app. split; [| repeat constructor].
    eapply Forall_impl; [exact Ha |]. simpl. intros. lia. }
  split; [lia |]. split; [lia |].
  split; [intros r Hr; rewrite Hp, lookup_insert_ne by lia; reflexivity |].
  exists [nextRef s]. split; [exact Ho |].
  rewrite ids_of_cons, Hp, lookup_insert_eq. unfold ids_of, deref. simpl.
  split; repeat constructor; lia.
Qed.

Lemma appends_bump s (c : Z) :
  allocated s -> objectIdCounter s <= c -> appends s (set_objectIdCounter c s).
Proof.
  intros Ha Hc. split; [reflexivity |]. split; [exact Ha |].
  split; [cbn; lia |]. split; [exact Hc |]. split; [reflexivity |].
  exists []. cbn. rewrite app_nil_r. split; [reflexivity |]. split; constructor.
Qed.

Lemma appends_create_and_select (data : ObjRecord) s :
  allocated s -> r_id data = objectIdCounter s + 1 ->
  appends s (create_and_select data (set_objectIdCounter (objectIdCounter s + 1) s)).
Proof.
  intros Ha Hid. unfold create_and_select.
  set (s1 := set_objectIdCounter (objectIdCounter s + 1) s).
  assert (H1 : appends s (createObjectFromData data s1)).
  { destruct (parse_type (r_type data)) as [k|] eqn:Hk.
    - destruct (create_known data k s1 Hk) as (Ho & Hp & Hn & _).
      apply (appends_pushed s _ (object_of_record k data)); try assumption.
      + now rewrite hist_createObjectFromData.
      + rewrite create_counter. simpl. lia.
    - rewrite (create_unknown data s1 Hk). apply appends_bump; [exact Ha | lia]. }
  destruct (find_by_id _ _ _) as [newObj|]; [| exact H1].
  eapply appends_trans; [exact H1 |].
  apply appends_quiet; [now destruct H1 as (_ & ? & _) | apply quiet_addToSelection].
Qed.

(* up to 2^53 a sum of integers is the double that holds it *)
Lemma double_round_exact (n : Z) : Z.abs n <= 2 ^ 53 -> double_round n = n.
Proof.
  intros H. unfold double_round. cbv zeta.
  destruct (Z.abs n <=? 2 ^ 53) eqn:E; [reflexivity | lia].
Qed.

(* rounding keeps the sign *)
Lemma double_round_sign (n : Z) :
  (0 <= n -> 0 <= double_round n) /\ (n <= 0 -> double_round n <= 0).
Proof.
  unfold double_round. cbv zeta. destruct (Z.abs n <=? 2 ^ 53); [lia |].
  set (e := Z.log2 (Z.abs n) - 52).
  assert (H2 : 0 <= 2 ^ e) by (apply Z.pow_nonneg; lia).
  assert (Hq : 0 <= Z.abs n / 2 ^ e) by (apply Z_div_nonneg_nonneg; lia).
  match goal with |- context [Z.sgn n * (?x * _)] => set (q' := x) end.
  assert (Hq' : 0 <= q') by (subst q'; destruct (_ || _); lia).
  assert (Hp : 0 <= q' * 2 ^ e) by nia.
  split; intros Hn; [assert (0 <= Z.sgn n) by lia | assert (Z.sgn n <= 0) by lia]; nia.
Qed.

(* with room for one more id, ++objectIdCounter is the next integer *)
Lemma next_id s :
  Z.abs (objectIdCounter s) + 1 <= 2 ^ 53 ->
  double_round (objectIdCounter s + 1) = objectIdCounter s + 1.
Proof. intros H. apply double_round_exact. lia. Qed.

Lemma counter_create_and_select (data : ObjRecord) s :
  objectIdCounter (create_and_select data s) = objectIdCounter s.
Proof.
  unfold create_and_select. destruct (find_by_id _ _ _) as [r|]; [| apply create_counter].
  destruct (quiet_addToSelection r (createObjectFromData data s)) as [Hr _].
  unfold registry in Hr. injection Hr as _ _ Hc _. rewrite Hc. apply create_counter.
Qed.

Lemma appends_paste_one s (data : ObjRecord) :
  allocated s -> Z.abs (objectIdCounter s) + 1 <= 2 ^ 53 ->
  appends s (paste_one s data) /\
  objectIdCounter (paste_one s data) <= objectIdCounter s + 1.
Proof.
  intros Ha Hr. unfold paste_one. rewrite (next_id s Hr). split.
  - now apply appends_create_and_select.
  - rewrite counter_create_and_select. cbn. lia.
Qed.

Lemma appends_duplicate_ref s r :
  allocated s -> Z.abs (objectIdCounter s) + 1 <= 2 ^ 53 ->
  appends s (duplicate_ref s r) /\
  objectIdCounter (duplicate_ref s r) <= objectIdCounter s + 1.
Proof.
  intros Ha Hr. unfold duplicate_ref.
  destruct (heap s !! r); [| split; [now apply appends_refl | lia]].
  unfold duplicate_one. rewrite (next_id s Hr). split.
  - now apply appends_create_and_select.
  - rewrite counter_create_and_select. cbn. lia.
Qed.

(* a loop that takes at most one id per turn, with room for every turn *)
Lemma appends_fold_room {T} (f : State -> T -> State) (l : list T) :
  (forall s x, allocated s -> Z.abs (objectIdCounter s) + 1 <= 2 ^ 53 ->
     appends s (f s x) /\ objectIdCounter (f s x) <= objectIdCounter s + 1) ->
  forall s, allocated s ->
    Z.abs (objectIdCounter s) + Z.of_nat (length l) <= 2 ^ 53 ->
    appends s (fold_left f l s).
Proof.
  intros Hf. induction l as [|x l IH]; intros s Ha Hr; simpl; [now apply appends_refl |].
  cbn [length] in Hr. destruct (Hf s x Ha) as [Hap Hc]; [lia |].
  eapply appends_trans; [exact Hap |]. apply IH; [apply Hap |].
  destruct Hap as (_ & _ & _ & Hle & _). lia.
Qed.

Lemma appends_addObject (k : kind) prefix (m : Mesh) s :
  allocated s -> Z.abs (objectIdCounter s) + 1 <= 2 ^ 53 ->
  exists e, addObject theme k prefix m s = saveState theme e /\ appends s e.
Proof.
  intros Ha Hroom. unfold addObject. rewrite (next_id s Hroom).
  cbn. eexists. split; [reflexivity |].
  eapply appends_trans; [| apply appends_quiet; [| apply quiet_selectObject]].
  - eapply (appends_pushed s _ {| id := objectIdCounter s + 1;
      name := prefix +:+ pretty (objectIdCounter s + 1); type := k; mesh := m |});
      [exact Ha | | | | | ]; destruct (kind_eqb k Camera); cbn; try reflexivity; lia.
  - unfold allocated in *. destruct (kind_eqb k Camera); cbn;
      (apply Forall_app; split; [| repeat constructor]);
      (eapply Forall_impl; [exact Ha |]); simpl; intros; lia.
Qed.

(** ** Removing objects *)

Lemma filter_filter (f g : ref -> bool) (l : list ref) :
  List.filter f (List.filter g l) = List.filter (fun x => g x && f x) l.
Proof.
  induction l as [|x l IH]; simpl; [reflexivity |].
  destruct (g x); simpl; [destruct (f x); now rewrite IH | exact IH].
Qed.

Lemma filter_all (l : list ref) : List.filter (fun _ => true) l = l.
Proof. induction l as [|x l IH]; simpl; [reflexivity | now rewrite IH]. Qed.

Lemma shrinks_delete_fold (sel : list ref) s : shrinks s (fold_left delete_one sel s).
Proof.
  revert s. induction sel as [|x sel IH]; intros s; simpl.
  - repeat (split; [reflexivity |]). exists (fun _ => true). now rewrite filter_all.
  - destruct (IH (delete_one s x)) as (Hh & Hn & Hc & Hp & keep & Ho).
    destruct (delete_one_frame s x) as (Hp1 & _ & _ & Ho1 & _).
    split; [now rewrite Hh, hist_delete_one |].
    split; [rewrite Hn; unfold delete_one; cbn; now destruct (heap s !! x) |].
    split; [rewrite Hc; unfold delete_one; cbn; now destruct (heap s !! x) |].
    split; [congruence |].
    eexists. rewrite Ho, Ho1. apply filter_filter.
Qed.

Lemma ids_of_filter s (keep : ref -> bool) (l : list ref) (P : Z -> Prop) :
  (Forall P (ids_of s l) -> Forall P (ids_of s (List.filter keep l))) /\
  (NoDup (ids_of s l) -> NoDup (ids_of s (List.filter keep l))) /\
  (forall i, In i (ids_of s (List.filter keep l)) -> In i (ids_of s l)).
Proof.
  induction l as [|r l (IH1 & IH2 & IH3)]; simpl; [repeat split; auto |].
  rewrite ids_of_cons.
  destruct (keep r); [rewrite ids_of_cons |]; destruct (heap s !! r) as [o|];
    repeat split; try assumption.
  - intros H. inversion H; subst. constructor; auto.
  - intros H. apply NoDup_cons in H. destruct H as [Hn H]. apply NoDup_cons.
    split; [| auto]. rewrite list_elem_of_In in *. intros Hi. apply Hn. auto.
  - intros i [-> | Hi]; [now left | right; auto].
  - intros H. inversion H; subst. auto.
  - intros H. apply NoDup_cons in H. destruct H as [_ H]. auto.
  - intros i Hi. right. auto.
Qed.

Lemma shrinks_registry_ok s e : registry_ok s -> shrinks s e -> registry_ok e.
Proof.
  intros [Ha Hb] (_ & Hn & Hc & Hp & keep & Ho). split.
  - unfold allocated in *. rewrite Ho, Hn. rewrite Forall_forall in Ha |- *.
    intros r Hr. apply Ha. apply list_elem_of_In in Hr. apply List.filter_In in Hr.
    now apply list_elem_of_In.
  - unfold ids_bounded in *. rewrite Hc.
    change (Forall (fun i => i <= objectIdCounter s) (ids_of e (objects e))).
    assert (He : ids_of e (objects e) = ids_of s (objects e))
      by (unfold ids_of, deref; now rewrite Hp).
    rewrite He, Ho. now apply ids_of_filter.
Qed.

Lemma shrinks_NoDup s e : NoDup (live_ids s) -> shrinks s e -> NoDup (live_ids e).
Proof.
  intros Hd (_ & _ & _ & Hp & keep & Ho).
  change (NoDup (ids_of e (objects e))).
  assert (He : ids_of e (objects e) = ids_of s (objects e))
    by (unfold ids_of, deref; now rewrite Hp).
  rewrite He, Ho. now apply (ids_of_filter s keep (objects s) (fun _ => True)).
Qed.

(** ** The registry along a session *)

Lemma shrinks_deselectAll s e : shrinks s e -> shrinks s (deselectAll e).
Proof. intros (Hh & Hn & Hc & Hp & keep & Ho). repeat (split; [assumption |]). now exists keep. Qed.

Lemma has_room_one s (c : command) :
  has_room s c -> room s c = 1 -> Z.abs (objectIdCounter s) + 1 <= 2 ^ 53.
Proof. unfold has_room. intros H E. rewrite E in H. apply H. lia. Qed.

Lemma appends_paste s :
  allocated s -> has_room s Paste -> clipboard s = None \/
  exists e, paste theme s = saveState theme e /\ appends s e.
Proof.
  intros Ha Hr. unfold paste. unfold has_room, room in Hr.
  destruct (clipboard s) as [cb|]; [| now left].
  right. eexists. split; [reflexivity |].
  eapply appends_trans; [apply appends_quiet; [exact Ha | apply quiet_deselectAll] |].
  destruct cb as [|x cb]; [now apply appends_refl |].
  apply appends_fold_room; [intros; now apply appends_paste_one | exact Ha |].
  apply Hr. cbn [length]. lia.
Qed.

Lemma appends_duplicateSelected s :
  allocated s -> has_room s Duplicate -> selectedObjects s = [] \/
  exists e, duplicateSelected theme s = saveState theme e /\ appends s e.
Proof.
  intros Ha Hr. unfold duplicateSelected. unfold has_room, room in Hr.
  destruct (selectedObjects s) as [|x l] eqn:E; [now left |].
  right. eexists. split; [reflexivity |].
  eapply appends_trans; [apply appends_quiet; [exact Ha | apply quiet_deselectAll] |].
  apply appends_fold_room; [intros; now apply appends_duplicate_ref | exact Ha |].
  apply Hr. cbn [length]. lia.
Qed.

(* what a command does to the registry *)
Lemma step_registry s (c : command) :
  allocated s -> has_room s c ->
  quiet s (step theme s c) \/
  (exists e, step theme s c = saveState theme e /\ appends s e) \/
  (exists e, step theme s c = saveState theme e /\ shrinks s e) \/
  c = Undo \/ c = Redo \/ (exists parsed, c = Load parsed).
Proof.
  intros Ha Hroom.
  assert (Hq : forall e, quiet s e ->
    exists e', saveState theme e = saveState theme e' /\ appends s e').
  { intros e He. exists e. split; [reflexivity | now apply appends_quiet]. }
  destruct c; cbn [step].
  - right. left. apply appends_addObject; [exact Ha | now apply (has_room_one s AddQuad)].
  - right. left. apply appends_addObject; [exact Ha | now apply (has_room_one s AddCube)].
  - right. left. apply appends_addObject; [exact Ha | now apply (has_room_one s AddCamera)].
  - left. apply quiet_copy.
  - destruct (appends_paste s Ha Hroom) as [Hc | He]; [| right; left; exact He].
    left. rewrite (paste_noop s Hc). apply quiet_refl.
  - destruct (appends_duplicateSelected s Ha Hroom) as [Hc | He]; [| right; left; exact He].
    left. unfold duplicateSelected. rewrite Hc. apply quiet_refl.
  - unfold deleteSelected. destruct (selectedObjects s) as [|x l] eqn:E;
      [left; apply quiet_refl |].
    right. right. left. eexists. split; [reflexivity |].
    apply shrinks_deselectAll, shrinks_delete_fold.
  - right. right. right. now left.
  - right. right. right. right. now left.
  - left. apply quiet_selectObject.
  - left. apply quiet_selectAll.
  - left. apply quiet_deselectAll.
  - right. left. unfold renameObject. apply Hq. apply quiet_update_obj. reflexivity.
  - right. left. unfold editTransform. apply Hq. apply quiet_edit_fields.
  - left. apply quiet_dragGizmo.
  - right. left. unfold releaseGizmo. apply Hq. apply quiet_refl.
  - left. apply quiet_setGridPlane.
  - right. left. unfold addKeyframe. apply Hq. apply quiet_fold. apply quiet_keyframe_one.
  - left. split; reflexivity.
  - left. apply quiet_stopPlayback.
  - left. apply quiet_seek.
  - left. apply quiet_stepFrame.
  - left. apply quiet_prevKeyframe.
  - left. apply quiet_nextKeyframe.
  - right. left. unfold setCameraTrackTarget.
    destruct (or_null targetId); apply Hq; split; reflexivity.
  - left. apply quiet_animate.
  - right. right. right. right. right. eauto.
Qed.

Lemma registry_ok_same s e : registry e = registry s -> registry_ok s -> registry_ok e.
Proof.
  intros Hr [Ha Hb]. pose proof (registry_live_ids s e Hr) as Hl.
  unfold registry in Hr. injection Hr as Ho Hn Hc _. split.
  - unfold allocated. now rewrite Ho, Hn.
  - unfold ids_bounded. now rewrite Hl, Hc.
Qed.

Lemma registry_ok_step s (c : command) :
  registry_ok s -> sound_load c -> has_room s c -> registry_ok (step theme s c).
Proof.
  intros Hok Hsound Hroom. destruct (step_registry s c (proj1 Hok) Hroom)
    as [[Hr _] | [(e & -> & He) | [(e & -> & He) | [-> | [-> | [parsed ->]]]]]].
  - now apply (registry_ok_same s).
  - apply (registry_ok_same e); [reflexivity | now apply (appends_registry_ok s)].
  - apply (registry_ok_same e); [reflexivity | now apply (shrinks_registry_ok s)].
  - cbn [step]. destruct (undo_cases s) as [-> | (st & p & c & _ & ->)];
      [exact Hok | apply restoreState_snapshot_ok].
  - cbn [step]. destruct (redo_cases s) as [-> | (rs & c & _ & ->)];
      [exact Hok | apply restoreState_snapshot_ok].
  - cbn [step]. unfold load. destruct parsed as [data|]; [| exact Hok].
    apply restoreState_registry_ok. cbn [data_of_file sd_objects]. intros recs Hf.
    cbn [sound_load] in Hsound. now rewrite Hf in Hsound.
Qed.

(* a command that creates nothing asks for no id *)
Lemma has_room_none s (c : command) : room s c = 0 -> has_room s c.
Proof. unfold has_room. intros ->. lia. Qed.

Lemma has_room_setGridPlane plane (c : command) :
  room (setGridPlane plane (constructed theme)) c <= 1 ->
  has_room (setGridPlane plane (constructed theme)) c.
Proof.
  intros Hle Hpos.
  destruct (quiet_setGridPlane plane (constructed theme)) as [Hr _].
  unfold registry in Hr. injection Hr as _ _ Hc _. rewrite Hc. cbn. lia.
Qed.

Lemma registry_ok_init : registry_ok (init theme).
Proof.
  unfold init. eapply registry_ok_same; [apply registry_saveState |].
  apply (registry_ok_step _ AddQuad); [| exact I | now apply has_room_setGridPlane].
  eapply registry_ok_same; [apply quiet_setGridPlane |].
  split; constructor.
Qed.

Lemma registry_ok_run (cs : list command) s :
  Forall sound_load cs -> roomy theme cs s ->
  registry_ok s -> registry_ok (run theme cs s).
Proof.
  revert s. induction cs as [|c cs IH]; intros s Hs Hr H; [exact H |].
  inversion Hs; subst. destruct Hr as [Hr1 Hr2].
  apply IH; [assumption | exact Hr2 | now apply registry_ok_step].
Qed.

(* a creating operation pushes objects and saves *)
Lemma creates_appends s (c : command) :
  allocated s -> creates c = true -> has_room s c ->
  exists e, appends s e /\ registry (step theme s c) = registry e.
Proof.
  intros Ha Hc Hroom. destruct c; try discriminate Hc; cbn [step].
  - destruct (appends_addObject Quad "Quad_"
      (set_rotation (vec3 neg_half_pi (of_int 0) (of_int 0)) newMesh) s Ha
      (has_room_one s AddQuad Hroom eq_refl)) as (e & He & Hap).
    exists e. split; [exact Hap |]. unfold addQuad. now rewrite He.
  - destruct (appends_addObject Cube "Cube_"
      (set_position (vec3 (of_int 0) half (of_int 0)) newMesh) s Ha
      (has_room_one s AddCube Hroom eq_refl)) as (e & He & Hap).
    exists e. split; [exact Hap |]. unfold addCube. now rewrite He.
  - destruct (appends_addObject Camera "Camera_"
      (set_rotation (lookAt (vec3 (of_int 2) (of_int 2) (of_int 2))
                            (vec3 (of_int 0) (of_int 0) (of_int 0)))
         (set_position (vec3 (of_int 2) (of_int 2) (of_int 2)) newMesh)) s Ha
      (has_room_one s AddCamera Hroom eq_refl))
      as (e & He & Hap).
    exists e. split; [exact Hap |]. unfold addCamera. now rewrite He.
  - destruct (appends_paste s Ha Hroom) as [Hn | (e & -> & Hap)].
    + exists s. split; [now apply appends_refl | now rewrite (paste_noop s Hn)].
    + exists e. now split.
  - destruct (appends_duplicateSelected s Ha Hroom) as [Hn | (e & -> & Hap)].
    + exists s. split; [now apply appends_refl |]. unfold duplicateSelected. now rewrite Hn.
    + exists e. now split.
Qed.

Lemma created_same s e e' : registry e' = registry e -> created s e' = created s e.
Proof.
  intros Hr. unfold created. rewrite (registry_ids_of e e' _ Hr).
  unfold registry in Hr. now injection Hr as -> _ _ _.
Qed.

Lemma sorted_lt_NoDup (l : list Z) : StronglySorted Z.lt l -> NoDup l.
Proof.
  induction 1 as [|x l _ IH Hx]; constructor; [| exact IH].
  intros Hin. rewrite Forall_forall in Hx. specialize (Hx x Hin). lia.
Qed.

Lemma appends_NoDup s e :
  registry_ok s -> NoDup (live_ids s) -> appends s e -> NoDup (live_ids e).
Proof.
  intros [Ha Hb] Hd Hap. destruct (appends_live_ids s e Ha Hap) as (-> & Hs & Hn).
  apply NoDup_app. split; [exact Hd |]. split; [| now apply sorted_lt_NoDup].
  intros x Hx Hx'. unfold ids_bounded in Hb. rewrite Forall_forall in Hb, Hn.
  specialize (Hb x Hx). specialize (Hn x Hx'). lia.
Qed.

Lemma distinct_snapshot s : NoDup (live_ids s) -> distinct_ids (snapshot s).
Proof.
  intros H. unfold distinct_ids, snapshot. cbn [snap_objects].
  now rewrite known_objects_serialized.
Qed.

Lemma restore_live_ids (d : StateData) (recs : list ObjRecord) s :
  sd_objects d = Some (map Rec recs) ->
  live_ids (final (restoreState d s)) = map id (known_objects recs).
Proof.
  intros Hd. destruct (restoreState_objects d recs s Hd) as (s' & -> & _ & Hf & _).
  cbn [final]. unfold live_ids. now rewrite Hf.
Qed.

Lemma distinct_step s (c : command) :
  registry_ok s -> ids_distinct s -> clean_load c -> has_room s c ->
  ids_distinct (step theme s c).
Proof.
  intros Hok [Hd Hst] Hclean Hroom.
  assert (Hsave : forall e, hist e = hist s -> NoDup (live_ids e) ->
    ids_distinct (saveState theme e)).
  { intros e Hh He. split.
    - now rewrite (registry_live_ids e _ (registry_saveState e)).
    - apply (entries_saveState distinct_ids s e Hh); [now apply distinct_snapshot | exact Hst]. }
  destruct (step_registry s c (proj1 Hok) Hroom)
    as [[Hr Hh] | [(e & -> & He) | [(e & -> & He) | [-> | [-> | [parsed ->]]]]]].
  - split; [now rewrite (registry_live_ids s _ Hr) |].
    now apply (entries_same distinct_ids s).
  - apply Hsave; [apply He | now apply (appends_NoDup s)].
  - apply Hsave; [apply He | now apply (shrinks_NoDup s)].
  - cbn [step]. destruct (entries_undo distinct_ids s Hst) as [Hst' [Hu | (p & t & Hp & Hu)]];
      split; try exact Hst'; rewrite Hu; [exact Hd |].
    now rewrite (restore_live_ids _ (snap_objects p)).
  - cbn [step]. destruct (entries_redo distinct_ids s Hst) as [Hst' [Hu | (p & t & Hp & Hu)]];
      split; try exact Hst'; rewrite Hu; [exact Hd |].
    now rewrite (restore_live_ids _ (snap_objects p)).
  - cbn [step]. split.
    + unfold load. destruct parsed as [data|]; [| exact Hd].
      simpl in Hclean. destruct (f_objects data) as [recs|] eqn:Hf.
      * destruct Hclean as [Hi Hn]. rewrite Hi in Hf.
        now rewrite (restore_live_ids _ (readable recs)).
      * rewrite restoreState_thrown by exact Hf. constructor.
    + apply (entries_same distinct_ids s); [apply hist_load | exact Hst].
Qed.

Lemma distinct_init : ids_distinct (init theme).
Proof.
  assert (H0 : ids_distinct (constructed theme)) by (split; constructor).
  assert (Hok0 : registry_ok (constructed theme)) by (split; constructor).
  assert (H1 : ids_distinct (setGridPlane (defaultGridPlane theme) (constructed theme))).
  { apply (distinct_step _ (SetGridPlane _)); [exact Hok0 | exact H0 | exact I |].
    now apply has_room_none. }
  assert (Hok1 : registry_ok (setGridPlane (defaultGridPlane theme) (constructed theme))).
  { apply (registry_ok_step _ (SetGridPlane _)); [exact Hok0 | exact I |].
    now apply has_room_none. }
  assert (Hr1 : has_room (setGridPlane (defaultGridPlane theme) (constructed theme)) AddQuad)
    by now apply has_room_setGridPlane.
  pose proof (distinct_step _ AddQuad Hok1 H1 I Hr1) as H2.
  pose proof (registry_ok_step _ AddQuad Hok1 I Hr1) as Hok2.
  apply (distinct_step _ ReleaseGizmo Hok2 H2 I). now apply has_room_none.
Qed.

Lemma clean_sound (c : command) : clean_load c -> sound_load c.
Proof.
  destruct c; try exact (fun H => H). destruct parsed as [data|]; [| exact (fun H => H)].
  cbn. destruct (f_objects data); tauto.
Qed.

Lemma distinct_run (cs : list command) s :
  registry_ok s -> ids_distinct s -> Forall clean_load cs -> roomy theme cs s ->
  ids_distinct (run theme cs s).
Proof.
  revert s. induction cs as [|c cs IH]; intros s Hok Hd Hc Hr; [exact Hd |].
  inversion Hc; subst. destruct Hr as [Hr1 Hr2].
  apply IH; [apply registry_ok_step; [exact Hok | now apply clean_sound | exact Hr1]
            | now apply distinct_step | assumption | exact Hr2].
Qed.

(** C3 (as the code has it).  Take a session in which every load reads
    its whole [objects] array (the loop of restoreState throws on none of
    its elements) and every creating command finds the ids it asks for at
    or below 2^53, where the increments of the counter are exact.  In every
    state of such a session no live id exceeds the counter.  On a state
    where no live id exceeds the counter, an object-creating operation
    (addQuad, addCube, addCamera, paste, duplicateSelected) with room for
    its ids keeps the live ids and appends the new ones, which increase
    strictly and are all above the counter, hence above every id of a live
    object.  If moreover the loaded files give distinct ids to their
    objects, the live ids are always pairwise distinct.  A restore that
    reads its whole array sets the counter to the maximum of 0 and the
    restored ids. *)
Theorem fresh_ids :
  (forall cs : list command,
     Forall sound_load cs -> roomy theme cs (init theme) ->
     registry_ok (run theme cs (init theme))) /\
  (forall s (c : command), registry_ok s -> creates c = true -> has_room s c ->
     let s' := step theme s c in
     live_ids s' = live_ids s ++ created s s' /\
     StronglySorted Z.lt (created s s') /\
     Forall (fun i => objectIdCounter s < i) (created s s') /\
     Forall (fun i => Forall (fun j => j < i) (live_ids s)) (created s s')) /\
  (forall cs : list command,
     Forall clean_load cs -> roomy theme cs (init theme) ->
     NoDup (live_ids (run theme cs (init theme)))) /\
  (forall (d : StateData) recs s, sd_objects d = Some recs -> intact recs ->
     objectIdCounter (final (restoreState d s)) =
     max_id (live_ids (final (restoreState d s)))).
Proof.
  split; [intros cs Hs Hr; apply registry_ok_run; [exact Hs | exact Hr | apply registry_ok_init] |].
  split.
  { intros s c [Ha Hb] Hc Hroom s'.
    destruct (creates_appends s c Ha Hc Hroom) as (e & Hap & Hr). fold s' in Hr.
    destruct (appends_live_ids s e Ha Hap) as (Hl & Hs & Hn).
    rewrite (created_same s e s' Hr), (registry_live_ids e s' Hr).
    split; [exact Hl |]. split; [exact Hs |]. split.
    - eapply Forall_impl; [exact Hn |]. simpl. intros. lia.
    - rewrite Forall_forall in Hn |- *. intros i Hi. specialize (Hn i Hi).
      eapply Forall_impl; [exact Hb |]. simpl. intros. lia. }
  split.
  { intros cs Hc Hr. apply (distinct_run cs (init theme));
      [apply registry_ok_init | apply distinct_init | exact Hc | exact Hr]. }
  intros d recs s Hd Hi. rewrite Hi in Hd.
  destruct (restoreState_objects d _ s Hd) as (s' & -> & _ & _ & _ & _ & Hc & _).
  exact Hc.
Qed.

End Properties.

(** * The claims that need the rational instance, witnesses and counterexamples *)

(** C4 (as the code has it).  Evaluation of a keyframe track: an empty
    track gives [0,0,0]; a single keyframe gives its value at every frame;
    on a track sorted ascending by frame, a frame at or before the first
    keyframe gives the first value, a frame strictly after the last
    keyframe gives the last value, a frame equal to a keyframe's frame gives
    the value of the first keyframe at that frame, and a frame strictly
    between two neighbours gives their linear interpolation; with one
    keyframe per frame a frame at or after the last keyframe gives the last
    value; and whenever the chosen pair has [before.frame = after.frame =
    frame] the result is [before.value], nothing being divided.  With
    keyframes 0 -> [0,0,0] and 10 -> [10,0,0], frame 5 gives [5,0,0], frame
    0 gives [0,0,0] and frame 20 gives [10,0,0]. *)
Theorem interpolation_semantics :
  (forall (N : Numeric),
    (forall f, interpolateKeyframes [] f = vec3 (of_int 0) (of_int 0) (of_int 0)) /\
    (forall (k : Keyframe) f, interpolateKeyframes [k] f = value k) /\
    (forall (k0 k1 : Keyframe) l f,
       ascending (k0 :: k1 :: l) -> f <= frame k0 ->
       interpolateKeyframes (k0 :: k1 :: l) f = value k0) /\
    (forall pre (kp kn : Keyframe) f,
       ascending (pre ++ [kp; kn]) -> frame kn < f ->
       interpolateKeyframes (pre ++ [kp; kn]) f = value kn) /\
    (forall pre (k : Keyframe) post,
       ascending (pre ++ k :: post) -> Forall (fun y => frame y < frame k) pre ->
       interpolateKeyframes (pre ++ k :: post) (frame k) = value k) /\
    (forall pre (a b : Keyframe) post f,
       ascending (pre ++ a :: b :: post) -> frame a < f < frame b ->
       interpolateKeyframes (pre ++ a :: b :: post) f = lerp a b f) /\
    (forall pre (kn : Keyframe) f,
       strictly_ascending (pre ++ [kn]) -> frame kn <= f ->
       interpolateKeyframes (pre ++ [kn]) f = value kn) /\
    (forall (k0 k1 : Keyframe) l f,
       let chosen := bracket (k0 :: k1 :: l) f (k0, List.last (k0 :: k1 :: l) k0) in
       frame chosen.1 = frame chosen.2 -> f = frame chosen.1 ->
       interpolateKeyframes (k0 :: k1 :: l) f = value chosen.1)) /\
  veq (interpolateKeyframes track_0_10 5) (vec3 5%Q 0%Q 0%Q) /\
  interpolateKeyframes track_0_10 0 = vec3 0%Q 0%Q 0%Q /\
  interpolateKeyframes track_0_10 20 = vec3 10%Q 0%Q 0%Q.
Proof.
  split.
  { intros N. split; [apply interpolate_empty |].
    split; [apply interpolate_single |].
    split; [apply interpolate_before_first |].
    split; [apply interpolate_after_last |].
    split; [intros; now apply interpolate_at_keyframe |].
    split; [intros; now apply interpolate_inside |].
    split; [apply interpolate_from_last |].
    intros k0 k1 l f chosen Heq Hf. rewrite interpolate_multi. fold chosen.
    destruct chosen as [before after]. simpl in *. subst f. now rewrite Z.leb_refl. }
  split; [| split; reflexivity].
  vm_compute. repeat split; reflexivity.
Qed.

(** The interpolation case on a concrete input: the track with keyframes
    at 0 and 10, evaluated at frame 5. *)
Lemma interpolation_semantics_witness :
  ascending track_0_10 /\
  0 < 5 < 10 /\
  interpolateKeyframes track_0_10 5 = lerp (kf 0 0 0 0) (kf 10 10 0 0) 5.
Proof.
  assert (Hs : ascending track_0_10).
  { unfold track_0_10. repeat constructor. vm_compute. discriminate. }
  assert (Hf : 0 < 5 < 10) by lia.
  split; [exact Hs |]. split; [exact Hf |].
  destruct interpolation_semantics as [G _].
  destruct (G QNumeric) as (_ & _ & _ & _ & _ & Hin & _).
  exact (Hin [] (kf 0 0 0 0) (kf 10 10 0 0) [] 5 Hs Hf).
Defined.

(** C4, the statement as written fails: on the sorted track 0 -> [0,0,0],
    10 -> [10,0,0], 10 -> [20,0,0] the frame 10 is at the last keyframe,
    yet the evaluation returns [10,0,0], the value of the first keyframe of
    frame 10, and not the value [20,0,0] of the last keyframe. *)
Lemma interpolation_at_last_counterexample :
  ascending track_dup /\
  List.last track_dup (kf 0 0 0 0) = kf 10 20 0 0 /\
  frame (kf 10 20 0 0) <= 10 /\
  interpolateKeyframes track_dup 10 = vec3 10%Q 0%Q 0%Q /\
  interpolateKeyframes track_dup 10 <> value (List.last track_dup (kf 0 0 0 0)).
Proof.
  split.
  { unfold track_dup. repeat constructor; vm_compute; discriminate. }
  split; [reflexivity |].
  split; [vm_compute; discriminate |].
  split; [reflexivity |].
  vm_compute. discriminate.
Qed.

(** C7, evaluated where it fails.  Paste with a null clipboard and undo
    with a single history entry change nothing; but with a quad selected
    and no camera, addKeyframe is not a no-op: it pushes a snapshot onto
    the undo stack and empties the redo stack. *)
Theorem addKeyframe_without_camera_commits :
  paste defaultTheme s_quad_selected = s_quad_selected /\
  undo (undo s_init) = undo s_init /\
  selected_cameras s_quad_selected = [] /\
  length (undoStack s_quad_selected) = 2%nat /\
  length (redoStack s_quad_selected) = 1%nat /\
  length (undoStack (addKeyframe defaultTheme s_quad_selected)) = 3%nat /\
  redoStack (addKeyframe defaultTheme s_quad_selected) = [] /\
  addKeyframe defaultTheme s_quad_selected <> s_quad_selected.
Proof.
  assert (Hr : length (redoStack s_quad_selected) = 1%nat) by (vm_compute; reflexivity).
  split; [apply paste_noop; vm_compute; reflexivity |].
  split; [apply undo_noop; vm_compute; repeat constructor |].
  split; [vm_compute; reflexivity |].
  split; [vm_compute; reflexivity |].
  split; [exact Hr |].
  split; [vm_compute; reflexivity |].
  split; [reflexivity |].
  intros He. rewrite <- He in Hr. discriminate Hr.
Qed.

(** C6, evaluated where it fails.  A text that JSON.parse rejects leaves
    the state as it is; but loading a file that parses and has no [objects]
    member into the initial scene empties the scene and keeps the grid
    plane and the length read from the file. *)
Theorem load_without_objects_clears_scene :
  (forall (N : Numeric) (s : State), load None s = s) /\
  live_ids s_init = [1] /\
  currentGridPlane s_init = "xz" /\
  totalFrames s_init = 300 /\
  objects (load (Some file_without_objects) s_init) = [] /\
  currentGridPlane (load (Some file_without_objects) s_init) = "xy" /\
  totalFrames (load (Some file_without_objects) s_init) = 120 /\
  load (Some file_without_objects) s_init <> s_init.
Proof.
  assert (Hg : currentGridPlane (load (Some file_without_objects) s_init) = "xy")
    by (vm_compute; reflexivity).
  split; [reflexivity |].
  split; [vm_compute; reflexivity |].
  split; [vm_compute; reflexivity |].
  split; [vm_compute; reflexivity |].
  split; [vm_compute; reflexivity |].
  split; [exact Hg |].
  split; [vm_compute; reflexivity |].
  intros He. rewrite He in Hg. vm_compute in Hg. discriminate Hg.
Qed.

(** C2, the statement as written fails: camera 2 tracks quad 1; deleting
    the selected quad takes it out of the live objects, yet the binding
    2 -> 1 is still in the track-target map and in the camera's record. *)
Lemma delete_keeps_binding_counterexample :
  selectedObjects s_tracking = [0%nat] /\
  @id QNumeric <$> (heap s_tracking !! 0%nat) = Some 1 /\
  cameraTrackTargets s_tracking !! 2 = Some 1 /\
  live_ids (deleteSelected defaultTheme s_tracking) = [2] /\
  cameraTrackTargets (deleteSelected defaultTheme s_tracking) !! 2 = Some 1 /\
  map r_trackTarget (snap_objects (snapshot (deleteSelected defaultTheme s_tracking)))
    = [Some 1].
Proof. repeat split; vm_compute; reflexivity. Qed.

(** The additive toggle on a concrete input: on the initial scene, where only
    the quad (reference 0) is selected, two additive selects of reference 1
    give the selection back. *)
Lemma select_toggle_asymmetry_witness :
  ~ In 1%nat (selectedObjects s_init) /\
  selectedObjects (selectObject 1%nat true (selectObject 1%nat true s_init)) =
    selectedObjects s_init.
Proof.
  assert (Hn : ~ In 1%nat (selectedObjects s_init)).
  { vm_compute. intros [H | []]. discriminate H. }
  split; [exact Hn |].
  destruct (select_toggle_asymmetry s_init 1%nat) as (_ & _ & H & _).
  exact (proj2 (H Hn)).
Defined.

(** The cap on a concrete input: a commit on the initial scene. *)
Lemma history_cap_witness :
  (length (undoStack s_init) <= undoLimit defaultTheme)%nat /\
  (length (undoStack (saveState defaultTheme s_init)) <= undoLimit defaultTheme)%nat.
Proof.
  assert (Hl : (length (undoStack s_init) <= undoLimit defaultTheme)%nat).
  { vm_compute. repeat constructor. }
  split; [exact Hl |].
  destruct (history_cap (N := QNumeric) defaultTheme) as (_ & H & _).
  exact (proj2 (H s_init Hl)).
Defined.

(** Keyframe recording on a concrete input: camera 2 selected at frame 5. *)
Lemma addKeyframe_records_witness :
  NoDup (map id (selected_cameras s_cam)) /\
  In 1%nat (selectedObjects s_cam) /\
  heap s_cam !! 1%nat = Some camera_2 /\
  type camera_2 = Camera /\
  at_frame 5 (position_track (clips (addKeyframe defaultTheme s_cam) !! 2)) =
    [kf 5 2 2 2].
Proof.
  assert (Hn : NoDup (map id (selected_cameras s_cam))).
  { vm_compute. apply NoDup_singleton. }
  assert (Hi : In 1%nat (selectedObjects s_cam)) by (vm_compute; now left).
  assert (Hh : heap s_cam !! 1%nat = Some camera_2) by (vm_compute; reflexivity).
  assert (Ht : type camera_2 = Camera) by reflexivity.
  split; [exact Hn |]. split; [exact Hi |]. split; [exact Hh |]. split; [exact Ht |].
  destruct (addKeyframe_records defaultTheme s_cam) as (_ & H & _).
  exact (proj1 (proj2 (H Hn 1%nat camera_2 Hi Hh Ht))).
Defined.

(** Deletion on a concrete input: the tracked quad of [s_tracking]. *)
Lemma delete_cascade_witness :
  In 0%nat (selectedObjects s_tracking) /\
  heap s_tracking !! 0%nat = Some quad_1 /\
  ~ In 0%nat (objects (deleteSelected defaultTheme s_tracking)) /\
  clips (deleteSelected defaultTheme s_tracking) !! 1 = None.
Proof.
  assert (Hi : In 0%nat (selectedObjects s_tracking)) by (vm_compute; now left).
  assert (Hh : heap s_tracking !! 0%nat = Some quad_1) by (vm_compute; reflexivity).
  split; [exact Hi |]. split; [exact Hh |].
  destruct (delete_cascade defaultTheme s_tracking 0%nat quad_1 Hi Hh) as (H1 & _ & _ & H2 & _).
  split; [exact H1 | exact H2].
Defined.

(** Undo and redo on a concrete input: the dragged quad is committed, and undo
    brings back the snapshot of the initial scene. *)
Lemma undo_redo_inverse_witness :
  (2 <= undoLimit defaultTheme)%nat /\
  stacks_taken s_moved /\
  undoStack s_moved = [snapshot s_init] ++ [snapshot s_init] /\
  snapshot (undo (saveState defaultTheme s_moved)) = snapshot s_init /\
  snapshot (redo (undo (saveState defaultTheme s_moved))) = snapshot s_moved.
Proof.
  assert (Hl : (2 <= undoLimit defaultTheme)%nat) by (vm_compute; repeat constructor).
  assert (Hs : undoStack s_moved = [snapshot s_init] ++ [snapshot s_init])
    by (vm_compute; reflexivity).
  destruct (undo_redo_inverse (N := QNumeric) defaultTheme Hl) as [Ht H].
  pose proof (Ht [DragGizmo (@Build_Mesh QNumeric (vec3 3 0 4) (vec3 0 0 0) (vec3 1 1 1))%Q])
    as Ht'.
  split; [exact Hl |]. split; [exact Ht' |]. split; [exact Hs |].
  destruct (H s_moved Ht') as (Hu & _).
  exact (Hu [snapshot s_init] (snapshot s_init) Hs).
Defined.

(* the room a command has in a computed state *)
Ltac room_now := unfold has_room; vm_compute; intros; congruence.

(** Id assignment on a concrete input: adding a cube to the initial scene,
    then copying and pasting it. *)
Lemma fresh_ids_witness :
  registry_ok s_init /\
  creates (N := QNumeric) AddCube = true /\
  has_room s_init AddCube /\
  live_ids (step defaultTheme s_init AddCube) =
    live_ids s_init ++ created s_init (step defaultTheme s_init AddCube) /\
  created s_init (step defaultTheme s_init AddCube) = [2] /\
  Forall clean_load [AddCube (N := QNumeric); Copy; Paste] /\
  roomy defaultTheme [AddCube; Copy; Paste] s_init /\
  NoDup (live_ids (run defaultTheme [AddCube; Copy; Paste] s_init)).
Proof.
  destruct (fresh_ids (N := QNumeric) defaultTheme) as (Hok & Hc & Hd & _).
  pose proof (Hok [] (List.Forall_nil _) I) as Hi.
  assert (Hr : has_room s_init AddCube) by room_now.
  assert (Hl : Forall clean_load [AddCube (N := QNumeric); Copy; Paste])
    by (repeat constructor).
  assert (Hrs : roomy defaultTheme [AddCube; Copy; Paste] s_init).
  { cbn [roomy]. split; [exact Hr |]. split; [room_now |]. split; [room_now | exact I]. }
  split; [exact Hi |]. split; [reflexivity |]. split; [exact Hr |].
  split; [exact (proj1 (Hc s_init AddCube Hi eq_refl Hr)) |].
  split; [vm_compute; reflexivity |].
  split; [exact Hl |]. split; [exact Hrs |].
  exact (Hd [AddCube; Copy; Paste] Hl Hrs).
Defined.

(** C3, the statement as written fails: after adding a cube (id 2) and
    undoing, the next cube is given id 2 again, so the ids assigned in the
    session do not increase strictly and an id is used twice. *)
Lemma id_reuse_counterexample :
  assigned_ids defaultTheme [AddCube; Undo; AddCube] s_init = [2; 2] /\
  ~ StronglySorted Z.lt (assigned_ids defaultTheme [AddCube; Undo; AddCube] s_init) /\
  ~ NoDup (assigned_ids defaultTheme [AddCube; Undo; AddCube] s_init).
Proof.
  assert (He : assigned_ids defaultTheme [AddCube; Undo; AddCube] s_init = [2; 2])
    by (vm_compute; reflexivity).
  split; [exact He |]. rewrite He. split.
  - intros H. inversion H as [|? ? _ Hf]; subst. inversion Hf; subst. lia.
  - intros H. apply NoDup_cons in H. destruct H as [H _]. apply H. now left.
Qed.


(** * Further properties *)

Section Playhead.

Context {N : Numeric}.
Variable theme : Theme.

Implicit Types (s e : State) (r : ref) (o : ObjData).

(** ** Writes through references *)

Section Writes.

Variable R : ObjData -> ObjData -> Prop.
Hypothesis R_refl : forall o, R o o.
Hypothesis R_trans : forall o1 o2 o3, R o1 o2 -> R o2 o3 -> R o1 o3.

Lemma set_heap_same s : set_heap (heap s) s = s.
Proof. now destruct s. Qed.

Lemma writes_refl s : writes R s s.
Proof.
  split; [now rewrite set_heap_same |].
  intros r. destruct (heap s !! r); constructor. apply R_refl.
Qed.

Lemma writes_trans s1 s2 s3 : writes R s1 s2 -> writes R s2 s3 -> writes R s1 s3.
Proof.
  intros [H1 H1'] [H2 H2']. split.
  - rewrite H2 at 1. rewrite H1 at 1. reflexivity.
  - intros r. specialize (H1' r). specialize (H2' r).
    destruct H1'; inversion H2'; subst; constructor. eauto.
Qed.

Lemma writes_update_obj r (f : ObjData -> ObjData) s :
  (forall o, R o (f o)) -> writes R s (update_obj r f s).
Proof.
  intros Hf. split; [reflexivity |].
  intros r'. unfold update_obj. cbn. rewrite lookup_alter.
  destruct (decide (r = r')) as [<- |].
  - destruct (heap s !! r); constructor. apply Hf.
  - destruct (heap s !! r'); constructor. apply R_refl.
Qed.

Lemma writes_fold {T} (f : State -> T -> State) (l : list T) :
  (forall s x, writes R s (f s x)) -> forall s, writes R s (fold_left f l s).
Proof.
  intros Hf. induction l as [|x l IH]; intros s; simpl; [apply writes_refl |].
  eapply writes_trans; [apply Hf | apply IH].
Qed.

End Writes.

Lemma writes_fields (R : ObjData -> ObjData -> Prop) s e :
  writes R s e ->
  objects e = objects s /\ sceneCameras e = sceneCameras s /\
  selectedObjects e = selectedObjects s /\ attached e = attached s /\
  clips e = clips s /\ cameraTrackTargets e = cameraTrackTargets s /\
  currentFrame e = currentFrame s /\ totalFrames e = totalFrames s /\
  isPlaying e = isPlaying s /\ hist e = hist s /\
  objectIdCounter e = objectIdCounter s /\ nextRef e = nextRef s /\
  clipboard e = clipboard s.
Proof. intros [-> _]. cbn. repeat split. Qed.


Lemma same_but_pose_refl o : same_but_pose o o.
Proof. now repeat split. Qed.

Lemma same_but_pose_trans o1 o2 o3 :
  same_but_pose o1 o2 -> same_but_pose o2 o3 -> same_but_pose o1 o3.
Proof. unfold same_but_pose. intuition congruence. Qed.

Lemma same_but_rotation_refl o : same_but_rotation o o.
Proof. split; [apply same_but_pose_refl | reflexivity]. Qed.

Lemma same_but_rotation_trans o1 o2 o3 :
  same_but_rotation o1 o2 -> same_but_rotation o2 o3 -> same_but_rotation o1 o3.
Proof.
  intros [H1 H1'] [H2 H2']. split; [eapply same_but_pose_trans; eauto | congruence].
Qed.

Lemma same_identity_refl o : same_identity o o.
Proof. now split. Qed.

Lemma same_identity_trans o1 o2 o3 :
  same_identity o1 o2 -> same_identity o2 o3 -> same_identity o1 o3.
Proof. unfold same_identity. intuition congruence. Qed.

Lemma writes_weaken (R R' : ObjData -> ObjData -> Prop) s e :
  (forall o o', R o o' -> R' o o') -> writes R s e -> writes R' s e.
Proof.
  intros HR [H1 H2]. split; [exact H1 |].
  intros r. destruct (H2 r); constructor. now apply HR.
Qed.

Lemma writes_apply_camera s cam : writes same_but_pose s (apply_camera s cam).
Proof.
  unfold apply_camera.
  destruct (heap s !! cam) as [o|]; [| apply writes_refl, same_but_pose_refl].
  destruct (clips s !! id o) as [c|]; [| apply writes_refl, same_but_pose_refl].
  cbv zeta.
  match goal with
  | |- writes _ s (match _ with Some _ => update_obj cam _ ?s1 | None => ?s1 end) =>
      assert (H1 : writes same_but_pose s s1)
  end.
  { destruct (nonempty_track (clip_position c)).
    - apply writes_update_obj; [apply same_but_pose_refl |]. intros y. now repeat split.
    - apply writes_refl, same_but_pose_refl. }
  eapply (writes_trans _ same_but_pose_trans); [exact H1 |].
  destruct (nonempty_track (clip_rotation c)).
  - apply writes_update_obj; [apply same_but_pose_refl |]. intros y. now repeat split.
  - apply writes_refl, same_but_pose_refl.
Qed.

Lemma writes_applyFrame s : writes same_but_pose s (applyFrame s).
Proof.
  unfold applyFrame.
  apply (writes_fold _ same_but_pose_refl same_but_pose_trans), writes_apply_camera.
Qed.

Lemma writes_track_one s (entry : Z * Z) : writes same_but_rotation s (track_one s entry).
Proof.
  unfold track_one. destruct (tracked_pair s entry) as [[cam t]|].
  - apply writes_update_obj; [apply same_but_rotation_refl |].
    intros y. now repeat split.
  - apply writes_refl, same_but_rotation_refl.
Qed.

Lemma writes_updateCameraTracking s : writes same_but_rotation s (updateCameraTracking s).
Proof.
  unfold updateCameraTracking.
  apply (writes_fold _ same_but_rotation_refl same_but_rotation_trans), writes_track_one.
Qed.

Lemma seek_fields (f : Z) s :
  currentFrame (seek f s) = f /\ totalFrames (seek f s) = totalFrames s /\
  isPlaying (seek f s) = isPlaying s.
Proof.
  unfold seek.
  destruct (writes_fields _ _ _ (writes_applyFrame (set_currentFrame f s)))
    as (_ & _ & _ & _ & _ & _ & -> & -> & -> & _).
  now repeat split.
Qed.

(* the two scans of the keyframes behind nextKeyframe and prevKeyframe *)
Lemma next_scan (cur : Z) (keys : list Keyframe) (n0 : Z) :
  let n := fold_left (fun n kf => if (cur <? frame kf) && (frame kf <? n)
                                  then frame kf else n) keys n0 in
  n <= n0 /\
  (n = n0 \/ (cur < n /\ exists kf, In kf keys /\ frame kf = n)) /\
  (forall kf, In kf keys -> cur < frame kf -> n <= frame kf).
Proof.
  revert n0. induction keys as [|k keys IH]; intros n0; cbn.
  - split; [lia |]. split; [now left |]. intros kf [].
  - specialize (IH (if (cur <? frame k) && (frame k <? n0) then frame k else n0)).
    cbn in IH. destruct IH as (Hle & Hor & Hmin).
    destruct ((cur <? frame k) && (frame k <? n0)) eqn:E.
    + apply andb_true_iff in E as [E1 E2]. apply Z.ltb_lt in E1, E2.
      split; [lia |]. split.
      * right. destruct Hor as [-> | [Hc (kf & Hin & Hf)]].
        -- split; [lia |]. exists k. now split; [left |].
        -- split; [exact Hc |]. exists kf. now split; [right |].
      * intros kf [<- | Hin] Hc; [lia | now apply Hmin].
    + split; [exact Hle |]. split.
      * destruct Hor as [-> | [Hc (kf & Hin & Hf)]]; [now left |].
        right. split; [exact Hc |]. exists kf. now split; [right |].
      * intros kf [<- | Hin] Hc; [| now apply Hmin].
        apply andb_false_iff in E as [E | E];
          [apply Z.ltb_ge in E | apply Z.ltb_ge in E]; lia.
Qed.

Lemma prev_scan (cur : Z) (keys : list Keyframe) (p0 : Z) :
  let p := fold_left (fun p kf => if (frame kf <? cur) && (p <? frame kf)
                                  then frame kf else p) keys p0 in
  p0 <= p /\
  (p = p0 \/ (p < cur /\ exists kf, In kf keys /\ frame kf = p)) /\
  (forall kf, In kf keys -> frame kf < cur -> frame kf <= p).
Proof.
  revert p0. induction keys as [|k keys IH]; intros p0; cbn.
  - split; [lia |]. split; [now left |]. intros kf [].
  - specialize (IH (if (frame k <? cur) && (p0 <? frame k) then frame k else p0)).
    cbn in IH. destruct IH as (Hle & Hor & Hmax).
    destruct ((frame k <? cur) && (p0 <? frame k)) eqn:E.
    + apply andb_true_iff in E as [E1 E2]. apply Z.ltb_lt in E1, E2.
      split; [lia |]. split.
      * right. destruct Hor as [-> | [Hc (kf & Hin & Hf)]].
        -- split; [lia |]. exists k. now split; [left |].
        -- split; [exact Hc |]. exists kf. now split; [right |].
      * intros kf [<- | Hin] Hc; [lia | now apply Hmax].
    + split; [exact Hle |]. split.
      * destruct Hor as [-> | [Hc (kf & Hin & Hf)]]; [now left |].
        right. split; [exact Hc |]. exists kf. now split; [right |].
      * intros kf [<- | Hin] Hc; [| now apply Hmax].
        apply andb_false_iff in E as [E | E];
          [apply Z.ltb_ge in E | apply Z.ltb_ge in E]; lia.
Qed.

Lemma camera_position_keys_In s (k : Keyframe) :
  In k (camera_position_keys s) <->
  exists r o, In r (sceneCameras s) /\ heap s !! r = Some o /\
    In k (position_track (clips s !! id o)).
Proof.
  unfold camera_position_keys, deref. rewrite in_flat_map. split.
  - intros (o & Ho & Hk). apply list_elem_of_In, list_elem_of_omap in Ho as (r & Hr & Ho).
    exists r, o. split; [now apply list_elem_of_In |]. split; [exact Ho |].
    unfold position_track. now destruct (clips s !! id o).
  - intros (r & o & Hr & Ho & Hk). exists o. split.
    + apply list_elem_of_In, list_elem_of_omap. exists r.
      split; [now apply list_elem_of_In | exact Ho].
    + unfold position_track in Hk. now destruct (clips s !! id o).
Qed.

(** X1  The playhead stays on the timeline: on a timeline of at most 2^53
    frames, where every frame number is held exactly, from a frame between
    0 and totalFrames, the arrow keys, the keyframe jumps, Stop and a tick
    of the animation loop all leave it there.  While playing, a tick
    advances by one frame and wraps to 0 instead of showing frame
    totalFrames; while paused it leaves the frame alone. *)
Theorem playhead_stays_on_timeline s :
  in_range s -> totalFrames s <= 2 ^ 53 ->
  (forall delta, in_range (stepFrame delta s)) /\
  in_range (prevKeyframe s) /\
  in_range (nextKeyframe s) /\
  in_range (stopPlayback s) /\
  in_range (animate s) /\
  (isPlaying s = true -> currentFrame s + 1 < totalFrames s ->
   currentFrame (animate s) = currentFrame s + 1) /\
  (isPlaying s = true -> totalFrames s <= currentFrame s + 1 ->
   currentFrame (animate s) = 0) /\
  (isPlaying s = true -> 0 < totalFrames s ->
   currentFrame (animate s) < totalFrames s) /\
  (isPlaying s = false -> currentFrame (animate s) = currentFrame s).
Proof.
  unfold in_range. intros Hr Hbound.
  assert (Hd : double_round (currentFrame s + 1) = currentFrame s + 1 \/
               (currentFrame s = 2 ^ 53 /\ double_round (currentFrame s + 1) = 2 ^ 53)).
  { destruct (Z.eq_dec (currentFrame s) (2 ^ 53)) as [E | E].
    - right. split; [exact E |]. rewrite E. reflexivity.
    - left. apply double_round_exact. lia. }
  assert (Han : currentFrame (animate s) =
                (if isPlaying s
                 then (if totalFrames s <=? double_round (currentFrame s + 1) then 0
                       else double_round (currentFrame s + 1))
                 else currentFrame s) /\ totalFrames (animate s) = totalFrames s).
  { unfold animate.
    match goal with |- context [updateCameraTracking ?x] =>
      destruct (writes_fields _ _ _ (writes_updateCameraTracking x))
        as (_ & _ & _ & _ & _ & _ & -> & -> & _) end.
    destruct (isPlaying s); [| now split].
    match goal with |- context [applyFrame ?x] =>
      destruct (writes_fields _ _ _ (writes_applyFrame x))
        as (_ & _ & _ & _ & _ & _ & -> & -> & _) end.
    now split. }
  destruct Han as [Hc Ht].
  split; [| split; [| split; [| split; [| split; [| split; [| split; [| split]]]]]]].
  - intros delta. unfold stepFrame.
    destruct (double_round_sign (currentFrame s + delta)) as [Hpos Hneg].
    destruct (delta <? 0) eqn:E;
      match goal with |- context [seek ?f s] =>
        destruct (seek_fields f s) as (-> & -> & _) end.
    + apply Z.ltb_lt in E.
      destruct (Z_le_gt_dec (Z.abs (currentFrame s + delta)) (2 ^ 53)) as [Hs | Hs].
      * rewrite (double_round_exact _ Hs). lia.
      * assert (Hn : currentFrame s + delta <= 0) by lia. specialize (Hneg Hn). lia.
    + apply Z.ltb_ge in E. assert (Hn : 0 <= currentFrame s + delta) by lia.
      specialize (Hpos Hn). lia.
  - unfold prevKeyframe.
    match goal with |- context [seek ?f s] =>
      destruct (seek_fields f s) as (-> & -> & _) end.
    destruct (prev_scan (currentFrame s) (camera_position_keys s) 0) as (H1 & H2 & _).
    cbn in H1, H2. destruct H2 as [-> | [H2 _]]; lia.
  - unfold nextKeyframe.
    match goal with |- context [seek ?f s] =>
      destruct (seek_fields f s) as (-> & -> & _) end.
    destruct (next_scan (currentFrame s) (camera_position_keys s) (totalFrames s))
      as (H1 & H2 & _).
    cbn in H1, H2. destruct H2 as [-> | [H2 _]]; lia.
  - unfold stopPlayback.
    match goal with |- context [applyFrame ?x] =>
      destruct (writes_fields _ _ _ (writes_applyFrame x))
        as (_ & _ & _ & _ & _ & _ & -> & -> & _) end.
    cbn. lia.
  - rewrite Hc, Ht. destruct (isPlaying s); [| lia].
    destruct (totalFrames s <=? double_round (currentFrame s + 1)) eqn:E; [lia |].
    apply Z.leb_gt in E. lia.
  - intros Hp Hlt. rewrite Hc, Hp.
    destruct (totalFrames s <=? double_round (currentFrame s + 1)) eqn:E;
      [apply Z.leb_le in E | apply Z.leb_gt in E]; lia.
  - intros Hp Hge. rewrite Hc, Hp.
    destruct (totalFrames s <=? double_round (currentFrame s + 1)) eqn:E;
      [apply Z.leb_le in E | apply Z.leb_gt in E]; lia.
  - intros Hp Hpos. rewrite Hc, Hp.
    destruct (totalFrames s <=? double_round (currentFrame s + 1)) eqn:E; [lia |].
    apply Z.leb_gt in E. lia.
  - intros Hp. now rewrite Hc, Hp.
Qed.

(** X2  The keyframe jumps: nextKeyframe moves the playhead to the nearest
    position keyframe of a scene camera strictly after it and before
    totalFrames, and to totalFrames when there is none; prevKeyframe moves it
    to the nearest one strictly before it and after frame 0, and to 0 when
    there is none.  The keyframes scanned are the position tracks of the
    clips of the scene cameras. *)
Theorem keyframe_jumps_to_nearest s :
  let n := currentFrame (nextKeyframe s) in
  let p := currentFrame (prevKeyframe s) in
  (n <= totalFrames s /\
   (n = totalFrames s \/
    (currentFrame s < n /\ exists k, In k (camera_position_keys s) /\ frame k = n)) /\
   (forall k, In k (camera_position_keys s) -> currentFrame s < frame k -> n <= frame k)) /\
  (0 <= p /\
   (p = 0 \/
    (p < currentFrame s /\ exists k, In k (camera_position_keys s) /\ frame k = p)) /\
   (forall k, In k (camera_position_keys s) -> frame k < currentFrame s -> frame k <= p)) /\
  (forall k, In k (camera_position_keys s) <->
     exists r o, In r (sceneCameras s) /\ heap s !! r = Some o /\
       In k (position_track (clips s !! id o))).
Proof.
  cbn. unfold nextKeyframe, prevKeyframe.
  repeat match goal with |- context [seek ?f s] =>
    let H := fresh in
    destruct (seek_fields f s) as (H & _); rewrite H; clear H end.
  split; [apply next_scan |]. split; [apply prev_scan |].
  apply camera_position_keys_In.
Qed.

End Playhead.

Section KeyframeRoundTrip.

Context {N : Numeric}.
Variable theme : Theme.

Implicit Types (s e : State) (r : ref) (o : ObjData).

Lemma at_frame_app (f : Z) (l1 l2 : list Keyframe) :
  at_frame f (l1 ++ l2) = at_frame f l1 ++ at_frame f l2.
Proof. unfold at_frame. apply List.filter_app. Qed.

Lemma put_keyframe_split (f : Z) (v : Vec3 num) (track : list Keyframe) :
  exists pre post,
    put_keyframe f v track = pre ++ {| frame := f; value := v |} :: post /\
    Forall (fun y => frame y < f) pre.
Proof.
  pose proof (put_keyframe_at_frame f v track) as Hat.
  pose proof (put_keyframe_ascending f v track) as Hasc.
  set (k := {| frame := f; value := v |}) in *.
  assert (Hin : In k (put_keyframe f v track)).
  { assert (H : In k (at_frame f (put_keyframe f v track))) by (rewrite Hat; now left).
    unfold at_frame in H. now apply List.filter_In in H as [H _]. }
  apply in_split in Hin as (pre & post & Heq).
  exists pre, post. split; [exact Heq |].
  rewrite Heq in Hat, Hasc. rewrite at_frame_app in Hat.
  assert (Hk : at_frame f (k :: post) = k :: at_frame f post).
  { unfold at_frame. cbn. now rewrite Z.eqb_refl. }
  rewrite Hk in Hat.
  assert (Hpre : at_frame f pre = []).
  { destruct (at_frame f pre) as [|x l]; [reflexivity |].
    cbn in Hat. injection Hat as _ Hat. now destruct l. }
  apply List.Forall_forall. intros y Hy.
  assert (Hle : frame y <= frame k).
  { eapply ascending_app_le; [exact Hasc | exact Hy | now left]. }
  cbn in Hle.
  destruct (Z.eq_dec (frame y) f) as [E | E]; [| lia].
  assert (H : In y (at_frame f pre)).
  { unfold at_frame. apply List.filter_In. split; [exact Hy | now apply Z.eqb_eq]. }
  rewrite Hpre in H. destruct H.
Qed.

Lemma interpolate_put_keyframe (f : Z) (v : Vec3 num) (track : list Keyframe) :
  interpolateKeyframes (put_keyframe f v track) f = v.
Proof.
  destruct (put_keyframe_split f v track) as (pre & post & Heq & Hpre).
  pose proof (put_keyframe_ascending f v track) as Hasc.
  rewrite Heq in *.
  exact (interpolate_at_keyframe pre post {| frame := f; value := v |} Hasc Hpre).
Qed.

Lemma put_keyframe_nonempty (f : Z) (v : Vec3 num) (track : list Keyframe) :
  nonempty_track (Some (put_keyframe f v track)) = Some (put_keyframe f v track).
Proof.
  destruct (put_keyframe_split f v track) as (pre & post & Heq & _).
  destruct (put_keyframe f v track); [now destruct pre | reflexivity].
Qed.

(** X3  Recording then reading: whatever the track held before, once a
    keyframe with value v is put at frame f, interpolating the track at f
    gives v; putting a second value at the same frame replaces the first.
    The stored track is never empty. *)
Theorem keyframe_put_then_interpolate (f : Z) (v : Vec3 num) (track : list Keyframe) :
  interpolateKeyframes (put_keyframe f v track) f = v /\
  (forall v', interpolateKeyframes (put_keyframe f v' (put_keyframe f v track)) f = v') /\
  put_keyframe f v track <> [] /\
  (forall g v', g <> f ->
     exists pre post,
       put_keyframe g v' (put_keyframe f v track) =
         pre ++ {| frame := g; value := v' |} :: post /\
       In {| frame := f; value := v |} (pre ++ post)).
Proof.
  split; [apply interpolate_put_keyframe |].
  split; [intros v'; apply interpolate_put_keyframe |].
  split.
  - destruct (put_keyframe_split f v track) as (pre & post & Heq & _).
    rewrite Heq. now destruct pre.
  - intros g v' Hg.
    destruct (put_keyframe_split g v' (put_keyframe f v track)) as (pre & post & Heq & _).
    exists pre, post. split; [exact Heq |].
    assert (Hin : In {| frame := f; value := v |}
                    (put_keyframe g v' (put_keyframe f v track))).
    { apply put_keyframe_others; [cbn; congruence |].
      destruct (put_keyframe_split f v track) as (pre' & post' & -> & _).
      apply in_or_app. right. now left. }
    rewrite Heq in Hin. apply in_app_or in Hin as [Hin | [Hin | Hin]].
    + apply in_or_app. now left.
    + injection Hin as E _. congruence.
    + apply in_or_app. now right.
Qed.

(** ** applyFrame, camera by camera *)

Lemma framed_ext s e o :
  clips e = clips s -> currentFrame e = currentFrame s -> framed e o = framed s o.
Proof.
  intros Hc Hf. unfold framed, framed_position, framed_rotation. now rewrite Hc, Hf.
Qed.

Lemma framed_id o s : id (framed s o) = id o.
Proof. reflexivity. Qed.

Lemma framed_idem s o : framed s (framed s o) = framed s o.
Proof.
  unfold framed, framed_position, framed_rotation. cbn.
  destruct (clips s !! id o) as [c|]; [| reflexivity].
  destruct (nonempty_track (clip_position c)), (nonempty_track (clip_rotation c));
    reflexivity.
Qed.

Lemma set_mesh_eta o : set_mesh (mesh o) o = o.
Proof. now destruct o. Qed.

Lemma set_pose_eta (m : Mesh) : set_rotation (rotation m) (set_position (position m) m) = m.
Proof. now destruct m. Qed.

Lemma apply_camera_lookup s cam r :
  heap (apply_camera s cam) !! r =
  if decide (r = cam) then framed s <$> heap s !! r else heap s !! r.
Proof.
  unfold apply_camera.
  destruct (heap s !! cam) as [o|] eqn:Ho.
  - destruct (clips s !! id o) as [c|] eqn:Hc.
    + assert (Hf : forall y, id y = id o ->
                framed s y =
                (match nonempty_track (clip_rotation c) with
                 | Some track => fun y => set_mesh (set_rotation
                     (interpolateKeyframes track (currentFrame s)) (mesh y)) y
                 | None => fun y => y
                 end)
                ((match nonempty_track (clip_position c) with
                  | Some track => fun y => set_mesh (set_position
                      (interpolateKeyframes track (currentFrame s)) (mesh y)) y
                  | None => fun y => y
                  end) y)).
      { intros y Hy. unfold framed, framed_position, framed_rotation. rewrite Hy, Hc.
        destruct y as [i n k [p q sc]]. cbn.
        destruct (nonempty_track (clip_position c)), (nonempty_track (clip_rotation c));
          reflexivity. }
      destruct (decide (r = cam)) as [-> | Hne].
      * rewrite Ho. cbn. rewrite (Hf o eq_refl).
        destruct (nonempty_track (clip_position c)), (nonempty_track (clip_rotation c));
          cbn; rewrite ?lookup_alter_eq, ?Ho; reflexivity.
      * destruct (nonempty_track (clip_position c)), (nonempty_track (clip_rotation c));
          cbn; rewrite ?lookup_alter_ne by congruence; reflexivity.
    + destruct (decide (r = cam)) as [-> | _]; [| reflexivity].
      rewrite Ho. cbn. f_equal. unfold framed, framed_position, framed_rotation.
      rewrite Hc. now rewrite set_pose_eta, set_mesh_eta.
  - destruct (decide (r = cam)) as [-> | _]; [| reflexivity]. now rewrite Ho.
Qed.

Lemma apply_cameras_lookup s (cams : list ref) r :
  forall e, clips e = clips s -> currentFrame e = currentFrame s ->
  heap (fold_left apply_camera cams e) !! r =
  if includes cams r then framed s <$> heap e !! r else heap e !! r.
Proof.
  induction cams as [|cam cams IH]; intros e Hc Hf; cbn; [reflexivity |].
  destruct (writes_fields _ _ _ (writes_apply_camera e cam))
    as (_ & _ & _ & _ & Hc' & _ & Hf' & _).
  rewrite IH by congruence.
  rewrite apply_camera_lookup.
  destruct (decide (r = cam)) as [-> | Hne].
  - rewrite Nat.eqb_refl. cbn.
    destruct (heap e !! cam) as [y|]; cbn; [| now destruct (includes cams cam)].
    rewrite (framed_ext s e) by assumption.
    destruct (includes cams cam); [| reflexivity]. now rewrite framed_idem.
  - assert (E : Nat.eqb r cam = false) by now apply Nat.eqb_neq.
    rewrite E. reflexivity.
Qed.

Lemma applyFrame_lookup s r :
  heap (applyFrame s) !! r =
  if includes (sceneCameras s) r then framed s <$> heap s !! r else heap s !! r.
Proof. unfold applyFrame. now apply apply_cameras_lookup. Qed.

Lemma writes_eq (R : ObjData -> ObjData -> Prop) s e e' :
  writes R s e -> writes R s e' -> (forall r, heap e !! r = heap e' !! r) -> e = e'.
Proof.
  intros [H1 _] [H2 _] Hh. rewrite H1, H2. f_equal. now apply map_eq.
Qed.

(** X4  applyFrame poses the scene cameras and nothing else: an object that
    is not a scene camera is left as it is; a scene camera keeps its id,
    name, kind and scale, and takes, for position and for rotation
    independently, the value of its clip's track interpolated at the current
    frame when that track exists and is not empty, keeping its own value
    otherwise.  No other field of the editor changes, and applying the same
    frame twice is the same as applying it once. *)
Theorem applyFrame_poses_cameras s :
  let s' := applyFrame s in
  s' = set_heap (heap s') s /\
  (forall r, ~ In r (sceneCameras s) -> heap s' !! r = heap s !! r) /\
  (forall r, heap s !! r = None -> heap s' !! r = None) /\
  (forall r o, In r (sceneCameras s) -> heap s !! r = Some o ->
     exists o', heap s' !! r = Some o' /\
       same_but_pose o o' /\
       position (mesh o') =
         match nonempty_track (Some (position_track (clips s !! id o))) with
         | Some track => interpolateKeyframes track (currentFrame s)
         | None => position (mesh o)
         end /\
       rotation (mesh o') =
         match nonempty_track (Some (rotation_track (clips s !! id o))) with
         | Some track => interpolateKeyframes track (currentFrame s)
         | None => rotation (mesh o)
         end) /\
  applyFrame s' = s'.
Proof.
  cbn. split; [apply (writes_applyFrame s) |].
  split; [| split; [| split]].
  - intros r Hr. rewrite applyFrame_lookup.
    apply includes_false in Hr. now rewrite Hr.
  - intros r Hr. rewrite applyFrame_lookup, Hr. now destruct (includes _ _).
  - intros r o Hr Ho. rewrite applyFrame_lookup.
    apply includes_In in Hr. rewrite Hr, Ho. cbn.
    exists (framed s o). split; [reflexivity |].
    split; [now repeat split |].
    unfold framed, framed_position, framed_rotation, position_track, rotation_track. cbn.
    destruct (clips s !! id o) as [c|]; [| now split].
    split.
    + destruct (clip_position c) as [[|k l]|]; reflexivity.
    + destruct (clip_rotation c) as [[|k l]|]; reflexivity.
  - destruct (writes_fields _ _ _ (writes_applyFrame s))
      as (_ & Hcams & _ & _ & Hc & _ & Hf & _).
    apply (writes_eq same_but_pose s).
    + eapply (writes_trans _ same_but_pose_trans); apply writes_applyFrame.
    + apply writes_applyFrame.
    + intros r. rewrite (applyFrame_lookup (applyFrame s)), Hcams.
      rewrite applyFrame_lookup.
      destruct (includes (sceneCameras s) r); [| reflexivity].
      destruct (heap s !! r); cbn; [| reflexivity].
      rewrite (framed_ext s (applyFrame s)) by assumption. now rewrite framed_idem.
Qed.

(** X5  Keying a camera does not move it: after addKeyframe, applying the
    current frame leaves every selected camera exactly where it was, as long
    as the selected cameras have distinct ids. *)
Theorem addKeyframe_then_applyFrame s r o :
  NoDup (map id (selected_cameras s)) ->
  In r (selectedObjects s) -> heap s !! r = Some o -> type o = Camera ->
  heap (applyFrame (addKeyframe theme s)) !! r = Some o.
Proof.
  intros Hnd Hr Ho Hty.
  pose proof (selected_camera_In s r o Hr Ho Hty) as Hin.
  assert (Hheap : heap (addKeyframe theme s) = heap s).
  { unfold addKeyframe. rewrite keyframe_fold_clips. reflexivity. }
  assert (Hcur : currentFrame (addKeyframe theme s) = currentFrame s).
  { unfold addKeyframe. rewrite keyframe_fold_clips. reflexivity. }
  assert (Hclip : clips (addKeyframe theme s) !! id o =
                  Some (keyed_clip (currentFrame s) o (clips s !! id o))).
  { rewrite clips_addKeyframe. now apply keyed_fold_in. }
  rewrite applyFrame_lookup, Hheap, Ho.
  destruct (includes _ r); [| reflexivity].
  cbn. f_equal. unfold framed, framed_position, framed_rotation.
  rewrite Hclip, Hcur. cbn [keyed_clip clip_position clip_rotation].
  rewrite !put_keyframe_nonempty, !interpolate_put_keyframe.
  now rewrite set_pose_eta, set_mesh_eta.
Qed.

End KeyframeRoundTrip.

Section Clipboard.

Context {N : Numeric}.
Variable theme : Theme.

Implicit Types (s e : State) (r : ref) (o : ObjData).

Lemma find_fresh (p : ref -> bool) (l : list ref) (n : ref) :
  Forall (fun r => p r = false) l -> p n = true -> List.find p (l ++ [n]) = Some n.
Proof.
  intros Hl Hn. induction Hl as [|x l Hx _ IH]; cbn; [now rewrite Hn |].
  now rewrite Hx.
Qed.

Lemma ids_bounded_lookup s r o :
  ids_bounded s -> In r (objects s) -> heap s !! r = Some o -> id o <= objectIdCounter s.
Proof.
  unfold ids_bounded, live_ids, deref. intros Hb Hr Ho.
  rewrite List.Forall_forall in Hb. apply Hb, in_map.
  apply list_elem_of_In, list_elem_of_omap. exists r.
  split; [now apply list_elem_of_In | exact Ho].
Qed.

Lemma deref_app s (l1 l2 : list ref) : deref s (l1 ++ l2) = deref s l1 ++ deref s l2.
Proof. unfold deref. apply omap_app. Qed.

Lemma deref_fresh s e (l : list ref) o :
  heap e = <[nextRef s := o]> (heap s) ->
  Forall (fun r => (r < nextRef s)%nat) l -> deref e l = deref s l.
Proof. intros He Hl. unfold deref. rewrite He. now apply deref_insert_fresh. Qed.

Lemma Forall_lt_S (l : list ref) (n : ref) :
  Forall (fun r => (r < n)%nat) l -> Forall (fun r => (r < S n)%nat) l.
Proof. apply List.Forall_impl. intros r Hr. now apply Nat.lt_lt_succ_r. Qed.

(* the tail shared by paste and duplicateSelected, on a record of a known
   kind that carries the next id *)
Lemma create_and_select_known (data : ObjRecord) (k : kind) e :
  parse_type (r_type data) = Some k ->
  allocated e -> ids_bounded e -> selection_allocated e ->
  r_id data = objectIdCounter e + 1 ->
  let e' := create_and_select data (set_objectIdCounter (objectIdCounter e + 1) e) in
  objects e' = objects e ++ [nextRef e] /\
  heap e' = <[nextRef e := object_of_record k data]> (heap e) /\
  nextRef e' = S (nextRef e) /\
  selectedObjects e' = selectedObjects e ++ [nextRef e] /\
  attached e' = match selectedObjects e with [] => Some (nextRef e) | _ => attached e end /\
  objectIdCounter e' = objectIdCounter e + 1 /\
  cameraTrackTargets e' = cameraTrackTargets e /\
  clips e' = clips e /\
  hist e' = hist e.
Proof.
  intros Hk Hal Hb Hsel Hid. cbn zeta. unfold create_and_select.
  set (e1 := set_objectIdCounter (objectIdCounter e + 1) e).
  destruct (create_known data k e1 Hk) as (Hobj & Hheap & Hnext & _).
  cbn zeta in Hobj, Hheap, Hnext.
  change (objects e1) with (objects e) in Hobj.
  change (heap e1) with (heap e) in Hheap.
  change (nextRef e1) with (nextRef e) in Hobj, Hheap, Hnext.
  set (e2 := createObjectFromData data e1) in *.
  assert (Hrest : selectedObjects e2 = selectedObjects e /\ attached e2 = attached e /\
                  objectIdCounter e2 = objectIdCounter e + 1 /\
                  cameraTrackTargets e2 = cameraTrackTargets e /\
                  clips e2 = clips e /\ hist e2 = hist e).
  { subst e2. unfold createObjectFromData. rewrite Hk. cbn.
    destruct (kind_eqb k Camera); now repeat split. }
  destruct Hrest as (Hs2 & Ha2 & Hc2 & Ht2 & Hcl2 & Hh2).
  assert (Hfind : find_by_id e2 (objects e2) (r_id data) = Some (nextRef e)).
  { unfold find_by_id. rewrite Hobj. apply find_fresh.
    - rewrite List.Forall_forall. intros r Hr. unfold has_id. rewrite Hheap.
      assert (Hlt : (r < nextRef e)%nat).
      { unfold allocated in Hal. rewrite List.Forall_forall in Hal. now apply Hal. }
      rewrite lookup_insert_ne by lia.
      destruct (heap e !! r) as [o|] eqn:Ho; [| reflexivity].
      pose proof (ids_bounded_lookup e r o Hb Hr Ho). apply Z.eqb_neq. lia.
    - unfold has_id. rewrite Hheap, lookup_insert_eq. now apply Z.eqb_eq. }
  rewrite Hfind. unfold addToSelection. rewrite Hs2.
  assert (Hni : includes (selectedObjects e) (nextRef e) = false).
  { apply includes_false. intros Hin. unfold selection_allocated in Hsel.
    rewrite List.Forall_forall in Hsel. apply Hsel in Hin. lia. }
  rewrite Hni. cbn [selectedObjects set_selectedObjects].
  rewrite length_app. cbn [length].
  destruct (selectedObjects e) as [|x l] eqn:Hse; cbn.
  - now repeat split.
  - replace (length l + 1)%nat with (S (length l)) by lia. cbn.
    now repeat split.
Qed.

Lemma paste_one_serialized s0 o e :
  allocated e -> ids_bounded e -> selection_allocated e ->
  Z.abs (objectIdCounter e) + 1 <= 2 ^ 53 ->
  let e' := paste_one e (serializeObject s0 o) in
  let new := pasted (objectIdCounter e + 1) o in
  objects e' = objects e ++ [nextRef e] /\
  heap e' = <[nextRef e := new]> (heap e) /\
  nextRef e' = S (nextRef e) /\
  selectedObjects e' = selectedObjects e ++ [nextRef e] /\
  attached e' = match selectedObjects e with [] => Some (nextRef e) | _ => attached e end /\
  objectIdCounter e' = objectIdCounter e + 1 /\
  cameraTrackTargets e' = cameraTrackTargets e /\
  clips e' = clips e /\
  hist e' = hist e.
Proof.
  intros Hal Hb Hsel Hroom. unfold paste_one. cbv zeta. rewrite (next_id e Hroom).
  match goal with |- context [create_and_select ?d _] =>
    exact (create_and_select_known d (type o) e (parse_type_name (type o)) Hal Hb Hsel eq_refl)
  end.
Qed.

Lemma duplicate_one_orig o e :
  allocated e -> ids_bounded e -> selection_allocated e ->
  Z.abs (objectIdCounter e) + 1 <= 2 ^ 53 ->
  let e' := duplicate_one e o in
  let new := duplicated (objectIdCounter e + 1) o in
  objects e' = objects e ++ [nextRef e] /\
  heap e' = <[nextRef e := new]> (heap e) /\
  nextRef e' = S (nextRef e) /\
  selectedObjects e' = selectedObjects e ++ [nextRef e] /\
  attached e' = match selectedObjects e with [] => Some (nextRef e) | _ => attached e end /\
  objectIdCounter e' = objectIdCounter e + 1 /\
  cameraTrackTargets e' = cameraTrackTargets e /\
  clips e' = clips e /\
  hist e' = hist e.
Proof.
  intros Hal Hb Hsel Hroom. unfold duplicate_one. cbv zeta. rewrite (next_id e Hroom).
  match goal with |- context [create_and_select ?d _] =>
    exact (create_and_select_known d (type o) e (parse_type_name (type o)) Hal Hb Hsel eq_refl)
  end.
Qed.

(* what one creation leaves true for the next one *)
Lemma pushed_ready e e' o :
  allocated e -> ids_bounded e -> selection_allocated e ->
  objects e' = objects e ++ [nextRef e] ->
  heap e' = <[nextRef e := o]> (heap e) ->
  nextRef e' = S (nextRef e) ->
  selectedObjects e' = selectedObjects e ++ [nextRef e] ->
  objectIdCounter e' = objectIdCounter e + 1 ->
  id o = objectIdCounter e + 1 ->
  allocated e' /\ ids_bounded e' /\ selection_allocated e' /\
  deref e' (objects e') = deref e (objects e) ++ [o] /\
  deref e' (selectedObjects e') = deref e (selectedObjects e) ++ [o].
Proof.
  intros Hal Hb Hsel Hobj Hheap Hnext Hs Hc Hid.
  assert (Hnew : deref e' [nextRef e] = [o]).
  { unfold deref. cbn. now rewrite Hheap, lookup_insert_eq. }
  assert (Hd : deref e' (objects e') = deref e (objects e) ++ [o]).
  { rewrite Hobj, deref_app, Hnew. f_equal. now apply (deref_fresh e e' _ o). }
  split; [| split; [| split; [| split]]].
  - unfold allocated. rewrite Hobj, Hnext. apply Forall_app. split.
    + now apply Forall_lt_S.
    + repeat constructor.
  - unfold ids_bounded, live_ids. rewrite Hd, map_app, Hc. apply Forall_app. split.
    + eapply List.Forall_impl; [| exact Hb]. cbn. intros; lia.
    + repeat constructor. cbn. lia.
  - unfold selection_allocated. rewrite Hs, Hnext. apply Forall_app. split.
    + now apply Forall_lt_S.
    + repeat constructor.
  - exact Hd.
  - rewrite Hs, deref_app, Hnew. f_equal. now apply (deref_fresh e e' _ o).
Qed.

Lemma paste_fold s0 (objs : list ObjData) :
  forall e, allocated e -> ids_bounded e -> selection_allocated e ->
  Z.abs (objectIdCounter e) + Z.of_nat (length objs) <= 2 ^ 53 ->
  let e' := fold_left paste_one (map (serializeObject s0) objs) e in
  let new := number_from (objectIdCounter e) pasted objs in
  deref e' (objects e') = deref e (objects e) ++ new /\
  deref e' (selectedObjects e') = deref e (selectedObjects e) ++ new /\
  objectIdCounter e' = objectIdCounter e + Z.of_nat (length objs) /\
  cameraTrackTargets e' = cameraTrackTargets e /\
  clips e' = clips e /\
  hist e' = hist e /\
  allocated e' /\ ids_bounded e'.
Proof.
  induction objs as [|o objs IH]; intros e Hal Hb Hsel Hroom; cbn zeta.
  - cbn. rewrite !app_nil_r, Z.add_0_r. now repeat split.
  - cbn [map fold_left number_from length]. cbn [length] in Hroom.
    assert (Hone : Z.abs (objectIdCounter e) + 1 <= 2 ^ 53) by lia.
    destruct (paste_one_serialized s0 o e Hal Hb Hsel Hone)
      as (Hobj & Hheap & Hnext & Hs & _ & Hc & Ht & Hcl & Hh).
    cbn zeta in *.
    destruct (pushed_ready e _ _ Hal Hb Hsel Hobj Hheap Hnext Hs Hc eq_refl)
      as (Hal' & Hb' & Hsel' & Hd & Hds).
    assert (Hroom' : Z.abs (objectIdCounter (paste_one e (serializeObject s0 o)))
                     + Z.of_nat (length objs) <= 2 ^ 53) by (rewrite Hc; lia).
    destruct (IH _ Hal' Hb' Hsel' Hroom') as (H1 & H2 & H3 & H4 & H5 & H6 & H7 & H8).
    cbn zeta in *.
    rewrite H1, H2, H3, H4, H5, H6, Hd, Hds, Hc, Ht, Hcl, Hh, <- !app_assoc.
    cbn [app]. repeat split; try assumption. lia.
Qed.

Lemma duplicate_fold (l : list ref) :
  forall e, allocated e -> ids_bounded e -> selection_allocated e ->
  Forall (fun r => (r < nextRef e)%nat) l ->
  Z.abs (objectIdCounter e) + Z.of_nat (length l) <= 2 ^ 53 ->
  let e' := fold_left duplicate_ref l e in
  let new := number_from (objectIdCounter e) duplicated (deref e l) in
  deref e' (objects e') = deref e (objects e) ++ new /\
  deref e' (selectedObjects e') = deref e (selectedObjects e) ++ new /\
  objectIdCounter e' = objectIdCounter e + Z.of_nat (length (deref e l)) /\
  cameraTrackTargets e' = cameraTrackTargets e /\
  clips e' = clips e /\
  hist e' = hist e /\
  allocated e' /\ ids_bounded e'.
Proof.
  induction l as [|r l IH]; intros e Hal Hb Hsel Hl Hroom; cbn zeta.
  - cbn. rewrite !app_nil_r, Z.add_0_r. now repeat split.
  - apply List.Forall_cons_iff in Hl as [Hr Hl].
    cbn [length] in Hroom.
    assert (Hone : Z.abs (objectIdCounter e) + 1 <= 2 ^ 53) by lia.
    cbn [fold_left].
    change (deref e (r :: l)) with
      (match heap e !! r with Some o => o :: deref e l | None => deref e l end).
    destruct (heap e !! r) as [o|] eqn:Ho.
    + assert (Hstep : duplicate_ref e r = duplicate_one e o)
        by (unfold duplicate_ref; now rewrite Ho).
      rewrite Hstep.
      destruct (duplicate_one_orig o e Hal Hb Hsel Hone)
        as (Hobj & Hheap & Hnext & Hs & _ & Hc & Ht & Hcl & Hh).
      cbn zeta in *.
      destruct (pushed_ready e _ _ Hal Hb Hsel Hobj Hheap Hnext Hs Hc eq_refl)
        as (Hal' & Hb' & Hsel' & Hd & Hds).
      assert (Hl' : Forall (fun r => (r < nextRef (duplicate_one e o))%nat) l).
      { rewrite Hnext. now apply Forall_lt_S. }
      assert (Hroom' : Z.abs (objectIdCounter (duplicate_one e o))
                       + Z.of_nat (length l) <= 2 ^ 53) by (rewrite Hc; lia).
      destruct (IH _ Hal' Hb' Hsel' Hl' Hroom')
        as (H1 & H2 & H3 & H4 & H5 & H6 & H7 & H8).
      cbn zeta in *.
      rewrite (deref_fresh e (duplicate_one e o) l _ Hheap Hl) in H1, H2, H3.
      rewrite H1, H2, H3, H4, H5, H6, Hd, Hds, Hc, Ht, Hcl, Hh, <- !app_assoc.
      cbn [app number_from length]. repeat split; try assumption. lia.
    + assert (Hstep : duplicate_ref e r = e) by (unfold duplicate_ref; now rewrite Ho).
      rewrite Hstep. apply IH; try assumption. lia.
Qed.

Lemma snapshot_saveState s : snapshot (saveState theme s) = snapshot s.
Proof. reflexivity. Qed.



End Clipboard.

Section SceneInvariants.

Context {N : Numeric}.
Variable theme : Theme.

Implicit Types (s e : State) (r : ref) (o : ObjData).

(** ** What the invariants read *)

Lemma shape_lookup s e r :
  type <$> heap e = type <$> heap s -> type <$> (heap e !! r) = type <$> (heap s !! r).
Proof. intros H. rewrite <- !lookup_fmap. now rewrite H. Qed.

Lemma scene_ok_shape s e : scene_shape e = scene_shape s -> scene_ok s -> scene_ok e.
Proof.
  unfold scene_shape. intros H. injection H as Ho Hc Hn Ht.
  intros (Hnd & Hal & Hdom & Hcam).
  assert (Hs : forall r, is_Some (heap e !! r) <-> is_Some (heap s !! r)).
  { intros r. pose proof (shape_lookup s e r Ht) as H.
    destruct (heap e !! r), (heap s !! r); cbn in H; try discriminate;
      split; intros [? ?]; eauto; discriminate. }
  assert (Hk : forall r, camera_at e r = camera_at s r).
  { intros r. pose proof (shape_lookup s e r Ht) as H. unfold camera_at, is_camera.
    destruct (heap e !! r), (heap s !! r); cbn in H; try discriminate; [| reflexivity].
    now injection H as ->. }
  split; [now rewrite Ho |]. split; [unfold allocated; now rewrite Ho, Hn |].
  split.
  - intros r. rewrite Hn, Hs. apply Hdom.
  - rewrite Hc, Ho, Hcam. apply List.filter_ext. intros r. now rewrite Hk.
Qed.

Lemma selection_ok_shape s e :
  selection_shape e = selection_shape s -> selection_ok s -> selection_ok e.
Proof.
  unfold selection_shape, selection_ok. intros H. injection H as -> ->. auto.
Qed.

Lemma selection_live_shape s e :
  objects e = objects s -> selectedObjects e = selectedObjects s ->
  selection_live s -> selection_live e.
Proof. unfold selection_live. intros -> ->. auto. Qed.

Lemma still_refl s : still s s.
Proof. now split. Qed.

Lemma still_trans s1 s2 s3 : still s1 s2 -> still s2 s3 -> still s1 s3.
Proof. intros [H1 H1'] [H2 H2']. split; congruence. Qed.

Lemma still_saveState s : still s (saveState theme s).
Proof. now split. Qed.

Lemma writes_still (R : ObjData -> ObjData -> Prop) s e :
  (forall o o', R o o' -> type o' = type o) -> writes R s e -> still s e.
Proof.
  intros HR [He Hl]. unfold still, scene_shape, selection_shape. rewrite He. cbn.
  split; [| reflexivity]. f_equal. apply map_eq. intros r. rewrite !lookup_fmap.
  destruct (Hl r) as [o o' H|]; cbn; [| reflexivity]. f_equal. now apply HR.
Qed.

Lemma pose_type o o' : same_but_pose o o' -> type o' = type o.
Proof. now intros (_ & _ & H & _). Qed.

Lemma rotation_type o o' : same_but_rotation o o' -> type o' = type o.
Proof. intros [H _]. now apply pose_type. Qed.

Lemma identity_type o o' : same_identity o o' -> type o' = type o.
Proof. now intros [_ H]. Qed.

Lemma still_applyFrame s : still s (applyFrame s).
Proof. exact (writes_still _ s _ pose_type (writes_applyFrame s)). Qed.

Lemma still_seek (f : Z) s : still s (seek f s).
Proof.
  unfold seek. eapply still_trans; [| apply still_applyFrame]. now split.
Qed.

Lemma still_animate s : still s (animate s).
Proof.
  unfold animate.
  eapply still_trans;
    [| exact (writes_still _ _ _ rotation_type (writes_updateCameraTracking _))].
  destruct (isPlaying s); [| apply still_refl].
  eapply still_trans; [| apply still_applyFrame]. now split.
Qed.

Lemma still_update_obj r (f : ObjData -> ObjData) s :
  (forall o, type (f o) = type o) -> still s (update_obj r f s).
Proof.
  intros Hf. apply (writes_still (fun o o' => type o' = type o)); [auto |].
  apply writes_update_obj; [reflexivity | exact Hf].
Qed.

Lemma still_fold {T} (f : State -> T -> State) (l : list T) :
  (forall s x, still s (f s x)) -> forall s, still s (fold_left f l s).
Proof.
  intros Hf. induction l as [|x l IH]; intros s; cbn; [apply still_refl |].
  eapply still_trans; [apply Hf | apply IH].
Qed.

(* the commands that leave both shapes alone *)
Lemma step_still s (c : command) :
  still s (step theme s c) \/
  match c with
  | AddQuad | AddCube | AddCamera | Paste | Duplicate | Delete | Undo | Redo
  | Select _ _ | SelectAll | DeselectAll | Load _ => True
  | _ => False
  end.
Proof.
  destruct c; cbn [step]; try (now right); left.
  - unfold copy. now destruct (selectedObjects s).
  - unfold renameObject. eapply still_trans; [| apply still_saveState].
    now apply still_update_obj.
  - unfold editTransform. eapply still_trans; [| apply still_saveState].
    apply still_fold. intros s0 x. apply still_update_obj. now destruct p.
  - unfold dragGizmo. destruct (attached s); [| apply still_refl].
    now apply still_update_obj.
  - apply still_saveState.
  - unfold setGridPlane. destruct (_ || _); [| destruct (inherited_name plane)]; now split.
  - unfold addKeyframe. eapply still_trans; [| apply still_saveState].
    rewrite keyframe_fold_clips. now split.
  - now split.
  - unfold stopPlayback. eapply still_trans; [| apply still_applyFrame]. now split.
  - apply still_seek.
  - unfold stepFrame. destruct (delta <? 0); apply still_seek.
  - apply still_seek.
  - apply still_seek.
  - unfold setCameraTrackTarget. now destruct (or_null targetId).
  - apply still_animate.
Qed.

(** ** Selection *)

Lemma selects_refl s : selects s s.
Proof. now destruct s. Qed.

Lemma selects_trans s1 s2 s3 : selects s1 s2 -> selects s2 s3 -> selects s1 s3.
Proof. unfold selects. intros H1 H2. rewrite H2 at 1. rewrite H1 at 1. reflexivity. Qed.

Lemma selects_deselectAll s : selects s (deselectAll s).
Proof. reflexivity. Qed.

Lemma selects_addToSelection r s : selects s (addToSelection r s).
Proof.
  unfold addToSelection. destruct (includes _ _); [apply selects_refl |].
  cbn. now destruct (_ =? _)%nat.
Qed.

Lemma selects_removeFromSelection r s : selects s (removeFromSelection r s).
Proof.
  unfold removeFromSelection. destruct (includes _ _); [reflexivity | apply selects_refl].
Qed.

Lemma selects_selectObject r (additive : bool) s : selects s (selectObject r additive s).
Proof.
  unfold selectObject.
  eapply (selects_trans _ (if additive then s else deselectAll s)).
  - destruct additive; [apply selects_refl | apply selects_deselectAll].
  - destruct (_ && _); [apply selects_removeFromSelection | apply selects_addToSelection].
Qed.

Lemma selects_selectAll s : selects s (selectAll s).
Proof.
  unfold selectAll. eapply selects_trans; [apply selects_deselectAll |].
  generalize (deselectAll s) as e. induction (objects s) as [|x l IH]; intros e; cbn.
  - apply selects_refl.
  - eapply selects_trans; [apply selects_addToSelection | apply IH].
Qed.

Lemma selects_scene s e : selects s e -> scene_shape e = scene_shape s.
Proof. intros ->. reflexivity. Qed.

Lemma selects_fields s e :
  selects s e ->
  objects e = objects s /\ heap e = heap s /\ nextRef e = nextRef s /\
  sceneCameras e = sceneCameras s /\ objectIdCounter e = objectIdCounter s /\
  clips e = clips s /\ cameraTrackTargets e = cameraTrackTargets s /\ hist e = hist s.
Proof. intros ->. now repeat split. Qed.

Lemma remove_first_In (l : list ref) r x : In x (remove_first r l) -> In x l.
Proof.
  induction l as [|y l IH]; cbn; [tauto |].
  destruct (Nat.eqb r y); [now right |]. intros [-> | H]; [now left | right; auto].
Qed.

Lemma remove_first_NoDup (l : list ref) r : NoDup l -> NoDup (remove_first r l).
Proof.
  induction l as [|y l IH]; cbn; [auto |].
  rewrite NoDup_cons. intros [Hy Hl]. destruct (Nat.eqb r y); [exact Hl |].
  apply NoDup_cons. split; [| auto].
  rewrite list_elem_of_In in *. intros H. apply Hy. eapply remove_first_In, H.
Qed.

Lemma last_In (l : list ref) x : last l = Some x -> In x l.
Proof.
  intros H. apply last_Some in H as [l' ->]. apply in_or_app. right. now left.
Qed.

Lemma selection_ok_deselectAll s : selection_ok (deselectAll s).
Proof. split; [apply NoDup_nil_2 | reflexivity]. Qed.

Lemma selection_ok_addToSelection r s :
  selection_ok s -> selection_ok (addToSelection r s).
Proof.
  intros [Hnd Hat]. unfold addToSelection.
  destruct (includes (selectedObjects s) r) eqn:Hin; [now split |].
  apply includes_false in Hin. cbn [selectedObjects set_selectedObjects].
  assert (Hnd' : NoDup (selectedObjects s ++ [r])).
  { apply NoDup_app. split; [exact Hnd |]. split; [| apply NoDup_singleton].
    intros x Hx Hr. apply list_elem_of_In in Hx.
    apply list_elem_of_In in Hr as [<- | []]. contradiction. }
  destruct (selectedObjects s) as [|x l] eqn:Hs; cbn.
  - split; [exact Hnd' | now left].
  - rewrite length_app. cbn [length].
    replace (length l + 1)%nat with (S (length l)) by lia. cbn.
    split; [exact Hnd' |].
    cbn [attached selectedObjects set_selectedObjects].
    destruct (attached s) as [a|]; [| discriminate].
    change (In a ((x :: l) ++ [r])). apply in_or_app. now left.
Qed.

Lemma selection_ok_removeFromSelection r s :
  selection_ok s -> selection_ok (removeFromSelection r s).
Proof.
  intros [Hnd Hat]. unfold removeFromSelection.
  destruct (includes (selectedObjects s) r); [| now split].
  cbn. split; [now apply remove_first_NoDup |].
  destruct (last (remove_first r (selectedObjects s))) as [x|] eqn:Hl.
  - now apply last_In.
  - now apply last_None.
Qed.

Lemma selection_ok_selectObject r (additive : bool) s :
  selection_ok s -> selection_ok (selectObject r additive s).
Proof.
  intros Hs. unfold selectObject.
  assert (H1 : selection_ok (if additive then s else deselectAll s))
    by (destruct additive; [exact Hs | apply selection_ok_deselectAll]).
  destruct (_ && _);
    [now apply selection_ok_removeFromSelection | now apply selection_ok_addToSelection].
Qed.

Lemma selection_ok_fold_add (l : list ref) :
  forall s, selection_ok s -> selection_ok (fold_left (fun s0 x => addToSelection x s0) l s).
Proof.
  induction l as [|x l IH]; intros s Hs; cbn; [exact Hs |].
  apply IH. now apply selection_ok_addToSelection.
Qed.

Lemma selection_live_addToSelection r s :
  In r (objects s) -> selection_live s -> selection_live (addToSelection r s).
Proof.
  intros Hr Hs. unfold addToSelection. destruct (includes _ _); [exact Hs |].
  assert (H : selection_live (set_selectedObjects (selectedObjects s ++ [r]) s)).
  { intros x Hx. cbn in *. apply in_app_or in Hx as [Hx | [<- | []]]; auto. }
  cbn. now destruct (_ =? _)%nat.
Qed.

Lemma selection_live_removeFromSelection r s :
  selection_live s -> selection_live (removeFromSelection r s).
Proof.
  intros Hs. unfold removeFromSelection. destruct (includes _ _); [| exact Hs].
  intros x Hx. cbn in *. eapply Hs, remove_first_In, Hx.
Qed.

Lemma selection_live_empty s : selectedObjects s = [] -> selection_live s.
Proof. intros H x. rewrite H. intros []. Qed.

Lemma selection_live_selectObject r (additive : bool) s :
  In r (objects s) -> selection_live s -> selection_live (selectObject r additive s).
Proof.
  intros Hr Hs. unfold selectObject.
  assert (H1 : selection_live (if additive then s else deselectAll s))
    by (destruct additive; [exact Hs | now apply selection_live_empty]).
  assert (H2 : In r (objects (if additive then s else deselectAll s)))
    by now destruct additive.
  destruct (_ && _);
    [now apply selection_live_removeFromSelection | now apply selection_live_addToSelection].
Qed.

Lemma selection_live_fold_add (l : list ref) :
  forall s, (forall x, In x l -> In x (objects s)) -> selection_live s ->
  selection_live (fold_left (fun s0 x => addToSelection x s0) l s).
Proof.
  induction l as [|x l IH]; intros s Hl Hs; cbn; [exact Hs |].
  apply IH.
  - intros y Hy. destruct (selects_fields _ _ (selects_addToSelection x s)) as (-> & _).
    apply Hl. now right.
  - apply selection_live_addToSelection; [apply Hl; now left | exact Hs].
Qed.


(** ** Creation, deletion, restoration *)

Lemma NoDup_List_filter (f : ref -> bool) (l : list ref) :
  NoDup l -> NoDup (List.filter f l).
Proof.
  induction l as [|x l IH]; cbn; [auto |].
  rewrite NoDup_cons. intros [Hx Hl]. destruct (f x); [| auto].
  apply NoDup_cons. split; [| auto].
  rewrite list_elem_of_In in *. intros H. apply Hx. now apply List.filter_In in H as [H _].
Qed.

Lemma scene_ok_pushed s e o :
  scene_ok s ->
  objects e = objects s ++ [nextRef s] ->
  heap e = <[nextRef s := o]> (heap s) ->
  nextRef e = S (nextRef s) ->
  sceneCameras e = (if is_camera o then sceneCameras s ++ [nextRef s] else sceneCameras s) ->
  scene_ok e.
Proof.
  intros (Hnd & Hal & Hdom & Hcam) Hobj Hheap Hnext Hc.
  assert (Hlt : forall r, In r (objects s) -> (r < nextRef s)%nat).
  { intros r Hr. unfold allocated in Hal. rewrite List.Forall_forall in Hal. auto. }
  split; [| split; [| split]].
  - rewrite Hobj. apply NoDup_app. split; [exact Hnd |]. split; [| apply NoDup_singleton].
    intros x Hx Hn. apply list_elem_of_In in Hx.
    apply list_elem_of_In in Hn as [<- | []]. apply Hlt in Hx. lia.
  - unfold allocated. rewrite Hobj, Hnext. apply Forall_app. split.
    + now apply Forall_lt_S.
    + repeat constructor.
  - intros r. rewrite Hnext, Hheap.
    destruct (decide (r = nextRef s)) as [-> | Hne].
    + rewrite lookup_insert_eq. split; [eauto | lia].
    + rewrite lookup_insert_ne by congruence. rewrite <- Hdom. lia.
  - assert (Hk : forall r, In r (objects s) -> camera_at e r = camera_at s r).
    { intros r Hr. unfold camera_at. rewrite Hheap, lookup_insert_ne; [reflexivity |].
      apply Hlt in Hr. lia. }
    assert (Hn : camera_at e (nextRef s) = is_camera o).
    { unfold camera_at. now rewrite Hheap, lookup_insert_eq. }
    rewrite Hc, Hobj, List.filter_app, Hcam.
    rewrite (List.filter_ext_in _ _ _ Hk). cbn. rewrite Hn.
    destruct (is_camera o); [reflexivity | now rewrite app_nil_r].
Qed.

Lemma scene_ok_create (data : ObjRecord) s :
  scene_ok s -> scene_ok (createObjectFromData data s).
Proof.
  intros Hs. destruct (parse_type (r_type data)) as [k|] eqn:Hk.
  - destruct (create_known data k s Hk) as (Ho & Hh & Hn & Hc).
    now apply (scene_ok_pushed s _ (object_of_record k data)).
  - now rewrite create_unknown.
Qed.

Lemma create_selection (data : ObjRecord) s :
  selection_shape (createObjectFromData data s) = selection_shape s /\
  (forall r, In r (objects s) -> In r (objects (createObjectFromData data s))).
Proof.
  unfold createObjectFromData. destruct (parse_type (r_type data)) as [k|]; [| now split].
  cbn. destruct (kind_eqb k Camera); cbn; (split; [reflexivity |]);
    intros r Hr; apply in_or_app; now left.
Qed.

Lemma restore_object_create s (data : ObjRecord) :
  scene_shape (restore_object s data) = scene_shape (createObjectFromData data s) /\
  selection_shape (restore_object s data) = selection_shape (createObjectFromData data s).
Proof. unfold restore_object. now destruct (or_null _). Qed.

Lemma scene_ok_restore_fold (recs : list ObjRecord) :
  forall s, scene_ok s -> scene_ok (fold_left restore_object recs s).
Proof.
  induction recs as [|d recs IH]; intros s Hs; cbn; [exact Hs |].
  apply IH. eapply scene_ok_shape; [apply restore_object_create |].
  now apply scene_ok_create.
Qed.

Lemma selection_restore_fold (recs : list ObjRecord) :
  forall s, selection_shape (fold_left restore_object recs s) = selection_shape s.
Proof.
  induction recs as [|d recs IH]; intros s; cbn; [reflexivity |].
  rewrite IH. destruct (restore_object_create s d) as [_ ->]. apply create_selection.
Qed.

Lemma scene_ok_restoreState (d : StateData) s :
  scene_ok s -> scene_ok (final (restoreState d s)).
Proof.
  intros (_ & _ & Hdom & _).
  set (s2 := set_cameraTrackTargets ∅ (set_sceneCameras [] (set_objects [] (deselectAll s)))).
  assert (H2 : scene_ok s2).
  { split; [apply NoDup_nil_2 |]. split; [constructor |]. split; [exact Hdom | reflexivity]. }
  generalize (restoreState_final d s). cbv zeta. fold s2.
  destruct (sd_objects d) as [recs|]; [intros [-> | ->] | now intros ->].
  - apply (scene_ok_restore_fold _ s2 H2).
  - eapply scene_ok_shape; [| apply (scene_ok_restore_fold (readable recs) s2 H2)].
    reflexivity.
Qed.

Lemma restoreState_deselects (d : StateData) s :
  selection_shape (final (restoreState d s)) = ([], None).
Proof.
  generalize (restoreState_final d s). cbv zeta.
  destruct (sd_objects d) as [recs|]; [intros [-> | ->] | now intros ->].
  - now rewrite selection_restore_fold.
  - match goal with |- selection_shape (set_objectIdCounter _ (set_clips _ ?x)) = _ =>
      change (selection_shape x = ([], None)) end.
    now rewrite selection_restore_fold.
Qed.

Lemma selection_ok_cleared s : selection_shape s = ([], None) -> selection_ok s.
Proof.
  unfold selection_shape, selection_ok. intros H. injection H as -> ->.
  split; [apply NoDup_nil_2 | reflexivity].
Qed.

Lemma selection_live_cleared s : selection_shape s = ([], None) -> selection_live s.
Proof.
  unfold selection_shape. intros H. injection H as H _. now apply selection_live_empty.
Qed.

Lemma scene_ok_delete_one s x : scene_ok s -> scene_ok (delete_one s x).
Proof.
  intros (Hnd & Hal & Hdom & Hcam).
  destruct (delete_one_frame s x) as (Hh & _ & _ & Ho & Hc).
  assert (Hn : nextRef (delete_one s x) = nextRef s).
  { unfold delete_one. cbn. now destruct (heap s !! x). }
  assert (Hk : forall r, camera_at (delete_one s x) r = camera_at s r).
  { intros r. unfold camera_at. now rewrite Hh. }
  split; [| split; [| split]].
  - rewrite Ho. now apply NoDup_List_filter.
  - unfold allocated in *. rewrite Ho, Hn. rewrite List.Forall_forall in *.
    intros r Hr. apply List.filter_In in Hr as [Hr _]. auto.
  - intros r. now rewrite Hn, Hh.
  - rewrite Hc, Ho, Hcam, !filter_filter.
    apply List.filter_ext. intros r. rewrite Hk. apply andb_comm.
Qed.

Lemma scene_ok_delete_fold (sel : list ref) :
  forall s, scene_ok s -> scene_ok (fold_left delete_one sel s).
Proof.
  induction sel as [|x sel IH]; intros s Hs; cbn; [exact Hs |].
  apply IH. now apply scene_ok_delete_one.
Qed.

Lemma saveState_fields s :
  objects (saveState theme s) = objects s /\
  heap (saveState theme s) = heap s /\
  nextRef (saveState theme s) = nextRef s /\
  sceneCameras (saveState theme s) = sceneCameras s /\
  selectedObjects (saveState theme s) = selectedObjects s /\
  attached (saveState theme s) = attached s /\
  objectIdCounter (saveState theme s) = objectIdCounter s /\
  clips (saveState theme s) = clips s /\
  cameraTrackTargets (saveState theme s) = cameraTrackTargets s.
Proof. now repeat split. Qed.

(* what addQuad, addCube and addCamera leave *)
Lemma addObject_fields (k : kind) (prefix : string) (m : Mesh) s :
  let s' := addObject theme k prefix m s in
  let o := {| id := double_round (objectIdCounter s + 1);
              name := prefix +:+ pretty (double_round (objectIdCounter s + 1));
              type := k; mesh := m |} in
  objects s' = objects s ++ [nextRef s] /\
  heap s' = <[nextRef s := o]> (heap s) /\
  nextRef s' = S (nextRef s) /\
  sceneCameras s' = (if is_camera o then sceneCameras s ++ [nextRef s] else sceneCameras s) /\
  selectedObjects s' = [nextRef s] /\
  attached s' = Some (nextRef s) /\
  objectIdCounter s' = double_round (objectIdCounter s + 1) /\
  clips s' = clips s /\
  cameraTrackTargets s' = cameraTrackTargets s.
Proof.
  cbn zeta. unfold addObject, alloc, is_camera. cbn [type].
  match goal with |- context [selectObject ?r false ?x] =>
    destruct (select_plain x r) as [Hs Ha];
    destruct (selects_fields _ _ (selects_selectObject r false x))
      as (Ho & Hh & Hn & Hc & Hi & Hcl & Ht & _)
  end.
  match goal with |- context [saveState theme ?x] =>
    destruct (saveState_fields x) as (-> & -> & -> & -> & -> & -> & -> & -> & ->) end.
  rewrite Hs, Ha, Ho, Hh, Hn, Hc, Hi, Hcl, Ht.
  destruct (kind_eqb k Camera); now repeat split.
Qed.

Lemma scene_ok_addObject (k : kind) (prefix : string) (m : Mesh) s :
  scene_ok s -> scene_ok (addObject theme k prefix m s).
Proof.
  intros Hs. destruct (addObject_fields k prefix m s) as (Ho & Hh & Hn & Hc & _).
  cbn zeta in *. eapply scene_ok_pushed; eauto.
Qed.

Lemma selection_addObject (k : kind) (prefix : string) (m : Mesh) s :
  selection_ok (addObject theme k prefix m s) /\
  selection_live (addObject theme k prefix m s).
Proof.
  destruct (addObject_fields k prefix m s) as (Ho & _ & _ & _ & Hs & Ha & _).
  cbn zeta in *. split.
  - unfold selection_ok. rewrite Hs, Ha. split; [apply NoDup_singleton | now left].
  - intros r. rewrite Hs, Ho. intros [<- | []]. apply in_or_app. right. now left.
Qed.

(* the tail of the loops of paste and duplicateSelected *)
Lemma tidy_create_and_select (data : ObjRecord) s :
  (scene_ok s -> scene_ok (create_and_select data s)) /\
  (selection_ok s -> selection_ok (create_and_select data s)) /\
  (selection_live s -> selection_live (create_and_select data s)).
Proof.
  unfold create_and_select.
  set (s1 := createObjectFromData data s).
  destruct (create_selection data s) as [Hsel Hsub]. fold s1 in Hsel, Hsub.
  assert (H1 : selection_ok s -> selection_ok s1)
    by (intros H; eapply selection_ok_shape; eauto).
  assert (H2 : selection_live s -> selection_live s1).
  { intros H r Hr. apply Hsub, H. unfold selection_shape in Hsel.
    injection Hsel as Hsel _. now rewrite <- Hsel. }
  destruct (find_by_id s1 (objects s1) (r_id data)) as [newObj|] eqn:Hf.
  - apply find_by_id_live in Hf as [Hin _].
    split; [| split].
    + intros H. eapply scene_ok_shape;
        [apply selects_scene, selects_addToSelection | now apply scene_ok_create].
    + intros H. now apply selection_ok_addToSelection, H1.
    + intros H. apply selection_live_addToSelection; [exact Hin | now apply H2].
  - split; [apply scene_ok_create | split; assumption].
Qed.

Lemma tidy_bump (c : Z) s :
  scene_shape (set_objectIdCounter c s) = scene_shape s /\
  selection_shape (set_objectIdCounter c s) = selection_shape s.
Proof. now split. Qed.

Lemma tidy_paste_one s (data : ObjRecord) :
  (scene_ok s -> scene_ok (paste_one s data)) /\
  (selection_ok s -> selection_ok (paste_one s data)) /\
  (selection_live s -> selection_live (paste_one s data)).
Proof.
  unfold paste_one. cbv zeta.
  match goal with |- context [create_and_select ?d ?x] =>
    destruct (tidy_create_and_select d x) as (H1 & H2 & H3) end.
  split; [| split]; intros H; [apply H1 | apply H2 | apply H3]; exact H.
Qed.

Lemma tidy_duplicate_ref s r :
  (scene_ok s -> scene_ok (duplicate_ref s r)) /\
  (selection_ok s -> selection_ok (duplicate_ref s r)) /\
  (selection_live s -> selection_live (duplicate_ref s r)).
Proof.
  unfold duplicate_ref. destruct (heap s !! r) as [o|]; [| tauto].
  unfold duplicate_one. cbv zeta.
  match goal with |- context [create_and_select ?d ?x] =>
    destruct (tidy_create_and_select d x) as (H1 & H2 & H3) end.
  split; [| split]; intros H; [apply H1 | apply H2 | apply H3]; exact H.
Qed.

Lemma tidy_fold {T} (f : State -> T -> State) (P : State -> Prop) (l : list T) :
  (forall s x, P s -> P (f s x)) -> forall s, P s -> P (fold_left f l s).
Proof.
  intros Hf. induction l as [|x l IH]; intros s Hs; cbn; [exact Hs |].
  apply IH, Hf, Hs.
Qed.

Lemma scene_ok_step s (c : command) : scene_ok s -> scene_ok (step theme s c).
Proof.
  intros Hs. destruct (step_still s c) as [[H _] | Hc]; [now apply (scene_ok_shape s) |].
  destruct c; try contradiction; cbn [step].
  - now apply scene_ok_addObject.
  - now apply scene_ok_addObject.
  - now apply scene_ok_addObject.
  - unfold paste. destruct (clipboard s) as [cb|]; [| exact Hs].
    eapply scene_ok_shape; [apply still_saveState |].
    apply (tidy_fold paste_one scene_ok); [intros; now apply tidy_paste_one |].
    eapply scene_ok_shape; [apply selects_scene, selects_deselectAll | exact Hs].
  - unfold duplicateSelected. destruct (selectedObjects s) as [|x l]; [exact Hs |].
    eapply scene_ok_shape; [apply still_saveState |].
    apply (tidy_fold duplicate_ref scene_ok); [intros; now apply tidy_duplicate_ref |].
    eapply scene_ok_shape; [apply selects_scene, selects_deselectAll | exact Hs].
  - unfold deleteSelected. destruct (selectedObjects s) as [|x l]; [exact Hs |].
    eapply scene_ok_shape; [apply still_saveState |].
    eapply scene_ok_shape; [apply selects_scene, selects_deselectAll |].
    now apply scene_ok_delete_fold.
  - destruct (undo_cases s) as [-> | (st & p & c & _ & ->)]; [exact Hs |].
    apply scene_ok_restoreState. eapply scene_ok_shape; [| exact Hs]. reflexivity.
  - destruct (redo_cases s) as [-> | (rs & c & _ & ->)]; [exact Hs |].
    apply scene_ok_restoreState. eapply scene_ok_shape; [| exact Hs]. reflexivity.
  - eapply scene_ok_shape; [apply selects_scene, selects_selectObject | exact Hs].
  - eapply scene_ok_shape; [apply selects_scene, selects_selectAll | exact Hs].
  - exact Hs.
  - unfold load. destruct parsed as [data|]; [| exact Hs].
    apply scene_ok_restoreState. eapply scene_ok_shape; [| exact Hs].
    destruct (f_gridPlane data) as [g|], (f_totalFrames data) as [t|];
      try destruct (String.eqb g ""); try destruct (t =? 0);
      unfold setGridPlane;
      try (destruct (_ || _); [| destruct (inherited_name _)]); reflexivity.
Qed.

Lemma selection_ok_step s (c : command) : selection_ok s -> selection_ok (step theme s c).
Proof.
  intros Hs. destruct (step_still s c) as [[_ H] | Hc]; [now apply (selection_ok_shape s) |].
  destruct c; try contradiction; cbn [step].
  - apply selection_addObject.
  - apply selection_addObject.
  - apply selection_addObject.
  - unfold paste. destruct (clipboard s) as [cb|]; [| exact Hs].
    eapply selection_ok_shape; [apply still_saveState |].
    apply (tidy_fold paste_one selection_ok); [intros; now apply tidy_paste_one |].
    apply selection_ok_deselectAll.
  - unfold duplicateSelected. destruct (selectedObjects s) as [|x l] eqn:E;
      [exact Hs |].
    eapply selection_ok_shape; [apply still_saveState |].
    apply (tidy_fold duplicate_ref selection_ok); [intros; now apply tidy_duplicate_ref |].
    apply selection_ok_deselectAll.
  - unfold deleteSelected. destruct (selectedObjects s) as [|x l] eqn:E; [exact Hs |].
    now apply selection_ok_cleared.
  - destruct (undo_cases s) as [-> | (st & p & c & _ & ->)]; [exact Hs |].
    apply selection_ok_cleared, restoreState_deselects.
  - destruct (redo_cases s) as [-> | (rs & c & _ & ->)]; [exact Hs |].
    apply selection_ok_cleared, restoreState_deselects.
  - now apply selection_ok_selectObject.
  - unfold selectAll. apply selection_ok_fold_add, selection_ok_deselectAll.
  - apply selection_ok_deselectAll.
  - unfold load. destruct parsed as [data|]; [| exact Hs].
    apply selection_ok_cleared, restoreState_deselects.
Qed.

Lemma selection_live_step s (c : command) :
  hits_live s c -> selection_live s -> selection_live (step theme s c).
Proof.
  intros Hh Hs.
  destruct (step_still s c) as [[H1 H2] | Hc].
  { unfold scene_shape, selection_shape in *.
    injection H1 as H1 _. injection H2 as H2 _. now apply (selection_live_shape s). }
  destruct c; try contradiction; cbn [step].
  - apply selection_addObject.
  - apply selection_addObject.
  - apply selection_addObject.
  - unfold paste. destruct (clipboard s) as [cb|]; [| exact Hs].
    eapply selection_live_shape; [reflexivity | reflexivity |].
    apply (tidy_fold paste_one selection_live); [intros; now apply tidy_paste_one |].
    now apply selection_live_empty.
  - unfold duplicateSelected. destruct (selectedObjects s) as [|x l] eqn:E;
      [exact Hs |].
    eapply selection_live_shape; [reflexivity | reflexivity |].
    apply (tidy_fold duplicate_ref selection_live); [intros; now apply tidy_duplicate_ref |].
    now apply selection_live_empty.
  - unfold deleteSelected. destruct (selectedObjects s) as [|x l] eqn:E; [exact Hs |].
    now apply selection_live_empty.
  - destruct (undo_cases s) as [-> | (st & p & c & _ & ->)]; [exact Hs |].
    apply selection_live_cleared, restoreState_deselects.
  - destruct (redo_cases s) as [-> | (rs & c & _ & ->)]; [exact Hs |].
    apply selection_live_cleared, restoreState_deselects.
  - now apply selection_live_selectObject.
  - unfold selectAll. apply selection_live_fold_add; [auto | now apply selection_live_empty].
  - now apply selection_live_empty.
  - unfold load. destruct parsed as [data|]; [| exact Hs].
    apply selection_live_cleared, restoreState_deselects.
Qed.

Lemma init_fields :
  objects (init theme) = [0%nat] /\
  nextRef (init theme) = 1%nat /\
  sceneCameras (init theme) = [] /\
  selectedObjects (init theme) = [0%nat] /\
  attached (init theme) = Some 0%nat /\
  objectIdCounter (init theme) = 1 /\
  exists o, heap (init theme) = {[ 0%nat := o ]} /\ id o = 1 /\ type o = Quad /\
    o = first_quad.
Proof.
  unfold init, addQuad.
  match goal with |- context [addObject theme ?k ?p ?m ?x] =>
    destruct (addObject_fields k p m x) as (Ho & Hh & Hn & Hc & Hs & Ha & Hi & _)
  end.
  cbn zeta in *.
  match goal with |- context [saveState theme ?x] =>
    destruct (saveState_fields x) as (-> & -> & -> & -> & -> & -> & -> & _) end.
  rewrite Ho, Hh, Hn, Hc, Hs, Ha, Hi.
  assert (Hg : forall x : State,
             objects (setGridPlane (defaultGridPlane theme) x) = objects x /\
             nextRef (setGridPlane (defaultGridPlane theme) x) = nextRef x /\
             sceneCameras (setGridPlane (defaultGridPlane theme) x) = sceneCameras x /\
             heap (setGridPlane (defaultGridPlane theme) x) = heap x /\
             objectIdCounter (setGridPlane (defaultGridPlane theme) x) = objectIdCounter x).
  { intros x. unfold setGridPlane.
    destruct (_ || _); [| destruct (inherited_name _)]; now repeat split. }
  destruct (Hg (constructed theme)) as (-> & -> & -> & -> & ->). cbn.
  do 6 (split; [reflexivity |]).
  eexists. split; [apply insert_empty | repeat split; reflexivity].
Qed.

Lemma scene_ok_init : scene_ok (init theme).
Proof.
  destruct init_fields as (Ho & Hn & Hc & _ & _ & _ & o & Hh & _ & Hty & _).
  unfold scene_ok, allocated. rewrite Ho, Hn, Hc, Hh.
  split; [apply NoDup_singleton |]. split; [repeat constructor |]. split.
  - intros r. destruct (decide (r = 0%nat)) as [-> | Hne].
    + rewrite lookup_singleton_eq. split; [eauto | lia].
    + rewrite lookup_singleton_ne by congruence. split; [lia | intros [? ?]; discriminate].
  - cbn. unfold camera_at. rewrite Hh, lookup_singleton_eq. unfold is_camera.
    now rewrite Hty.
Qed.

Lemma selection_init : selection_ok (init theme) /\ selection_live (init theme).
Proof.
  destruct init_fields as (Ho & _ & _ & Hs & Ha & _).
  unfold selection_ok, selection_live. rewrite Hs, Ha, Ho.
  split; [split; [apply NoDup_singleton | now left] | auto].
Qed.

(** X8  The scene arrays stay consistent with the store: after any session,
    no object is listed twice in objects, every listed reference was
    allocated and is stored, and sceneCameras is exactly the list of the
    cameras of objects, in the same order.  Every operation preserves
    this. *)
Theorem scene_arrays_consistent :
  (forall s (c : command), scene_ok s -> scene_ok (step theme s c)) /\
  (forall cs : list command, scene_ok (run theme cs (init theme))) /\
  (forall (cs : list command) r,
     let s := run theme cs (init theme) in
     In r (sceneCameras s) <->
     In r (objects s) /\ exists o, heap s !! r = Some o /\ type o = Camera).
Proof.
  assert (Hrun : forall cs : list command, scene_ok (run theme cs (init theme))).
  { intros cs. unfold run. apply (tidy_fold (step theme) scene_ok).
    - intros s c. apply scene_ok_step.
    - apply scene_ok_init. }
  split; [exact scene_ok_step |]. split; [exact Hrun |].
  intros cs r. cbn zeta. destruct (Hrun cs) as (_ & _ & _ & ->).
  rewrite List.filter_In. unfold camera_at, is_camera. split.
  - intros [Hr Hc]. split; [exact Hr |].
    destruct (heap _ !! r) as [o|]; [| discriminate]. exists o. split; [reflexivity |].
    now destruct (type o).
  - intros [Hr (o & -> & ->)]. now split.
Qed.

(** X9  The selection stays consistent: after any session the selection
    lists no object twice, and the transform gizmo is attached to a
    selected object, or detached exactly when nothing is selected.  When
    every click hits an object of the scene, only objects of the scene are
    selected, so the gizmo never holds a deleted object. *)
Theorem selection_consistent :
  (forall s (c : command), selection_ok s -> selection_ok (step theme s c)) /\
  (forall cs : list command, selection_ok (run theme cs (init theme))) /\
  (forall (cs : list command) s,
     selection_live s -> clicks_live theme cs s -> selection_live (run theme cs s)) /\
  (forall (cs : list command) r,
     clicks_live theme cs (init theme) ->
     attached (run theme cs (init theme)) = Some r ->
     In r (selectedObjects (run theme cs (init theme))) /\
     In r (objects (run theme cs (init theme)))).
Proof.
  assert (Hrun : forall cs : list command, selection_ok (run theme cs (init theme))).
  { intros cs. unfold run. apply (tidy_fold (step theme) selection_ok).
    - intros s c. apply selection_ok_step.
    - apply selection_init. }
  assert (Hlive : forall (cs : list command) s,
             selection_live s -> clicks_live theme cs s -> selection_live (run theme cs s)).
  { induction cs as [|c cs IH]; intros s Hs Hc; cbn; [exact Hs |].
    destruct Hc as [Hh Hc]. apply IH; [| exact Hc]. now apply selection_live_step. }
  split; [exact selection_ok_step |]. split; [exact Hrun |]. split; [exact Hlive |].
  intros cs r Hc Ha. destruct (Hrun cs) as [_ Hat]. rewrite Ha in Hat.
  split; [exact Hat |]. apply (Hlive cs (init theme)); [apply selection_init | exact Hc | exact Hat].
Qed.

Lemma fold_add_fresh (l : list ref) :
  forall s, NoDup (selectedObjects s ++ l) ->
  (selectedObjects s = [] -> attached s = None) ->
  selectedObjects (fold_left (fun s0 x => addToSelection x s0) l s) = selectedObjects s ++ l /\
  attached (fold_left (fun s0 x => addToSelection x s0) l s) =
    match selectedObjects s with [] => head l | _ => attached s end.
Proof.
  induction l as [|x l IH]; intros s Hnd Hat; cbn [fold_left].
  - rewrite app_nil_r. split; [reflexivity |].
    destruct (selectedObjects s); [now apply Hat | reflexivity].
  - assert (Hx : includes (selectedObjects s) x = false).
    { apply includes_false. intros Hin. apply NoDup_app in Hnd as (_ & Hd & _).
      apply (Hd x); [now apply list_elem_of_In | now left]. }
    assert (Hs1 : selectedObjects (addToSelection x s) = selectedObjects s ++ [x]).
    { unfold addToSelection. rewrite Hx. cbn. now destruct (_ =? _)%nat. }
    assert (Ha1 : attached (addToSelection x s) =
                  match selectedObjects s with [] => Some x | _ => attached s end).
    { unfold addToSelection. rewrite Hx. cbn [selectedObjects set_selectedObjects].
      destruct (selectedObjects s) as [|y k]; [reflexivity |].
      cbn [app length]. rewrite length_app. cbn [length].
      replace (length k + 1)%nat with (S (length k)) by lia. reflexivity. }
    destruct (IH (addToSelection x s)) as [H1 H2].
    { rewrite Hs1, <- app_assoc. exact Hnd. }
    { rewrite Hs1. now destruct (selectedObjects s). }
    rewrite H1, H2, Hs1, Ha1, <- app_assoc. split; [reflexivity |].
    destruct (selectedObjects s); reflexivity.
Qed.



End SceneInvariants.

Section Settings.

Context {N : Numeric}.
Variable theme : Theme.

Implicit Types (s e : State) (r : ref) (o : ObjData).

(** ** Settings beside the scene *)

Lemma ambient_fold {T A} (p : State -> A) (f : State -> T -> State) (l : list T) :
  (forall s x, p (f s x) = p s) -> forall s, p (fold_left f l s) = p s.
Proof.
  intros Hf. induction l as [|x l IH]; intros s; cbn; [reflexivity |].
  now rewrite IH, Hf.
Qed.

Lemma writes_ambient (R : ObjData -> ObjData -> Prop) s e :
  writes R s e -> ambient e = ambient s /\ bindings e = bindings s.
Proof. intros [-> _]. now split. Qed.

Lemma selects_ambient s e : selects s e -> ambient e = ambient s /\ bindings e = bindings s.
Proof. intros ->. now split. Qed.

Lemma create_ambient (data : ObjRecord) s :
  ambient (createObjectFromData data s) = ambient s /\
  bindings (createObjectFromData data s) = bindings s.
Proof.
  unfold createObjectFromData. destruct (parse_type (r_type data)) as [k|]; [| now split].
  cbn. now destruct (kind_eqb k Camera).
Qed.

Lemma create_and_select_ambient (data : ObjRecord) s :
  ambient (create_and_select data s) = ambient s /\
  bindings (create_and_select data s) = bindings s.
Proof.
  unfold create_and_select.
  destruct (find_by_id _ _ _) as [newObj|]; [| apply create_ambient].
  destruct (selects_ambient _ _ (selects_addToSelection newObj (createObjectFromData data s)))
    as [-> ->].
  apply create_ambient.
Qed.

Lemma paste_one_ambient s (data : ObjRecord) :
  ambient (paste_one s data) = ambient s /\ bindings (paste_one s data) = bindings s.
Proof.
  unfold paste_one. cbv zeta.
  match goal with |- context [create_and_select ?d ?x] =>
    destruct (create_and_select_ambient d x) as [-> ->] end.
  now split.
Qed.

Lemma duplicate_ref_ambient s r :
  ambient (duplicate_ref s r) = ambient s /\ bindings (duplicate_ref s r) = bindings s.
Proof.
  unfold duplicate_ref. destruct (heap s !! r) as [o|]; [| now split].
  unfold duplicate_one. cbv zeta.
  match goal with |- context [create_and_select ?d ?x] =>
    destruct (create_and_select_ambient d x) as [-> ->] end.
  now split.
Qed.

Lemma delete_one_ambient s x :
  ambient (delete_one s x) = ambient s /\
  cameraTrackTargets (delete_one s x) = cameraTrackTargets s.
Proof. unfold delete_one. cbn. now destruct (heap s !! x). Qed.

Lemma restore_object_ambient s (data : ObjRecord) :
  ambient (restore_object s data) = ambient s.
Proof.
  unfold restore_object.
  destruct (or_null _); cbn; apply (create_ambient data s).
Qed.

Lemma restoreState_ambient (d : StateData) s :
  ambient (final (restoreState d s)) = ambient s.
Proof.
  generalize (restoreState_final d s). cbv zeta.
  destruct (sd_objects d) as [recs|]; [intros [-> | ->] | now intros ->].
  - now rewrite (ambient_fold ambient restore_object _ restore_object_ambient).
  - match goal with |- ambient (set_objectIdCounter _ (set_clips _ ?x)) = _ =>
      change (ambient x = ambient s) end.
    now rewrite (ambient_fold ambient restore_object _ restore_object_ambient).
Qed.

Lemma undo_ambient s : ambient (undo s) = ambient s.
Proof.
  destruct (undo_cases s) as [-> | (st & p & c & _ & ->)]; [reflexivity |].
  now rewrite restoreState_ambient.
Qed.

Lemma redo_ambient s : ambient (redo s) = ambient s.
Proof.
  destruct (redo_cases s) as [-> | (rs & c & _ & ->)]; [reflexivity |].
  now rewrite restoreState_ambient.
Qed.

Lemma saveState_ambient s :
  ambient (saveState theme s) = ambient s /\ bindings (saveState theme s) = bindings s.
Proof. now split. Qed.

Lemma deselectAll_ambient s :
  ambient (deselectAll s) = ambient s /\ bindings (deselectAll s) = bindings s.
Proof. now split. Qed.

Lemma addObject_ambient (k : kind) (prefix : string) (m : Mesh) s :
  ambient (addObject theme k prefix m s) = ambient s /\
  bindings (addObject theme k prefix m s) = bindings s.
Proof.
  unfold addObject, alloc.
  match goal with |- context [selectObject ?r false ?x] =>
    destruct (selects_ambient _ _ (selects_selectObject r false x)) as [Ha Hb] end.
  rewrite (proj1 (saveState_ambient _)), (proj2 (saveState_ambient _)).
  rewrite Ha, Hb. now destruct (kind_eqb k Camera).
Qed.

Lemma seek_ambient (f : Z) s :
  clipboard (seek f s) = clipboard s /\
  currentGridPlane (seek f s) = currentGridPlane s /\
  visibleGrids (seek f s) = visibleGrids s /\
  totalFrames (seek f s) = totalFrames s /\
  isPlaying (seek f s) = isPlaying s /\
  bindings (seek f s) = bindings s.
Proof.
  unfold seek.
  destruct (writes_ambient _ _ _ (writes_applyFrame (set_currentFrame f s))) as [Ha ->].
  unfold ambient in Ha. injection Ha as -> -> -> -> -> _. now repeat split.
Qed.

(* which operation writes which setting *)
Lemma step_settings s (c : command) :
  let s' := step theme s c in
  match c with Copy => True | _ => clipboard s' = clipboard s end /\
  match c with
  | SetGridPlane _ | Load _ => True
  | _ => currentGridPlane s' = currentGridPlane s /\ visibleGrids s' = visibleGrids s
  end /\
  match c with Load _ => True | _ => totalFrames s' = totalFrames s end /\
  match c with TogglePlay | StopPlayback => True | _ => isPlaying s' = isPlaying s end /\
  match c with
  | StopPlayback | Seek _ | StepFrame _ | PrevKeyframe | NextKeyframe | Tick => True
  | _ => currentFrame s' = currentFrame s
  end /\
  match c with
  | AddKeyframe | Delete | Undo | Redo | Load _ => True
  | _ => clips s' = clips s
  end /\
  match c with
  | SetTrackTarget _ _ | Undo | Redo | Load _ => True
  | _ => cameraTrackTargets s' = cameraTrackTargets s
  end.
Proof.
  assert (Hall : forall e, ambient e = ambient s -> bindings e = bindings s ->
            clipboard e = clipboard s /\
            (currentGridPlane e = currentGridPlane s /\ visibleGrids e = visibleGrids s) /\
            totalFrames e = totalFrames s /\ isPlaying e = isPlaying s /\
            currentFrame e = currentFrame s /\ clips e = clips s /\
            cameraTrackTargets e = cameraTrackTargets s).
  { unfold ambient, bindings. intros e Ha Hb.
    injection Ha as -> -> -> -> -> ->. injection Hb as -> ->. now repeat split. }
  assert (Hamb : forall e, ambient e = ambient s ->
            clipboard e = clipboard s /\
            (currentGridPlane e = currentGridPlane s /\ visibleGrids e = visibleGrids s) /\
            totalFrames e = totalFrames s /\ isPlaying e = isPlaying s /\
            currentFrame e = currentFrame s).
  { unfold ambient. intros e Ha. injection Ha as -> -> -> -> -> ->. now repeat split. }
  cbn zeta. destruct c; cbn [step].
  - apply Hall; apply addObject_ambient.
  - apply Hall; apply addObject_ambient.
  - apply Hall; apply addObject_ambient.
  - unfold copy. destruct (selectedObjects s); now repeat split.
  - unfold paste. destruct (clipboard s) as [cb|] eqn:Hcb; [| now repeat split].
    apply Hall.
    + rewrite (proj1 (saveState_ambient _)).
      rewrite (ambient_fold ambient paste_one cb (fun s0 x => proj1 (paste_one_ambient s0 x))).
      apply deselectAll_ambient.
    + rewrite (proj2 (saveState_ambient _)).
      rewrite (ambient_fold bindings paste_one cb (fun s0 x => proj2 (paste_one_ambient s0 x))).
      apply deselectAll_ambient.
  - unfold duplicateSelected. destruct (selectedObjects s) as [|x l]; [now repeat split |].
    apply Hall.
    + rewrite (proj1 (saveState_ambient _)).
      rewrite (ambient_fold ambient duplicate_ref (x :: l)
                 (fun s0 y => proj1 (duplicate_ref_ambient s0 y))).
      apply deselectAll_ambient.
    + rewrite (proj2 (saveState_ambient _)).
      rewrite (ambient_fold bindings duplicate_ref (x :: l)
                 (fun s0 y => proj2 (duplicate_ref_ambient s0 y))).
      apply deselectAll_ambient.
  - unfold deleteSelected. destruct (selectedObjects s) as [|x l]; [now repeat split |].
    assert (Ha : ambient (saveState theme (deselectAll (fold_left delete_one (x :: l) s)))
                 = ambient s).
    { rewrite (proj1 (saveState_ambient _)), (proj1 (deselectAll_ambient _)).
      apply (ambient_fold ambient delete_one (x :: l)
               (fun s0 y => proj1 (delete_one_ambient s0 y))). }
    destruct (Hamb _ Ha) as (H1 & H2 & H3 & H4 & H5).
    repeat (split; [assumption |]). split; [exact I |].
    transitivity (cameraTrackTargets (fold_left delete_one (x :: l) s)); [reflexivity |].
    apply (ambient_fold cameraTrackTargets delete_one (x :: l)
             (fun s0 y => proj2 (delete_one_ambient s0 y))).
  - destruct (Hamb _ (undo_ambient s)) as (H1 & H2 & H3 & H4 & H5). now repeat split.
  - destruct (Hamb _ (redo_ambient s)) as (H1 & H2 & H3 & H4 & H5). now repeat split.
  - apply Hall; apply (selects_ambient _ _ (selects_selectObject r additive s)).
  - apply Hall; apply (selects_ambient _ _ (selects_selectAll s)).
  - now repeat split.
  - now repeat split.
  - unfold editTransform.
    match goal with |- context [saveState theme ?x] =>
      assert (Hw : writes same_identity s x) end.
    { apply (writes_fold _ same_identity_refl same_identity_trans).
      intros s0 x. apply writes_update_obj; [apply same_identity_refl |].
      intros y. now destruct p. }
    destruct (writes_ambient _ _ _ Hw) as [Ha Hb]. now apply Hall.
  - unfold dragGizmo. destruct (attached s); now repeat split.
  - now repeat split.
  - unfold setGridPlane.
    destruct (_ || _); [| destruct (inherited_name plane)]; now repeat split.
  - unfold addKeyframe. rewrite keyframe_fold_clips. now repeat split.
  - now repeat split.
  - unfold stopPlayback.
    match goal with |- context [applyFrame ?x] =>
      destruct (writes_ambient _ _ _ (writes_applyFrame x)) as [Ha Hb] end.
    unfold ambient, bindings in Ha, Hb.
    injection Ha as -> -> -> -> _ _. injection Hb as -> ->. now repeat split.
  - destruct (seek_ambient f s) as (-> & -> & -> & -> & -> & Hb).
    unfold bindings in Hb. injection Hb as -> ->. now repeat split.
  - unfold stepFrame. destruct (delta <? 0);
      match goal with |- context [seek ?f s] =>
        destruct (seek_ambient f s) as (-> & -> & -> & -> & -> & Hb) end;
      unfold bindings in Hb; injection Hb as -> ->; now repeat split.
  - unfold prevKeyframe.
    match goal with |- context [seek ?f s] =>
      destruct (seek_ambient f s) as (-> & -> & -> & -> & -> & Hb) end.
    unfold bindings in Hb. injection Hb as -> ->. now repeat split.
  - unfold nextKeyframe.
    match goal with |- context [seek ?f s] =>
      destruct (seek_ambient f s) as (-> & -> & -> & -> & -> & Hb) end.
    unfold bindings in Hb. injection Hb as -> ->. now repeat split.
  - unfold setCameraTrackTarget. destruct (or_null targetId); now repeat split.
  - unfold animate.
    match goal with |- context [updateCameraTracking ?x] =>
      destruct (writes_ambient _ _ _ (writes_updateCameraTracking x)) as [Ha Hb] end.
    unfold ambient, bindings in Ha, Hb.
    injection Ha as -> -> -> -> -> _. injection Hb as -> ->.
    destruct (isPlaying s) eqn:Hp; [| repeat split; try reflexivity; exact Hp].
    match goal with |- context [applyFrame ?x] =>
      destruct (writes_ambient _ _ _ (writes_applyFrame x)) as [Ha Hb] end.
    unfold ambient, bindings in Ha, Hb.
    injection Ha as -> -> -> -> -> _. injection Hb as -> ->.
    cbn. repeat split; try reflexivity. exact Hp.
  - unfold load. destruct parsed as [data|]; [| now repeat split].
    match goal with |- context [restoreState ?d ?x] =>
      pose proof (restoreState_ambient d x) as Ha end.
    unfold ambient in Ha. injection Ha as -> _ _ _ -> ->.
    destruct (f_gridPlane data) as [g|], (f_totalFrames data) as [t|];
      try destruct (String.eqb g ""); try destruct (t =? 0);
      unfold setGridPlane;
      try (destruct (_ || _); [| destruct (inherited_name _)]); now repeat split.
Qed.

(** X12  Which operation writes which setting: the clipboard changes only
    on Copy; the grid plane and the visible grids only on SetGridPlane and
    Load; totalFrames only on Load; isPlaying only on TogglePlay and Stop;
    the playhead only on the timeline operations and the animation tick; the
    clips only on AddKeyframe, Delete, Undo, Redo and Load; the tracking
    bindings only on SetTrackTarget, Undo, Redo and Load. *)
Theorem field_writers s (c : command) :
  let s' := step theme s c in
  match c with Copy => True | _ => clipboard s' = clipboard s end /\
  match c with
  | SetGridPlane _ | Load _ => True
  | _ => currentGridPlane s' = currentGridPlane s /\ visibleGrids s' = visibleGrids s
  end /\
  match c with Load _ => True | _ => totalFrames s' = totalFrames s end /\
  match c with TogglePlay | StopPlayback => True | _ => isPlaying s' = isPlaying s end /\
  match c with
  | StopPlayback | Seek _ | StepFrame _ | PrevKeyframe | NextKeyframe | Tick => True
  | _ => currentFrame s' = currentFrame s
  end /\
  match c with
  | AddKeyframe | Delete | Undo | Redo | Load _ => True
  | _ => clips s' = clips s
  end /\
  match c with
  | SetTrackTarget _ _ | Undo | Redo | Load _ => True
  | _ => cameraTrackTargets s' = cameraTrackTargets s
  end.
Proof. exact (step_settings s c). Qed.

End Settings.

Section Commits.

Context {N : Numeric}.
Variable theme : Theme.

Implicit Types (s e : State) (r : ref) (o : ObjData).

Lemma push_capped_last (limit : nat) (stack : list Snapshot) (p : Snapshot) :
  (1 <= limit)%nat -> last (push_capped limit stack p) = Some p.
Proof.
  intros Hl. unfold push_capped.
  destruct (limit <? length (stack ++ [p]))%nat eqn:E; [| apply last_snoc].
  destruct stack as [|a stack]; cbn [app tail]; [| apply last_snoc].
  apply Nat.ltb_lt in E. cbn in E. lia.
Qed.

Lemma committed_step s (c : command) :
  commits s c = true -> exists e, step theme s c = saveState theme e.
Proof.
  destruct c; cbn [commits step]; try discriminate; intros H.
  - unfold addQuad, addObject, alloc. eexists. reflexivity.
  - unfold addCube, addObject, alloc. eexists. reflexivity.
  - unfold addCamera, addObject, alloc. eexists. reflexivity.
  - unfold paste. destruct (clipboard s); [eexists; reflexivity | discriminate].
  - unfold duplicateSelected. destruct (selectedObjects s); [discriminate | eexists; reflexivity].
  - unfold deleteSelected. destruct (selectedObjects s); [discriminate | eexists; reflexivity].
  - eexists. reflexivity.
  - eexists. reflexivity.
  - exists s. reflexivity.
  - eexists. reflexivity.
  - unfold setCameraTrackTarget. destruct (or_null targetId); eexists; reflexivity.
Qed.

Lemma uncommitted_step s (c : command) :
  commits s c = false -> c <> Undo -> c <> Redo -> hist (step theme s c) = hist s.
Proof.
  destruct c; cbn [commits step]; try discriminate; intros H Hu Hr; try congruence.
  - apply quiet_copy.
  - unfold paste. destruct (clipboard s); [discriminate | reflexivity].
  - unfold duplicateSelected. destruct (selectedObjects s); [reflexivity | discriminate].
  - unfold deleteSelected. destruct (selectedObjects s); [reflexivity | discriminate].
  - apply quiet_selectObject.
  - apply quiet_selectAll.
  - reflexivity.
  - apply quiet_dragGizmo.
  - apply quiet_setGridPlane.
  - reflexivity.
  - apply quiet_stopPlayback.
  - apply quiet_seek.
  - apply quiet_stepFrame.
  - apply quiet_prevKeyframe.
  - apply quiet_nextKeyframe.
  - apply quiet_animate.
  - apply hist_load.
Qed.


(** X14  Loading a file is not an undoable step: load leaves both history
    stacks as they were, so the undo that follows restores the scene of the
    commit before the last one, the redo after that restores the scene of
    the last commit, and the loaded scene is on neither stack. *)
Theorem load_is_not_committed (parsed : option SceneFile) s (st : list Snapshot)
    (p c : Snapshot) :
  undoStack s = st ++ [p; c] -> taken p -> taken c ->
  undoStack (load parsed s) = undoStack s /\
  redoStack (load parsed s) = redoStack s /\
  snapshot (undo (load parsed s)) = p /\
  snapshot (redo (undo (load parsed s))) = c /\
  hist (redo (undo (load parsed s))) = hist s.
Proof.
  intros Hst Hp Hc. pose proof (hist_load parsed s) as Hh.
  assert (Hu : undoStack (load parsed s) = st ++ [p; c]).
  { unfold hist in Hh. injection Hh as -> _. exact Hst. }
  assert (Hr : redoStack (load parsed s) = redoStack s).
  { unfold hist in Hh. now injection Hh as _ ->. }
  destruct (undo_restores (load parsed s) st p c Hu Hp) as [H1 H2].
  assert (Hr' : redoStack (undo (load parsed s)) = redoStack s ++ [c]).
  { unfold hist in H2. injection H2 as _ ->. now rewrite Hr. }
  destruct (redo_restores (undo (load parsed s)) (redoStack s) c Hr' Hc) as [H3 H4].
  split; [now rewrite Hu |]. split; [exact Hr |]. split; [exact H1 |].
  split; [exact H3 |].
  rewrite H4. unfold hist in H2 |- *. injection H2 as -> _.
  now rewrite Hst, <- app_assoc.
Qed.

Lemma setGridPlane_fields (plane : string) s :
  setGridPlane plane s =
  set_currentGridPlane (currentGridPlane (setGridPlane plane s))
    (set_visibleGrids (visibleGrids (setGridPlane plane s)) s).
Proof.
  unfold setGridPlane. destruct (_ || _); [| destruct (inherited_name plane)];
    now destruct s.
Qed.

(** X15  What init leaves: one object, the quad Quad_1 with id 1, lying flat
    (turned by -pi/2 about x) at the origin at unit scale, selected, with
    the gizmo on it; the counter at 1; the playhead at frame 0 of a
    timeline as long as the theme says; nothing playing, no clipboard.
    With a limit of at least two the undo stack holds the snapshot of that
    scene twice, so the first undo pops an entry and shows the same
    scene. *)
Theorem init_scene :
  deref (init theme) (objects (init theme)) =
    [{| id := 1; name := "Quad_1"; type := Quad;
        mesh := set_rotation (vec3 neg_half_pi (of_int 0) (of_int 0)) newMesh |}] /\
  live_ids (init theme) = [1] /\
  objects (init theme) = [0%nat] /\
  selectedObjects (init theme) = [0%nat] /\
  attached (init theme) = Some 0%nat /\
  objectIdCounter (init theme) = 1 /\
  ambient (init theme) =
    (None, currentGridPlane (setGridPlane (defaultGridPlane theme) (constructed theme)),
     visibleGrids (setGridPlane (defaultGridPlane theme) (constructed theme)),
     defaultDuration theme, false, 0) /\
  bindings (init theme) = (∅, ∅) /\
  redoStack (init theme) = [] /\
  ((2 <= undoLimit theme)%nat ->
   undoStack (init theme) = [snapshot (init theme); snapshot (init theme)] /\
   snapshot (undo (init theme)) = snapshot (init theme) /\
   undoStack (undo (init theme)) = [snapshot (init theme)] /\
   redoStack (undo (init theme)) = [snapshot (init theme)]).
Proof.
  destruct (init_fields theme) as (Ho & Hn & Hc & Hs & Ha & Hi & o & Hh & Hid & Hty & Hfq).
  assert (Hamb : ambient (init theme) = ambient (setGridPlane (defaultGridPlane theme)
                                                   (constructed theme)) /\
                 bindings (init theme) = bindings (setGridPlane (defaultGridPlane theme)
                                                     (constructed theme))).
  { unfold init, addQuad.
    rewrite (proj1 (saveState_ambient _ _)), (proj2 (saveState_ambient _ _)).
    apply addObject_ambient. }
  destruct Hamb as [Hamb Hb].
  split.
  { unfold deref. rewrite Ho, Hh. cbn. rewrite lookup_singleton_eq. cbn. now rewrite Hfq. }
  split; [| split; [exact Ho | split; [exact Hs | split; [exact Ha | split; [exact Hi |]]]]].
  { unfold live_ids, deref. rewrite Ho, Hh. cbn. rewrite lookup_singleton_eq. cbn.
    now rewrite Hid. }
  split.
  { rewrite Hamb. rewrite (setGridPlane_fields (defaultGridPlane theme) (constructed theme)) at 1.
    reflexivity. }
  split.
  { rewrite Hb. rewrite (setGridPlane_fields (defaultGridPlane theme) (constructed theme)).
    reflexivity. }
  split; [reflexivity |].
  intros Hl.
  assert (Hu : undoStack (init theme) = [snapshot (init theme); snapshot (init theme)]).
  { unfold init at 1. rewrite saveState_undoStack.
    change (snapshot (addQuad theme ?x)) with (snapshot (init theme)).
    unfold addQuad, addObject, alloc. rewrite saveState_undoStack.
    match goal with |- context [snapshot (selectObject ?r false ?x)] =>
      change (snapshot (selectObject r false x)) with (snapshot (init theme));
      assert (Hq : undoStack (selectObject r false x) = [])
    end.
    { match goal with |- undoStack (selectObject ?r false ?x) = _ =>
        transitivity (undoStack x); [reflexivity |] end.
      rewrite (setGridPlane_fields (defaultGridPlane theme) (constructed theme)).
      reflexivity. }
    rewrite Hq. unfold push_capped. cbn [app length tail].
    destruct (undoLimit theme) as [|[|k]]; [lia | lia |]. reflexivity. }
  split; [exact Hu |].
  assert (Ht : taken (snapshot (init theme))) by (eexists; reflexivity).
  destruct (undo_restores (init theme) [] _ _ Hu Ht) as [H1 H2].
  split; [exact H1 |]. unfold hist in H2. injection H2 as -> ->. now split.
Qed.

(** ** Grid *)

Lemma setGridPlane_known (plane : string) s :
  known_plane plane ->
  currentGridPlane (setGridPlane plane s) = plane /\
  visibleGrids (setGridPlane plane s) = [plane].
Proof. unfold setGridPlane. now intros [-> | [-> | ->]]. Qed.

Lemma known_plane_test (plane : string) :
  String.eqb plane "xz" || String.eqb plane "xy" || String.eqb plane "yz" = true <->
  known_plane plane.
Proof.
  unfold known_plane. rewrite !orb_true_iff, !String.eqb_eq. tauto.
Qed.

(* a name that [grids] inherits becomes the current plane and shows nothing *)
Lemma setGridPlane_inherited (plane : string) s :
  ~ known_plane plane -> inherited_name plane = true ->
  currentGridPlane (setGridPlane plane s) = plane /\
  visibleGrids (setGridPlane plane s) = [].
Proof.
  intros H Hi. unfold setGridPlane.
  destruct (_ || _) eqn:E; [now apply known_plane_test in E |].
  rewrite Hi. now split.
Qed.

Lemma setGridPlane_unknown (plane : string) s :
  ~ known_plane plane -> inherited_name plane = false ->
  currentGridPlane (setGridPlane plane s) = currentGridPlane s /\
  visibleGrids (setGridPlane plane s) = [].
Proof.
  intros H Hi. unfold setGridPlane.
  destruct (_ || _) eqn:E; [now apply known_plane_test in E |].
  rewrite Hi. now split.
Qed.

Lemma grid_ok_setGridPlane (plane : string) s : grid_ok s -> grid_ok (setGridPlane plane s).
Proof.
  intros Hg. unfold grid_ok.
  destruct (String.eqb plane "xz" || String.eqb plane "xy" || String.eqb plane "yz") eqn:E.
  - apply known_plane_test in E.
    destruct (setGridPlane_known plane s E) as [-> ->]. left. split; [exact E | now left].
  - assert (Hn : ~ known_plane plane).
    { intros Hk. apply known_plane_test in Hk. congruence. }
    destruct (inherited_name plane) eqn:Hi.
    + destruct (setGridPlane_inherited plane s Hn Hi) as [-> ->]. right. now split.
    + destruct (setGridPlane_unknown plane s Hn Hi) as [-> ->].
      destruct Hg as [[Hk _] | [Hk _]]; [left | right]; split; auto.
Qed.

Lemma grid_ok_step s (c : command) : grid_ok s -> grid_ok (step theme s c).
Proof.
  intros Hg. destruct (step_settings theme s c) as (_ & H & _). cbn zeta in H.
  assert (Hsame : currentGridPlane (step theme s c) = currentGridPlane s /\
                  visibleGrids (step theme s c) = visibleGrids s -> grid_ok (step theme s c)).
  { unfold grid_ok. intros [-> ->]. exact Hg. }
  destruct c; try (now apply Hsame); cbn [step].
  - now apply grid_ok_setGridPlane.
  - unfold load. destruct parsed as [data|]; [| exact Hg].
    match goal with |- context [restoreState ?d ?x] =>
      pose proof (restoreState_ambient d x) as Ha end.
    unfold ambient in Ha. injection Ha as _ Hp Hv _ _ _.
    unfold grid_ok. rewrite Hp, Hv.
    assert (H1 : grid_ok (match f_gridPlane data with
                          | Some g => if String.eqb g "" then s else setGridPlane g s
                          | None => s
                          end)).
    { destruct (f_gridPlane data) as [g|]; [| exact Hg].
      destruct (String.eqb g ""); [exact Hg | now apply grid_ok_setGridPlane]. }
    now destruct (f_totalFrames data) as [t|]; [destruct (t =? 0) |].
Qed.

End Commits.

Section Files.

Context {N : Numeric}.
Variable theme : Theme.

Implicit Types (s e t : State) (r : ref) (o : ObjData).

Lemma ambient_fields s e :
  ambient e = ambient s ->
  clipboard e = clipboard s /\
  currentGridPlane e = currentGridPlane s /\
  visibleGrids e = visibleGrids s /\
  totalFrames e = totalFrames s /\
  isPlaying e = isPlaying s /\
  currentFrame e = currentFrame s.
Proof.
  intros H.
  split; [exact (f_equal (fun a => a.1.1.1.1.1) H) |].
  split; [exact (f_equal (fun a => a.1.1.1.1.2) H) |].
  split; [exact (f_equal (fun a => a.1.1.1.2) H) |].
  split; [exact (f_equal (fun a => a.1.1.2) H) |].
  split; [exact (f_equal (fun a => a.1.2) H) |].
  exact (f_equal (fun a => a.2) H).
Qed.

Lemma grid_ok_init : grid_ok (init theme).
Proof.
  assert (Hamb : ambient (init theme) =
                 ambient (setGridPlane (defaultGridPlane theme) (constructed theme))).
  { unfold init, addQuad. rewrite (proj1 (saveState_ambient _ _)).
    apply addObject_ambient. }
  apply ambient_fields in Hamb as (_ & Hp & Hv & _).
  unfold grid_ok. rewrite Hp, Hv. apply grid_ok_setGridPlane.
  left. split; [now left | now right].
Qed.

(** X16  The grid: setGridPlane with one of the names xz, xy, yz makes that
    plane the current one and the only visible one.  With a name that the
    [grids] object inherits from Object.prototype (constructor, toString
    and the like) it hides every grid and makes that name the current
    plane.  With any other name it hides every grid and leaves the current
    plane as it was.  Hence after any session either the current plane is
    one of the three, and it alone is visible or no grid is, or the current
    plane is an inherited name and no grid is visible. *)
Theorem grid_shows_current_plane :
  (forall (plane : string) s, known_plane plane ->
     currentGridPlane (setGridPlane plane s) = plane /\
     visibleGrids (setGridPlane plane s) = [plane]) /\
  (forall (plane : string) s, ~ known_plane plane -> inherited_name plane = true ->
     currentGridPlane (setGridPlane plane s) = plane /\
     visibleGrids (setGridPlane plane s) = []) /\
  (forall (plane : string) s, ~ known_plane plane -> inherited_name plane = false ->
     currentGridPlane (setGridPlane plane s) = currentGridPlane s /\
     visibleGrids (setGridPlane plane s) = []) /\
  (forall cs : list command, grid_ok (run theme cs (init theme))).
Proof.
  split; [exact setGridPlane_known |]. split; [exact setGridPlane_inherited |].
  split; [exact setGridPlane_unknown |].
  intros cs. unfold run. apply (tidy_fold (step theme) grid_ok).
  - intros s c. apply grid_ok_step.
  - apply grid_ok_init.
Qed.

Lemma known_plane_nonempty (plane : string) : known_plane plane -> String.eqb plane "" = false.
Proof. now intros [-> | [-> | ->]]. Qed.

Lemma deref_json_state s (l : list ref) :
  deref (json_state s) l = map json_object (deref s l).
Proof.
  unfold deref. induction l as [|r l IH]; [reflexivity |].
  cbn [omap list_omap]. change (heap (json_state s)) with (json_object <$> heap s) in *.
  rewrite lookup_fmap. destruct (heap s !! r) as [o|]; cbn; [f_equal |]; exact IH.
Qed.

Lemma snapshot_json_state s : snapshot (json_state s) = json_snapshot (snapshot s).
Proof.
  unfold snapshot, json_snapshot. cbn [snap_objects snap_clips]. f_equal.
  change (objects (json_state s)) with (objects s).
  rewrite deref_json_state, !map_map. apply map_ext. intros o. reflexivity.
Qed.

Lemma json_stable_snapshot s : json_stable s -> json_snapshot (snapshot s) = snapshot s.
Proof.
  intros [Ho Hc]. rewrite <- snapshot_json_state. unfold snapshot. f_equal.
  - change (objects (json_state s)) with (objects s). rewrite deref_json_state, Ho.
    apply map_ext. intros o. reflexivity.
  - exact Hc.
Qed.


(** ** Deleting *)

Lemma includes_cons (x : ref) (l : list ref) r :
  includes (x :: l) r = Nat.eqb r x || includes l r.
Proof. reflexivity. Qed.

Lemma delete_fold_keeps (sel : list ref) :
  forall s,
  objects (fold_left delete_one sel s) =
    List.filter (fun r => negb (includes sel r)) (objects s) /\
  sceneCameras (fold_left delete_one sel s) =
    List.filter (fun r => negb (includes sel r)) (sceneCameras s).
Proof.
  induction sel as [|x sel IH]; intros s; cbn [fold_left].
  - cbn. now rewrite !filter_all.
  - destruct (IH (delete_one s x)) as [-> ->].
    destruct (delete_one_frame s x) as (_ & _ & _ & -> & ->).
    rewrite !filter_filter. split; apply List.filter_ext; intros r;
      rewrite includes_cons; now destruct (Nat.eqb r x), (includes sel r).
Qed.

Lemma delete_fold_clips_other (sel : list ref) (i : Z) :
  forall s, ~ In i (ids_of s sel) ->
  clips (fold_left delete_one sel s) !! i = clips s !! i.
Proof.
  induction sel as [|x sel IH]; intros s Hi; cbn [fold_left]; [reflexivity |].
  rewrite ids_of_cons in Hi.
  destruct (delete_one_frame s x) as (Hh & _).
  assert (Hids : ids_of (delete_one s x) sel = ids_of s sel).
  { unfold ids_of, deref. now rewrite Hh. }
  rewrite IH.
  - rewrite delete_one_clips. destruct (heap s !! x) as [o|]; [| reflexivity].
    apply lookup_delete_ne. intros E. apply Hi. now left.
  - rewrite Hids. destruct (heap s !! x); [| exact Hi]. intros H. apply Hi. now right.
Qed.

(** X18  Deleting removes the selection and nothing else: when something is
    selected, deleteSelected keeps, in order, exactly the unselected
    entries of objects and of sceneCameras; it removes the clips stored
    under the ids of the selected objects and keeps every other clip; it
    leaves the store, the id counter and the tracking bindings as they
    were, and commits one snapshot. *)
Theorem delete_removes_exactly_selection s :
  selectedObjects s <> [] ->
  let s' := deleteSelected theme s in
  let kept := fun r => negb (includes (selectedObjects s) r) in
  objects s' = List.filter kept (objects s) /\
  sceneCameras s' = List.filter kept (sceneCameras s) /\
  (forall i, In i (ids_of s (selectedObjects s)) -> clips s' !! i = None) /\
  (forall i, ~ In i (ids_of s (selectedObjects s)) -> clips s' !! i = clips s !! i) /\
  heap s' = heap s /\
  objectIdCounter s' = objectIdCounter s /\
  cameraTrackTargets s' = cameraTrackTargets s /\
  undoStack s' = push_capped (undoLimit theme) (undoStack s) (snapshot s') /\
  redoStack s' = [].
Proof.
  intros Hne. cbn zeta. unfold deleteSelected.
  destruct (selectedObjects s) as [|x l] eqn:Hs; [congruence |].
  set (sel := x :: l) in *.
  destruct (delete_fold_keeps sel s) as [Ho Hc].
  destruct (delete_fold_frame sel s) as [Hh Ht].
  destruct (shrinks_delete_fold sel s) as (Hhist & _ & Hid & _).
  split; [exact Ho |]. split; [exact Hc |].
  split; [| split; [| split; [exact Hh | split; [exact Hid | split; [exact Ht |]]]]].
  - intros i Hi. unfold ids_of, deref in Hi.
    apply in_map_iff in Hi as (o & <- & Ho').
    apply list_elem_of_In, list_elem_of_omap in Ho' as (r & Hr & Hro).
    apply list_elem_of_In in Hr.
    exact (delete_fold_clips sel s r o Hr Hro).
  - intros i Hi. exact (delete_fold_clips_other sel i s Hi).
  - split; [| reflexivity].
    rewrite saveState_undoStack, (snapshot_saveState theme).
    exact (f_equal (fun st => push_capped (undoLimit theme) st _) (f_equal fst Hhist)).
Qed.

End Files.

Section Tracking.

Context {N : Numeric}.
Variable theme : Theme.

Implicit Types (s e : State) (r : ref) (o : ObjData).

Lemma writes_has_id s e (i : Z) r :
  writes same_but_rotation s e -> has_id e i r = has_id s i r.
Proof.
  intros [_ H]. unfold has_id. destruct (H r) as [o o' [(Hid & _) _]|]; [| reflexivity].
  now rewrite Hid.
Qed.

Lemma writes_find_by_id s e (l : list ref) (i : Z) :
  writes same_but_rotation s e -> find_by_id e l i = find_by_id s l i.
Proof.
  intros H. unfold find_by_id. induction l as [|x l IH]; cbn; [reflexivity |].
  now rewrite (writes_has_id s e i x H), IH.
Qed.

Lemma writes_tracked_pair s e (entry : Z * Z) :
  writes same_but_rotation s e ->
  match tracked_pair s entry with
  | Some (cam, t) =>
      exists t', tracked_pair e entry = Some (cam, t') /\
                 position (mesh t') = position (mesh t)
  | None => tracked_pair e entry = None
  end.
Proof.
  intros H. unfold tracked_pair.
  destruct (writes_fields _ _ _ H) as (-> & _).
  rewrite !(writes_find_by_id s e _ _ H).
  destruct (find_by_id s (objects s) entry.1) as [cam|]; [| reflexivity].
  destruct (find_by_id s (objects s) entry.2) as [target|]; [| reflexivity].
  destruct H as [_ H]. destruct (H target) as [t t' [_ Hp]|]; [| reflexivity].
  exists t'. now split.
Qed.

Lemma tracked_pair_key s (k v : Z) (cam : ref) (t : ObjData) o :
  tracked_pair s (k, v) = Some (cam, t) -> heap s !! cam = Some o -> id o = k.
Proof.
  unfold tracked_pair. cbn.
  destruct (find_by_id s (objects s) k) as [c|] eqn:Hc; [| discriminate].
  destruct (find_by_id s (objects s) v) as [target|]; [| discriminate].
  destruct (heap s !! target); [| discriminate].
  intros E Ho. injection E as <- _.
  apply find_by_id_live in Hc as (_ & o' & Ho' & Hid). congruence.
Qed.

Lemma track_fold_lookup s (l : list (Z * Z)) r :
  NoDup l.*1 ->
  forall e, writes same_but_rotation s e ->
  heap (fold_left track_one l e) !! r =
  turned_by (list_to_map l) s r <$> heap e !! r.
Proof.
  induction l as [|[k v] l IH]; intros Hnd e He; cbn [fold_left].
  - cbn. unfold turned_by. destruct (heap e !! r) as [oe|]; cbn; [| reflexivity].
    now rewrite lookup_empty.
  - cbn [fmap list_fmap fst] in Hnd. apply NoDup_cons in Hnd as [Hk Hnd].
    assert (He1 : writes same_but_rotation s (track_one e (k, v))).
    { eapply (writes_trans _ same_but_rotation_trans); [exact He | apply writes_track_one]. }
    rewrite (IH Hnd _ He1). clear IH.
    assert (Hnone : (list_to_map l : gmap Z Z) !! k = None)
      by now apply not_elem_of_list_to_map_1.
    cbn [list_to_map foldr]. change (foldr _ ∅ l) with (list_to_map l : gmap Z Z).
    assert (Hother : forall oe, id oe <> k ->
               turned_by (list_to_map l) s r oe =
               turned_by (<[k:=v]> (list_to_map l)) s r oe).
    { intros oe Hne. unfold turned_by. cbn. now rewrite lookup_insert_ne by congruence. }
    pose proof (writes_tracked_pair s e (k, v) He) as HA.
    unfold track_one.
    destruct (tracked_pair s (k, v)) as [[cam t]|] eqn:Hs.
    + destruct HA as (t' & -> & Hpos).
      unfold update_obj. cbn [heap set_heap].
      destruct (decide (r = cam)) as [-> | Hne].
      * rewrite lookup_alter_eq.
        destruct He as [_ Hrel]. specialize (Hrel cam).
        destruct (heap e !! cam) as [oe|] eqn:Hoe; cbn; [| reflexivity].
        inversion Hrel as [o oe' [(Hid & _) _] Eo Ee|]; subst oe'.
        assert (Hido : id o = k) by (eapply tracked_pair_key; eauto).
        f_equal. unfold turned_by. cbn [id set_mesh].
        rewrite Hid, Hido, Hnone, lookup_insert_eq.
        unfold aimed. rewrite Hid, Hido, Hs, Nat.eqb_refl, Hpos. reflexivity.
      * rewrite lookup_alter_ne by congruence.
        destruct (heap e !! r) as [oe|] eqn:Hoe; cbn; [| reflexivity].
        f_equal. destruct (Z.eq_dec (id oe) k) as [E | E]; [| now apply Hother].
        unfold turned_by. rewrite E, Hnone, lookup_insert_eq.
        unfold aimed. rewrite E, Hs.
        assert (Hb : Nat.eqb cam r = false) by (apply Nat.eqb_neq; congruence).
        now rewrite Hb.
    + rewrite HA.
      destruct (heap e !! r) as [oe|] eqn:Hoe; cbn; [| reflexivity].
      f_equal. destruct (Z.eq_dec (id oe) k) as [E | E]; [| now apply Hother].
      unfold turned_by. rewrite E, Hnone, lookup_insert_eq.
      unfold aimed. now rewrite E, Hs.
Qed.

(* ids below 10^21 are read back from their property keys *)
Lemma read_entries_small (m : gmap Z Z) :
  (forall k v, m !! k = Some v -> Z.abs k < 10 ^ 21) ->
  map read_entry (map_to_list m) = map_to_list m.
Proof.
  intros Hm. rewrite <- (map_id (map_to_list m)) at 2.
  apply map_ext_in. intros [k v] Hin.
  apply list_elem_of_In, elem_of_map_to_list in Hin.
  unfold read_entry. cbn. now rewrite (parse_key_small k (Hm k v Hin)).
Qed.

(** X19  What camera tracking turns: updateCameraTracking rewrites
    rotations only, and every other field of the editor is left as it is.
    When every binding is stored under an id below 10^21 in absolute
    value, so that parseInt reads the id back from its property key: the
    object behind a reference is turned exactly when a
    binding is stored under its id, it is the first live object with that
    id, and the bound target id belongs to a live object; its rotation then
    becomes lookAt from its own position to the position of that target,
    and every other stored object is left as it is. *)
Theorem tracking_turns_bound_cameras s r :
  let s' := updateCameraTracking s in
  s' = set_heap (heap s') s /\
  (forall o, heap s !! r = Some o ->
     exists o', heap s' !! r = Some o' /\ same_but_rotation o o') /\
  ((forall k v, cameraTrackTargets s !! k = Some v -> Z.abs k < 10 ^ 21) ->
   heap s' !! r = turned_by (cameraTrackTargets s) s r <$> heap s !! r /\
   (forall o, heap s !! r = Some o ->
      exists o', heap s' !! r = Some o' /\ same_but_rotation o o' /\
        (cameraTrackTargets s !! id o = None -> o' = o) /\
        (forall tid cam t, cameraTrackTargets s !! id o = Some tid ->
           tracked_pair s (id o, tid) = Some (cam, t) -> cam = r ->
           rotation (mesh o') = lookAt (position (mesh o)) (position (mesh t))) /\
        (forall tid, cameraTrackTargets s !! id o = Some tid ->
           tracked_pair s (id o, tid) = None -> o' = o))).
Proof.
  cbn zeta.
  split; [apply (writes_updateCameraTracking s) |].
  split.
  { intros o Ho. destruct (writes_updateCameraTracking s) as [_ Hw].
    specialize (Hw r). rewrite Ho in Hw. inversion Hw as [? o' Hr |]; subst.
    exists o'. now split. }
  intros Hsmall.
  assert (Hl : heap (updateCameraTracking s) !! r =
               turned_by (cameraTrackTargets s) s r <$> heap s !! r).
  { unfold updateCameraTracking. rewrite (read_entries_small _ Hsmall).
    rewrite (track_fold_lookup s _ r (NoDup_fst_map_to_list _) s
               (writes_refl _ same_but_rotation_refl s)).
    now rewrite list_to_map_to_list. }
  split; [exact Hl |].
  intros o Ho. rewrite Hl, Ho. cbn. eexists. split; [reflexivity |].
  unfold turned_by, aimed. split; [| split; [| split]].
  - destruct (cameraTrackTargets s !! id o) as [tid|]; [| apply same_but_rotation_refl].
    destruct (tracked_pair s (id o, tid)) as [[cam t]|]; [| apply same_but_rotation_refl].
    destruct (Nat.eqb cam r); [now repeat split | apply same_but_rotation_refl].
  - now intros ->.
  - intros tid cam t -> -> ->. now rewrite Nat.eqb_refl.
  - now intros tid -> ->.
Qed.

End Tracking.

Section Edits.

Context {N : Numeric}.
Variable theme : Theme.

Implicit Types (s e : State) (r : ref) (o : ObjData).

Lemma update_fold_lookup (f : ObjData -> ObjData) (l : list ref) r :
  (forall o, f (f o) = f o) ->
  forall s, heap (fold_left (fun s0 x => update_obj x f s0) l s) !! r =
            if includes l r then f <$> heap s !! r else heap s !! r.
Proof.
  intros Hf. induction l as [|x l IH]; intros s; cbn [fold_left]; [reflexivity |].
  rewrite IH, includes_cons. unfold update_obj. cbn [heap set_heap].
  destruct (decide (r = x)) as [-> | Hne].
  - rewrite Nat.eqb_refl, lookup_alter_eq. cbn.
    destruct (includes l x); [| reflexivity].
    destruct (heap s !! x); cbn; [| reflexivity]. now rewrite Hf.
  - rewrite lookup_alter_ne by congruence.
    assert (E : Nat.eqb r x = false) by now apply Nat.eqb_neq.
    now rewrite E.
Qed.

Lemma set_field_idem (p : prop) (a : axis) (val : num) o :
  set_field p a val (set_field p a val o) = set_field p a val o.
Proof. now destruct p, a. Qed.

(** X20  Editing a field of the transform panel: the value is written to
    that one component of every selected object, and to nothing else.  An
    unselected object is left as it is; a selected one keeps its id, name
    and kind and the other eight components of its transform.  Both shapes
    of the scene, the clips and the bindings are kept, and one snapshot is
    committed. *)
Theorem editTransform_sets_one_field (p : prop) (a : axis) (val : num) s r :
  let s' := editTransform theme p a val s in
  (~ In r (selectedObjects s) -> heap s' !! r = heap s !! r) /\
  (In r (selectedObjects s) ->
   forall o, heap s !! r = Some o ->
     exists o', heap s' !! r = Some o' /\
       get_field p a o' = val /\
       (forall p' a', (p', a') <> (p, a) -> get_field p' a' o' = get_field p' a' o) /\
       id o' = id o /\ name o' = name o /\ type o' = type o) /\
  objects s' = objects s /\
  selectedObjects s' = selectedObjects s /\
  bindings s' = bindings s /\
  undoStack s' = push_capped (undoLimit theme) (undoStack s) (snapshot s') /\
  redoStack s' = [].
Proof.
  cbn zeta. unfold editTransform.
  set (e := fold_left (fun s0 x => update_obj x (set_field p a val) s0) (selectedObjects s) s).
  assert (Hl : heap e !! r =
               if includes (selectedObjects s) r
               then set_field p a val <$> heap s !! r else heap s !! r).
  { subst e. apply update_fold_lookup. apply set_field_idem. }
  assert (Hw : writes same_identity s e).
  { subst e. apply (writes_fold _ same_identity_refl same_identity_trans).
    intros s0 x. apply writes_update_obj; [apply same_identity_refl |].
    intros y. now destruct p. }
  destruct (writes_fields _ _ _ Hw) as (Ho & _ & Hs & _ & Hc & Ht & _ & _ & _ & Hh & _).
  change (heap (saveState theme e)) with (heap e).
  split; [| split; [| split; [exact Ho | split; [exact Hs | split; [| split]]]]].
  - intros Hr. apply includes_false in Hr. now rewrite Hl, Hr.
  - intros Hr o Hro. apply includes_In in Hr. rewrite Hl, Hr, Hro. cbn.
    eexists. split; [reflexivity |]. split; [now destruct p, a |].
    split; [| now destruct p].
    intros p' a' Hne. destruct p, a, p', a'; try reflexivity; congruence.
  - unfold bindings. now rewrite <- Hc, <- Ht.
  - rewrite saveState_undoStack, (snapshot_saveState theme).
    exact (f_equal (fun st => push_capped (undoLimit theme) st _) (f_equal fst Hh)).
  - reflexivity.
Qed.

(** X21  Tracking bindings across a restore: restoring the snapshot of a
    scene rebuilds the binding of every live object, and drops every
    binding stored under an id that no live object has; a binding is kept
    even when its target is gone.  A binding to id 0 counts as none. *)
Theorem bindings_survive_restore s t (i : Z) :
  let s' := final (restoreState (data_of_snapshot (snapshot s)) t) in
  (In i (live_ids s) -> cameraTrackTargets s' !! i = or_null (cameraTrackTargets s !! i)) /\
  (~ In i (live_ids s) -> cameraTrackTargets s' !! i = None).
Proof.
  cbn zeta.
  destruct (restoreState_snapshot (snapshot s) t) as (s' & -> & _ & _ & Ht & _).
  cbn [final]. rewrite Ht. cbn [snapshot snap_objects]. split.
  - intros Hi. destruct (or_null (cameraTrackTargets s !! i)) as [v|] eqn:E.
    + apply (restore_targets_set s); [exact E | now left].
    + rewrite (restore_targets_keep s); [apply lookup_empty | now left].
  - intros Hi. rewrite (restore_targets_keep s); [apply lookup_empty | now right].
Qed.

End Edits.

Section KeyboardProperties.

Context {N : Numeric}.
Variable theme : Theme.
Variable degToRad : num -> num.

Implicit Types (s e : State) (u : Ui).

Lemma updateSnapping_editor u : editor (updateSnapping degToRad u) = editor u.
Proof.
  unfold updateSnapping. cbv zeta.
  destruct (gridSnapEnabled u), (isAltHeld u), (isShiftHeld u); reflexivity.
Qed.

Lemma updateSnapping_flags u :
  isShiftHeld (updateSnapping degToRad u) = isShiftHeld u /\
  isAltHeld (updateSnapping degToRad u) = isAltHeld u /\
  isCtrlHeld (updateSnapping degToRad u) = isCtrlHeld u /\
  gridSnapEnabled (updateSnapping degToRad u) = gridSnapEnabled u /\
  snapPosition (updateSnapping degToRad u) = snapPosition u /\
  snapAngle (updateSnapping degToRad u) = snapAngle u /\
  mode (updateSnapping degToRad u) = mode u.
Proof.
  unfold updateSnapping. cbv zeta.
  destruct (gridSnapEnabled u) eqn:Hg, (isAltHeld u) eqn:Ha, (isShiftHeld u) eqn:Hs;
    cbn; rewrite ?Hg, ?Ha, ?Hs; now repeat split.
Qed.

Lemma updateSnapping_synced u : snaps_synced degToRad (updateSnapping degToRad u).
Proof.
  unfold snaps_synced, updateSnapping. cbv zeta.
  destruct (gridSnapEnabled u) eqn:Hg, (isAltHeld u) eqn:Ha, (isShiftHeld u) eqn:Hs;
    cbn; rewrite ?Hg, ?Ha, ?Hs; now split.
Qed.


(* decide the comparisons of a key that is known *)
Ltac eval_keys :=
  repeat match goal with
  | |- context [String.eqb ?a ?b] =>
      let v := eval vm_compute in (String.eqb a b) in
      change (String.eqb a b) with v
  end;
  cbn [when andb orb negb].

Ltac snapping_editor :=
  match goal with
  | |- editor (updateSnapping ?d ?x) = _ => exact (updateSnapping_editor x)
  end.

Ltac key_case key lit tac :=
  destruct (String.eqb_spec key lit) as [-> | ?]; [eval_keys; tac |].

Ltac all_keys key tac :=
  key_case key "Shift" tac; key_case key "Alt" tac; key_case key "Control" tac;
  key_case key "g" tac; key_case key "1" tac; key_case key "2" tac;
  key_case key "3" tac; key_case key "Delete" tac; key_case key "Backspace" tac;
  key_case key "z" tac; key_case key "y" tac; key_case key "c" tac;
  key_case key "v" tac; key_case key "d" tac; key_case key "s" tac;
  key_case key "e" tac; key_case key "a" tac; key_case key "t" tac;
  key_case key "r" tac; key_case key " " tac; key_case key "ArrowLeft" tac;
  key_case key "ArrowRight" tac; key_case key "Home" tac; key_case key "End" tac;
  key_case key "k" tac; key_case key "K" tac; key_case key "[" tac;
  key_case key "]" tac; cbn [when andb orb negb].

Lemma onKeyDown_editor (key : string) (ctrlKey : bool) u :
  editor (onKeyDown theme degToRad key ctrlKey u) =
  match key_command key ctrlKey (isShiftHeld u) (totalFrames (editor u)) with
  | Some c => step theme (editor u) c
  | None => editor u
  end.
Proof.
  unfold onKeyDown, key_command. cbv zeta.
  destruct ctrlKey;
    all_keys key ltac:(first [reflexivity | snapping_editor]);
    reflexivity.
Qed.

Lemma onKeyUp_editor (key : string) u : editor (onKeyUp degToRad key u) = editor u.
Proof.
  unfold onKeyUp. cbv zeta.
  key_case key "Shift" ltac:(idtac; snapping_editor).
  key_case key "Alt" ltac:(idtac; snapping_editor).
  key_case key "Control" ltac:(reflexivity).
  reflexivity.
Qed.

Lemma onKeyDown_synced (key : string) (ctrlKey : bool) u :
  snaps_synced degToRad u -> snaps_synced degToRad (onKeyDown theme degToRad key ctrlKey u).
Proof.
  intros Hs. unfold onKeyDown. cbv zeta.
  destruct ctrlKey;
    all_keys key ltac:(first [exact Hs | apply updateSnapping_synced]);
    exact Hs.
Qed.

Lemma onKeyUp_synced (key : string) u :
  snaps_synced degToRad u -> snaps_synced degToRad (onKeyUp degToRad key u).
Proof.
  intros Hs. unfold onKeyUp. cbv zeta.
  key_case key "Shift" ltac:(apply updateSnapping_synced).
  key_case key "Alt" ltac:(apply updateSnapping_synced).
  key_case key "Control" ltac:(exact Hs).
  exact Hs.
Qed.


(** X23  Snapping follows the modifiers: after every event the translation
    and rotation snaps are those the flags call for: none unless grid snap
    is on or Alt or Shift is held, a quarter of the snap size when Shift and
    Alt are both held, the snap size otherwise.  The status text is empty
    exactly when no snap is set.  With grid snap on and Shift and Alt held
    the status reads Grid while the quarter step applies. *)
Theorem snapping_follows_modifiers :
  (forall u, snaps_synced degToRad (updateSnapping degToRad u)) /\
  (forall u (ev : ui_event),
     snaps_synced degToRad u -> snaps_synced degToRad (handle theme degToRad u ev)) /\
  (forall u, snapText u = "" <-> translationSnap (updateSnapping degToRad u) = None) /\
  (forall u, snapText u = "" <-> rotationSnap (updateSnapping degToRad u) = None) /\
  (forall u, gridSnapEnabled u = true -> isShiftHeld u = true -> isAltHeld u = true ->
     snapText u = "🔒 Grid" /\
     translationSnap (updateSnapping degToRad u) =
       Some (ndiv (snapPosition u) (of_int 4))).
Proof.
  split; [exact updateSnapping_synced |].
  split; [| split; [| split]].
  - intros u ev Hs. destruct ev; cbn [handle].
    + now apply onKeyDown_synced.
    + now apply onKeyUp_synced.
    + apply updateSnapping_synced.
    + apply updateSnapping_synced.
  - intros u. unfold snapText, updateSnapping. cbv zeta.
    destruct (gridSnapEnabled u), (isAltHeld u), (isShiftHeld u); cbn;
      split; intros H; try reflexivity; discriminate.
  - intros u. unfold snapText, updateSnapping. cbv zeta.
    destruct (gridSnapEnabled u), (isAltHeld u), (isShiftHeld u); cbn;
      split; intros H; try reflexivity; discriminate.
  - intros u Hg Hs Ha. unfold snapText, updateSnapping. cbv zeta.
    now rewrite Hg, Hs, Ha.
Qed.

End KeyboardProperties.

Section ThemeProperties.

Context {N : Numeric}.

Implicit Types (base : gmap string json) (overrides : option (gmap string json)).

Lemma lookup_foldr_insert (f : string -> json) (ks : list string) (m0 : gmap string json)
    (k : string) :
  foldr (fun k m => <[k := f k]> m) m0 ks !! k =
  if decide (k ∈ ks) then Some (f k) else m0 !! k.
Proof.
  induction ks as [|x ks IH]; cbn.
  - destruct (decide (k ∈ [])) as [H | _]; [| reflexivity]. now apply elem_of_nil in H.
  - destruct (decide (k = x)) as [-> | Hne].
    + rewrite lookup_insert_eq. destruct (decide (x ∈ x :: ks)) as [_ | H]; [reflexivity |].
      exfalso. apply H. now left.
    + rewrite lookup_insert_ne by congruence. rewrite IH.
      destruct (decide (k ∈ ks)) as [H | H], (decide (k ∈ x :: ks)) as [H' | H'];
        try reflexivity.
      * exfalso. apply H'. now right.
      * exfalso. apply elem_of_cons in H' as [? | ?]; contradiction.
Qed.

Lemma mergeTheme_lookup base overrides (k : string) :
  mergeTheme base overrides !! k =
  if decide (k ∈ theme_sections) then Some (merged_section base overrides k)
  else (default ∅ overrides ∪ base) !! k.
Proof. unfold mergeTheme. apply lookup_foldr_insert. Qed.

Lemma union_absorb (m n : gmap string json) : m ∪ (m ∪ n) = m ∪ n.
Proof.
  apply map_eq. intros i. rewrite !lookup_union.
  now destruct (m !! i), (n !! i).
Qed.

Lemma lookup_union_first (m n : gmap string json) (i : string) :
  (m ∪ n) !! i = match m !! i with Some v => Some v | None => n !! i end.
Proof. rewrite lookup_union. now destruct (m !! i), (n !! i). Qed.


End ThemeProperties.

Section Limits.

Context {N : Numeric}.
Variable theme : Theme.

Implicit Types (s e : State) (r : ref) (o : ObjData).

Lemma restore_objects_broken (rs : list ObjRecord) (rest : list FileRecord) s :
  restore_objects (map Rec rs ++ Broken :: rest) s = Thrown (fold_left restore_object rs s).
Proof. revert s. induction rs as [|x rs IH]; intros s; cbn; [reflexivity | apply IH]. Qed.

Lemma restore_object_scene s (data : ObjRecord) :
  clips (restore_object s data) = clips s /\
  objectIdCounter (restore_object s data) = objectIdCounter s /\
  selection_shape (restore_object s data) = selection_shape s.
Proof.
  unfold restore_object, createObjectFromData.
  destruct (parse_type _) as [k|]; destruct (or_null _); cbn;
    try destruct (kind_eqb k Camera); now repeat split.
Qed.

(** X25  A load that stops in the middle.  When the [objects] array holds an
    element that the loop of restoreState cannot read (null, or a record of
    a known type without its position, rotation or scale), the restore
    throws there: the selection is dropped, the objects described before
    that element are restored, in order and with their tracking bindings,
    and nothing after it is; the clips and the id counter stay those of the
    state before the restore, and so do both history stacks.  So a live id
    may exceed the counter afterwards. *)
Theorem restore_stops_at_broken_record (d : StateData) (rs : list ObjRecord)
    (rest : list FileRecord) s :
  sd_objects d = Some (map Rec rs ++ Broken :: rest) ->
  exists s', restoreState d s = Thrown s' /\
    deref s' (objects s') = known_objects rs /\
    cameraTrackTargets s' = restore_targets rs ∅ /\
    clips s' = clips s /\
    objectIdCounter s' = objectIdCounter s /\
    selectedObjects s' = [] /\
    attached s' = None /\
    hist s' = hist s.
Proof.
  intros Hd. unfold restoreState. rewrite Hd, restore_objects_broken.
  set (s2 := set_cameraTrackTargets ∅ (set_sceneCameras [] (set_objects [] (deselectAll s)))).
  assert (Ha : allocated s2) by constructor.
  destruct (restore_fold rs s2 Ha) as (_ & Hf & Ht).
  eexists. split; [reflexivity |].
  split; [exact Hf |]. split; [exact Ht |].
  split; [exact (ambient_fold clips restore_object rs
                   (fun e x => proj1 (restore_object_scene e x)) s2) |].
  split; [exact (ambient_fold objectIdCounter restore_object rs
                   (fun e x => proj1 (proj2 (restore_object_scene e x))) s2) |].
  pose proof (ambient_fold selection_shape restore_object rs
                (fun e x => proj2 (proj2 (restore_object_scene e x))) s2) as Hs.
  split; [exact (f_equal fst Hs) |]. split; [exact (f_equal snd Hs) |].
  rewrite hist_fold by apply hist_restore_object. reflexivity.
Qed.

Lemma addObject_live_ids (k : kind) (prefix : string) (m : Mesh) s :
  allocated s ->
  let s' := addObject theme k prefix m s in
  allocated s' /\
  objectIdCounter s' = double_round (objectIdCounter s + 1) /\
  live_ids s' = live_ids s ++ [double_round (objectIdCounter s + 1)].
Proof.
  intros Ha. destruct (addObject_fields theme k prefix m s)
    as (Ho & Hh & Hn & _ & _ & _ & Hc & _).
  cbn zeta in *. split; [| split; [exact Hc |]].
  - unfold allocated. rewrite Ho, Hn. apply Forall_app. split.
    + now apply Forall_lt_S.
    + repeat constructor.
  - unfold live_ids. rewrite Ho, deref_app, map_app. f_equal.
    + f_equal. exact (deref_fresh s _ _ _ Hh Ha).
    + unfold deref. cbn [omap list_omap]. rewrite Hh, lookup_insert_eq. reflexivity.
Qed.

(** X26  The id counter at 2^53.  The counter is a double, and 2^53 + 1 is
    not one: once the counter has reached 2^53, ++objectIdCounter gives
    2^53 again, so every object added from then on gets the id 2^53 and the
    counter stays where it is. *)
Theorem id_counter_stalls (k : kind) (prefix : string) (m : Mesh) s :
  allocated s -> objectIdCounter s = 2 ^ 53 ->
  let s1 := addObject theme k prefix m s in
  let s2 := addObject theme k prefix m s1 in
  objectIdCounter s1 = 2 ^ 53 /\
  objectIdCounter s2 = 2 ^ 53 /\
  live_ids s1 = live_ids s ++ [2 ^ 53] /\
  live_ids s2 = live_ids s ++ [2 ^ 53; 2 ^ 53].
Proof.
  intros Ha Hc. cbn zeta.
  assert (Hstall : double_round (2 ^ 53 + 1) = 2 ^ 53) by reflexivity.
  destruct (addObject_live_ids k prefix m s Ha) as (Ha1 & Hc1 & Hl1).
  cbn zeta in *. rewrite Hc, Hstall in Hc1, Hl1.
  destruct (addObject_live_ids k prefix m _ Ha1) as (_ & Hc2 & Hl2).
  cbn zeta in *. rewrite Hc1, Hstall in Hc2, Hl2.
  split; [exact Hc1 |]. split; [exact Hc2 |]. split; [exact Hl1 |].
  rewrite Hl2, Hl1, <- app_assoc. reflexivity.
Qed.

End Limits.


(** * The further properties on concrete inputs *)

(** X1 on a concrete input: a tick and a jump from frame 5 of 300. *)
Lemma playhead_stays_on_timeline_witness :
  in_range s_cam /\ totalFrames s_cam <= 2 ^ 53 /\
  in_range (animate s_cam) /\ in_range (nextKeyframe s_cam).
Proof.
  assert (H : in_range s_cam) by (vm_compute; split; discriminate).
  assert (Hb : totalFrames s_cam <= 2 ^ 53) by (vm_compute; discriminate).
  split; [exact H |]. split; [exact Hb |].
  destruct (playhead_stays_on_timeline s_cam H Hb) as (_ & _ & Hn & _ & Ha & _).
  split; [exact Ha | exact Hn].
Defined.

(** X2 on a concrete input: from frame 5 the next keyframe is at frame 20. *)
Lemma keyframe_jumps_to_nearest_witness :
  In (kf 20 2 2 2) (camera_position_keys s_keyed) /\
  currentFrame s_keyed < frame (kf 20 2 2 2) /\
  currentFrame (nextKeyframe s_keyed) <= frame (kf 20 2 2 2).
Proof.
  assert (Hin : In (kf 20 2 2 2) (camera_position_keys s_keyed))
    by (vm_compute; right; left; reflexivity).
  assert (Hlt : currentFrame s_keyed < frame (kf 20 2 2 2)) by (vm_compute; reflexivity).
  split; [exact Hin |]. split; [exact Hlt |].
  destruct (keyframe_jumps_to_nearest s_keyed) as ((_ & _ & H) & _).
  exact (H (kf 20 2 2 2) Hin Hlt).
Defined.

(** X3 on a concrete input: a keyframe at frame 0 survives one put at frame 5. *)
Lemma keyframe_put_then_interpolate_witness :
  5 <> 0 /\
  exists pre post,
    put_keyframe 5 (value (kf 5 1 1 1)) (put_keyframe 0 (value (kf 0 0 0 0)) track_0_10) =
      pre ++ kf 5 1 1 1 :: post /\
    In (kf 0 0 0 0) (pre ++ post).
Proof.
  assert (H : 5 <> 0) by discriminate.
  split; [exact H |].
  destruct (keyframe_put_then_interpolate 0 (value (kf 0 0 0 0)) track_0_10)
    as (_ & _ & _ & Hk).
  exact (Hk 5 (value (kf 5 1 1 1)) H).
Defined.

(** X4 on a concrete input: the quad is no scene camera, so applyFrame keeps it. *)
Lemma applyFrame_poses_cameras_witness :
  ~ In 0%nat (sceneCameras s_keyed) /\
  heap (applyFrame s_keyed) !! 0%nat = heap s_keyed !! 0%nat.
Proof.
  assert (H : ~ In 0%nat (sceneCameras s_keyed)).
  { vm_compute. intros [E | []]. discriminate E. }
  split; [exact H |].
  destruct (applyFrame_poses_cameras s_keyed) as (_ & Hk & _).
  exact (Hk 0%nat H).
Defined.

(** X5 on a concrete input: camera 2 keyed at frame 5 stays where it is. *)
Lemma addKeyframe_then_applyFrame_witness :
  NoDup (map id (selected_cameras s_cam)) /\
  In 1%nat (selectedObjects s_cam) /\
  heap s_cam !! 1%nat = Some camera_2 /\
  type camera_2 = Camera /\
  heap (applyFrame (addKeyframe defaultTheme s_cam)) !! 1%nat = Some camera_2.
Proof.
  assert (Hn : NoDup (map id (selected_cameras s_cam))).
  { vm_compute. apply NoDup_singleton. }
  assert (Hi : In 1%nat (selectedObjects s_cam)) by (vm_compute; now left).
  assert (Hh : heap s_cam !! 1%nat = Some camera_2) by (vm_compute; reflexivity).
  assert (Ht : type camera_2 = Camera) by reflexivity.
  split; [exact Hn |]. split; [exact Hi |]. split; [exact Hh |]. split; [exact Ht |].
  exact (addKeyframe_then_applyFrame defaultTheme s_cam 1%nat camera_2 Hn Hi Hh Ht).
Defined.



(** X8 on a concrete input: adding a camera to the initial scene. *)
Lemma scene_arrays_consistent_witness :
  scene_ok s_init /\ scene_ok (step defaultTheme s_init AddCamera).
Proof.
  destruct (scene_arrays_consistent (N := QNumeric) defaultTheme) as (Hs & Hr & _).
  pose proof (Hr []) as Hi.
  split; [exact Hi | exact (Hs s_init AddCamera Hi)].
Defined.

(** X9 on a concrete input: a click on the initial quad after deselecting. *)
Lemma selection_consistent_witness :
  selection_ok s_init /\
  clicks_live defaultTheme [DeselectAll; Select 0%nat true] s_init /\
  selection_live (run defaultTheme [DeselectAll; Select 0%nat true] s_init).
Proof.
  destruct (selection_consistent (N := QNumeric) defaultTheme) as (_ & Hr & Hl & _).
  assert (Hc : clicks_live defaultTheme [DeselectAll; Select 0%nat true] s_init).
  { split; [exact I |]. split; [| exact I]. vm_compute. now left. }
  assert (Hs : selection_live s_init).
  { intros r. vm_compute. exact (fun H => H). }
  split; [exact (Hr []) |]. split; [exact Hc |].
  exact (Hl _ s_init Hs Hc).
Defined.




(** X14 on a concrete input: a load that empties the scene, then undo. *)
Lemma load_is_not_committed_witness :
  undoStack s_init = [] ++ [snapshot s_init; snapshot s_init] /\
  taken (snapshot s_init) /\
  undoStack (load (Some file_without_objects) s_init) = undoStack s_init /\
  snapshot (undo (load (Some file_without_objects) s_init)) = snapshot s_init.
Proof.
  assert (Hu : undoStack s_init = [] ++ [snapshot s_init; snapshot s_init])
    by (vm_compute; reflexivity).
  assert (Ht : taken (snapshot s_init)) by (exists s_init; reflexivity).
  split; [exact Hu |]. split; [exact Ht |].
  destruct (load_is_not_committed (Some file_without_objects) s_init []
              (snapshot s_init) (snapshot s_init) Hu Ht Ht) as (H1 & _ & H2 & _).
  split; [exact H1 | exact H2].
Defined.

(** X15 on a concrete input: the default theme allows fifty steps. *)
Lemma init_scene_witness :
  (2 <= undoLimit defaultTheme)%nat /\
  deref s_init (objects s_init) = [first_quad] /\
  undoStack s_init = [snapshot s_init; snapshot s_init] /\
  snapshot (undo s_init) = snapshot s_init.
Proof.
  assert (Hl : (2 <= undoLimit defaultTheme)%nat) by (vm_compute; repeat constructor).
  split; [exact Hl |].
  destruct (init_scene (N := QNumeric) defaultTheme)
    as (Hq & _ & _ & _ & _ & _ & _ & _ & _ & H).
  split; [exact Hq |].
  destruct (H Hl) as (H1 & H2 & _).
  split; [exact H1 | exact H2].
Defined.

(** X16 on a concrete input: switching the initial scene to the xy plane,
    and to the inherited name toString. *)
Lemma grid_shows_current_plane_witness :
  known_plane "xy" /\
  currentGridPlane (setGridPlane "xy" s_init) = "xy" /\
  visibleGrids (setGridPlane "xy" s_init) = ["xy"] /\
  ~ known_plane "toString" /\
  inherited_name "toString" = true /\
  currentGridPlane (setGridPlane "toString" s_init) = "toString" /\
  visibleGrids (setGridPlane "toString" s_init) = [].
Proof.
  assert (Hk : known_plane "xy") by (right; left; reflexivity).
  assert (Hn : ~ known_plane "toString") by (intros [E | [E | E]]; discriminate E).
  assert (Hi : inherited_name "toString" = true) by reflexivity.
  destruct (grid_shows_current_plane (N := QNumeric) defaultTheme) as (H & H' & _).
  split; [exact Hk |].
  split; [exact (proj1 (H "xy" s_init Hk)) |].
  split; [exact (proj2 (H "xy" s_init Hk)) |].
  split; [exact Hn |]. split; [exact Hi |].
  exact (H' "toString" s_init Hn Hi).
Defined.


(** X18 on a concrete input: deleting the selected quad of [s_tracking]. *)
Lemma delete_removes_exactly_selection_witness :
  selectedObjects s_tracking <> [] /\
  objects (deleteSelected defaultTheme s_tracking) = [1%nat] /\
  heap (deleteSelected defaultTheme s_tracking) = heap s_tracking.
Proof.
  assert (Hs : selectedObjects s_tracking <> []) by (vm_compute; discriminate).
  split; [exact Hs |].
  destruct (delete_removes_exactly_selection defaultTheme s_tracking Hs)
    as (H1 & _ & _ & _ & H2 & _).
  split; [| exact H2]. rewrite H1. vm_compute. reflexivity.
Defined.

(** X19 on a concrete input: camera 2 of [s_tracking], bound to quad 1. *)
Lemma tracking_turns_bound_cameras_witness :
  (forall k v, cameraTrackTargets s_tracking !! k = Some v -> Z.abs k < 10 ^ 21) /\
  heap s_tracking !! 1%nat = Some camera_2 /\
  cameraTrackTargets s_tracking !! id camera_2 = Some 1 /\
  tracked_pair s_tracking (id camera_2, 1) = Some (1%nat, quad_1) /\
  exists o', heap (updateCameraTracking s_tracking) !! 1%nat = Some o' /\
    same_but_rotation camera_2 o' /\
    rotation (mesh o') = lookAt (position (mesh camera_2)) (position (mesh quad_1)).
Proof.
  assert (Hm : cameraTrackTargets s_tracking = {[ 2 := 1 ]}) by (vm_compute; reflexivity).
  assert (Hs : forall k v, cameraTrackTargets s_tracking !! k = Some v -> Z.abs k < 10 ^ 21).
  { intros k v. rewrite Hm. intros Hkv. apply lookup_singleton_Some in Hkv as [<- _].
    reflexivity. }
  assert (Hh : heap s_tracking !! 1%nat = Some camera_2) by (vm_compute; reflexivity).
  assert (Hb : cameraTrackTargets s_tracking !! id camera_2 = Some 1)
    by (vm_compute; reflexivity).
  assert (Hp : tracked_pair s_tracking (id camera_2, 1) = Some (1%nat, quad_1))
    by (vm_compute; reflexivity).
  split; [exact Hs |]. split; [exact Hh |]. split; [exact Hb |]. split; [exact Hp |].
  destruct (tracking_turns_bound_cameras s_tracking 1%nat) as (_ & _ & H).
  destruct (H Hs) as [_ H'].
  destruct (H' camera_2 Hh) as (o' & H1 & H2 & _ & H3 & _).
  exists o'. split; [exact H1 |]. split; [exact H2 |].
  exact (H3 1 1%nat quad_1 Hb Hp eq_refl).
Defined.

(** X20 on a concrete input: x of the position of the selected camera set to 7. *)
Lemma editTransform_sets_one_field_witness :
  In 1%nat (selectedObjects s_cam) /\
  heap s_cam !! 1%nat = Some camera_2 /\
  exists o', heap (editTransform (N := QNumeric) defaultTheme Position X 7%Q s_cam) !! 1%nat = Some o' /\
    get_field Position X o' = 7%Q /\ name o' = name camera_2.
Proof.
  assert (Hi : In 1%nat (selectedObjects s_cam)) by (vm_compute; now left).
  assert (Hh : heap s_cam !! 1%nat = Some camera_2) by (vm_compute; reflexivity).
  split; [exact Hi |]. split; [exact Hh |].
  destruct (editTransform_sets_one_field (N := QNumeric) defaultTheme Position X 7%Q s_cam 1%nat)
    as (_ & H & _).
  destruct (H Hi camera_2 Hh) as (o' & H1 & H2 & _ & _ & H3 & _).
  exists o'. split; [exact H1 |]. split; [exact H2 | exact H3].
Defined.

(** X21 on a concrete input: the binding of camera 2 of [s_tracking]. *)
Lemma bindings_survive_restore_witness :
  In 2 (live_ids s_tracking) /\
  cameraTrackTargets
    (final (restoreState (data_of_snapshot (snapshot s_tracking)) s_init)) !! 2 =
  or_null (cameraTrackTargets s_tracking !! 2).
Proof.
  assert (Hi : In 2 (live_ids s_tracking)) by (vm_compute; right; left; reflexivity).
  split; [exact Hi |].
  exact (proj1 (bindings_survive_restore s_tracking s_init 2) Hi).
Defined.

(** X23 on a concrete input: pressing Alt with nothing else held. *)
Lemma snapping_follows_modifiers_witness :
  snaps_synced (N := QNumeric) deg_to_rad u_init /\
  snaps_synced (N := QNumeric) deg_to_rad
    (handle defaultTheme deg_to_rad u_init (KeyDown "Alt" false)).
Proof.
  assert (Hs : snaps_synced (N := QNumeric) deg_to_rad u_init) by (split; reflexivity).
  split; [exact Hs |].
  destruct (snapping_follows_modifiers (N := QNumeric) defaultTheme deg_to_rad) as (_ & H & _).
  exact (H u_init (KeyDown "Alt" false) Hs).
Defined.


(** X25 on a concrete input: a file with a cube of id 2 followed by null,
    loaded into the initial scene, whose counter is 1; the cube added next
    is given the id 2 as well. *)
Lemma restore_stops_at_broken_record_witness :
  sd_objects (data_of_file file_broken) = Some (map Rec [cube_record 2] ++ Broken :: []) /\
  live_ids (load (Some file_broken) s_init) = [2] /\
  objectIdCounter (load (Some file_broken) s_init) = 1 /\
  ~ registry_ok (load (Some file_broken) s_init) /\
  live_ids (run defaultTheme [Load (Some file_broken); AddCube] s_init) = [2; 2].
Proof.
  assert (Hd : sd_objects (data_of_file file_broken)
               = Some (map Rec [cube_record 2] ++ Broken :: [])) by reflexivity.
  destruct (restore_stops_at_broken_record (data_of_file file_broken) [cube_record 2] []
              s_init Hd) as (s' & Hs & Ho & _ & _ & Hc & _).
  assert (Hload : load (Some file_broken) s_init = s').
  { change (load (Some file_broken) s_init)
      with (final (restoreState (data_of_file file_broken) s_init)).
    now rewrite Hs. }
  assert (Hl : live_ids (load (Some file_broken) s_init) = [2]).
  { rewrite Hload. unfold live_ids. rewrite Ho. reflexivity. }
  assert (Hn : objectIdCounter (load (Some file_broken) s_init) = 1).
  { rewrite Hload, Hc. reflexivity. }
  split; [exact Hd |]. split; [exact Hl |]. split; [exact Hn |]. split.
  - intros [_ Hb]. unfold ids_bounded in Hb. rewrite Hl, Hn in Hb.
    inversion Hb as [|? ? Hle _]. apply Hle. reflexivity.
  - vm_compute. reflexivity.
Defined.

(** X26 on a concrete input: a file with a cube of id 2^53 loaded into the
    initial scene, then two cubes added. *)
Lemma id_counter_stalls_witness :
  allocated (load (Some file_big) s_init) /\
  objectIdCounter (load (Some file_big) s_init) = 2 ^ 53 /\
  live_ids (run defaultTheme [Load (Some file_big); AddCube; AddCube] s_init) =
    [2 ^ 53; 2 ^ 53; 2 ^ 53].
Proof.
  assert (Ha : allocated (load (Some file_big) s_init)) by (vm_compute; repeat constructor).
  assert (Hc : objectIdCounter (load (Some file_big) s_init) = 2 ^ 53)
    by (vm_compute; reflexivity).
  split; [exact Ha |]. split; [exact Hc |].
  destruct (id_counter_stalls defaultTheme Cube "Cube_"
              (set_position (vec3 (of_int 0) half (of_int 0)) newMesh)
              (load (Some file_big) s_init) Ha Hc) as (_ & _ & _ & H).
  change (run defaultTheme [Load (Some file_big); AddCube; AddCube] s_init)
    with (addCube defaultTheme (addCube defaultTheme (load (Some file_big) s_init))).
  unfold addCube. rewrite H. vm_compute. reflexivity.
Defined.
